(** * ODS v9.1: persistence engine and backup/restore protocol

    A shallow embedding of [js/database.js], [js/backup.js] and the
    database-backed theme module ([loadTheme]/[saveTheme]) together with the
    part of the browser they run on: JSON values, the IndexedDB object
    stores, the clock, the [confirm] dialog and [localStorage].

    Modelling conventions.
    - A JavaScript value is a JSON value ([jsval]); numbers are the integers
      (timestamps, counts, generated keys).  Fractions, NaN, [undefined] as a
      stored value, Dates and functions are outside the model.  A missing
      property is [None].  Where a number is printed, an integer that no
      double holds exactly stands for the double nearest to it.
    - No object has a function among its own properties, as none that was
      read from JSON or from the database has: a property of its own named
      [toString] therefore hides the inherited method, and the object
      cannot be converted to a text or to a number.
    - An object is the list of its own properties in insertion order
      (names that are array indices, which JavaScript lists first, are not
      treated apart).  Strings are ASCII.
    - An IndexedDB key is a number, a string or an array of keys (dates
      and binary data are no JSON values); an object store keeps its
      records in key order, which is the order [getAll] returns them in.
    - Every database request runs in its own transaction, so a failed
      request leaves its store as it was.
    - Promises are sequential here: [await] is sequencing, a rejection is a
      thrown error.  *)

From Stdlib Require Import ZArith Lia Ascii String.
From Stdlib Require OrderedTypeEx.
From stdpp Require Import gmap strings list fin_maps pretty sorting.

Open Scope string_scope.
Open Scope Z_scope.

(* ===================================================================== *)
(** ** JavaScript values *)
(* ===================================================================== *)

#[warnings="-register-all"]
Inductive jsval : Type :=
| JNull
| JBool (b : bool)
| JNum (n : Z)
| JStr (s : string)
| JArr (items : list jsval)
| JObj (fields : list (string * jsval)).

(** Own properties of an object, in insertion order. *)
Abbreviation obj := (list (string * jsval)).

(** Errors a script can observe: the platform's exceptions (whose messages
    are engine specific) and [new Error(msg)] thrown by the application. *)
Inductive error : Type :=
| TypeError
| SyntaxError
| DataError
| ConstraintError
| NotFoundError
| ReadError
| Error (msg : string).

(** [!!v]: null, false, 0 and the empty string are falsy. *)
Definition truthy (v : jsval) : bool :=
  match v with
  | JNull => false
  | JBool b => b
  | JNum n => negb (Z.eqb n 0)
  | JStr s => negb (String.eqb s "")
  | JArr _ | JObj _ => true
  end.

(** Truthiness of a property read: [undefined] is falsy. *)
Definition truthy_opt (o : option jsval) : bool :=
  match o with Some v => truthy v | None => false end.

(** [typeof v === 'object']: objects, arrays and null. *)
Definition typeof_object (v : jsval) : bool :=
  match v with JNull | JArr _ | JObj _ => true | _ => false end.

Module Obj.

(** [o[p]] on a plain object. *)
Fixpoint get (p : string) (o : obj) : option jsval :=
  match o with
  | [] => None
  | (q, v) :: o' => if String.eqb q p then Some v else get p o'
  end.

(** [o[p] = v]: an existing property keeps its place, a new one goes
    last. *)
Fixpoint set (p : string) (v : jsval) (o : obj) : obj :=
  match o with
  | [] => [(p, v)]
  | (q, w) :: o' =>
      if String.eqb q p then (q, v) :: o' else (q, w) :: set p v o'
  end.

(** The rest of [const { p, ...rest } = o]. *)
Fixpoint omit (p : string) (o : obj) : obj :=
  match o with
  | [] => []
  | (q, v) :: o' =>
      if String.eqb q p then omit p o' else (q, v) :: omit p o'
  end.

(** [{ ...base, ...patch }]: the copy of [base] has its properties in
    their order; those of [patch] are then assigned left to right. *)
Fixpoint assign (base patch : obj) : obj :=
  match patch with
  | [] => base
  | (p, v) :: patch' => assign (set p v base) patch'
  end.

End Obj.

(** Canonical array index: ["0"], ["1"], ...; no sign, no leading zero. *)
Definition digit_of (c : Ascii.ascii) : option nat :=
  let n := Ascii.nat_of_ascii c in
  if ((48 <=? n) && (n <=? 57))%nat then Some (n - 48)%nat else None.

Fixpoint digits_value (acc : nat) (s : string) : option nat :=
  match s with
  | EmptyString => Some acc
  | String c s' =>
      match digit_of c with
      | Some d => digits_value (10 * acc + d)%nat s'
      | None => None
      end
  end.

Definition parse_index (p : string) : option nat :=
  match p with
  | EmptyString => None
  | String "0"%char EmptyString => Some 0%nat
  | String "0"%char _ => None
  | _ => digits_value 0 p
  end.

Fixpoint chars (s : string) : list jsval :=
  match s with
  | EmptyString => []
  | String c s' => JStr (String c EmptyString) :: chars s'
  end.

(** Indexed elements and [length] of an array or a string. *)
Definition indexed (items : list jsval) (p : string) : option jsval :=
  match parse_index p with
  | Some i => nth_error items i
  | None =>
      if String.eqb p "length" then Some (JNum (Z.of_nat (length items)))
      else None
  end.

(** [v.p] for a name [p] that no prototype defines.  Reading a property of
    null throws; a number or a boolean has none. *)
Definition prop (v : jsval) (p : string) : error + option jsval :=
  match v with
  | JNull => inl TypeError
  | JBool _ | JNum _ => inr None
  | JStr s => inr (indexed (chars s) p)
  | JArr items => inr (indexed items p)
  | JObj o => inr (Obj.get p o)
  end.

Fixpoint number_from (i : nat) (items : list jsval) : obj :=
  match items with
  | [] => []
  | x :: items' => (pretty (Z.of_nat i), x) :: number_from (S i) items'
  end.

(** The enumerable own properties that a spread or a rest pattern copies
    out of a value. *)
Definition own_props (v : jsval) : obj :=
  match v with
  | JObj o => o
  | JArr items => number_from 0 items
  | JStr s => number_from 0 (chars s)
  | JNull | JBool _ | JNum _ => []
  end.

(** Whether [v] converts to a primitive value, which is the first step of
    every conversion to a text ([`${v}`], a string argument of the DOM) or
    to a number ([Math.min(v)], [v > 0], [new Date(v)]).  An object with a
    property of its own named [toString] does not: that property is no
    function, and [valueOf], its own or inherited, gives no primitive.  Any
    other object converts through [Object.prototype.toString].  An array
    converts through [join], which converts each item other than null. *)
Fixpoint converts (v : jsval) : bool :=
  match v with
  | JObj o => negb (bool_decide (is_Some (Obj.get "toString" o)))
  | JArr items => forallb converts items
  | JNull | JBool _ | JNum _ | JStr _ => true
  end.

(** The conversion of a property read to a text or to a number, for what
    it can throw; [undefined] converts. *)
Definition to_primitive (o : option jsval) : error + unit :=
  match o with
  | Some v => if converts v then inr tt else inl TypeError
  | None => inr tt
  end.

(* ===================================================================== *)
(** ** IndexedDB keys and object stores *)
(* ===================================================================== *)

#[warnings="-register-all"]
Inductive key : Type :=
| KNum (n : Z)
| KStr (s : string)
| KArr (ks : list key).

#[export] Instance key_eq_dec : EqDecision key.
Proof.
  refine (fix go (a b : key) {struct a} : Decision (a = b) :=
    match a, b with
    | KNum m, KNum n => cast_if (decide (m = n))
    | KStr s, KStr t => cast_if (decide (s = t))
    | KArr xs, KArr ys => cast_if (@list_eq_dec _ go xs ys)
    | _, _ => right _
    end); congruence.
Defined.

(** The key that a value is, if it is a valid key: a number, a string, or
    an array of valid keys. *)
Fixpoint to_key (v : jsval) : option key :=
  match v with
  | JNum n => Some (KNum n)
  | JStr s => Some (KStr s)
  | JArr items =>
      KArr <$>
        (fix each (l : list jsval) : option (list key) :=
           match l with
           | [] => Some []
           | x :: l' =>
               match to_key x, each l' with
               | Some k, Some ks => Some (k :: ks)
               | _, _ => None
               end
           end) items
  | _ => None
  end.

Fixpoint key_to_js (k : key) : jsval :=
  match k with
  | KNum n => JNum n
  | KStr s => JStr s
  | KArr ks => JArr (map key_to_js ks)
  end.

(** [l.join(sep)] *)
Fixpoint join (sep : string) (l : list string) : string :=
  match l with
  | [] => ""
  | [x] => x
  | x :: l' => x +:+ sep +:+ join sep l'
  end.

(** The double nearest to the positive integer [x]: 53 significant bits,
    a tie going to the even one. *)
Definition nearest_double (x : Z) : Z :=
  let e := Z.log2 x - 52 in
  if e <=? 0 then x else
  let q := x / 2 ^ e in
  let r := x - q * 2 ^ e in
  let half := 2 ^ (e - 1) in
  (if (half <? r) || ((r =? half) && Z.odd q) then q + 1 else q) * 2 ^ e.

(** The integer with the fewest significant digits that reads back as the
    double [x]: the multiples of [10 ^ p] on either side of [x] are tried
    from the coarsest [p] down; of two that read back as [x] the nearer
    one is taken, and the one with an even last digit when they are
    equally near. *)
Fixpoint shortest (x : Z) (p : nat) : Z :=
  let unit := 10 ^ Z.of_nat p in
  let lo := x / unit * unit in
  let hi := lo + unit in
  match nearest_double lo =? x, nearest_double hi =? x with
  | true, true =>
      if x - lo <? hi - x then lo
      else if hi - x <? x - lo then hi
      else if Z.even (lo / unit) then lo else hi
  | true, false => lo
  | false, true => hi
  | false, false =>
      match p with
      | O => x
      | S p' => shortest x p'
      end
  end.

(** A numeral without its trailing zeros. *)
Fixpoint strip_zeros (s : string) : string :=
  match s with
  | EmptyString => EmptyString
  | String c s' =>
      match strip_zeros s' with
      | EmptyString =>
          if Ascii.eqb c "0"%char then EmptyString else String c EmptyString
      | t => String c t
      end
  end.

(** [String(n)] for an integer [n].  Up to [2 ^ 53] every digit is
    printed.  Beyond, the digits are those of the shortest numeral that
    reads back as the same double, followed by zeros; from [10 ^ 21] on
    they are printed with an exponent, as in ["1.1805916207174113e+21"];
    what exceeds every double prints as ["Infinity"]. *)
Definition Number_toString (n : Z) : string :=
  if Z.abs n <=? 2 ^ 53 then pretty n else
  let sign := if n <? 0 then "-" else "" in
  let x := nearest_double (Z.abs n) in
  if 2 ^ 1024 <=? x then sign +:+ "Infinity" else
  let numeral := pretty (shortest x (String.length (pretty x) - 1)) in
  let exponent := (String.length numeral - 1)%nat in
  if (exponent <? 21)%nat then sign +:+ numeral else
  match strip_zeros numeral with
  | String c EmptyString =>
      sign +:+ String c ("e+" +:+ pretty (Z.of_nat exponent))
  | String c rest =>
      sign +:+ String c ("." +:+ rest +:+ "e+" +:+ pretty (Z.of_nat exponent))
  | EmptyString => sign +:+ numeral
  end.

(** [`${id}`] *)
Fixpoint key_to_string (k : key) : string :=
  match k with
  | KNum n => Number_toString n
  | KStr s => s
  | KArr ks => join "," (map key_to_string ks)
  end.

(** Key order: every number sorts before every string, every string
    before every array; arrays compare item by item, a proper prefix
    first. *)
Fixpoint key_compare (a b : key) : comparison :=
  match a, b with
  | KNum m, KNum n => Z.compare m n
  | KNum _, _ => Lt
  | KStr _, KNum _ => Gt
  | KStr s, KStr t => String.compare s t
  | KStr _, KArr _ => Lt
  | KArr xs, KArr ys =>
      (fix each (xs ys : list key) : comparison :=
         match xs, ys with
         | [], [] => Eq
         | [], _ :: _ => Lt
         | _ :: _, [] => Gt
         | x :: xs', y :: ys' =>
             match key_compare x y with
             | Eq => each xs' ys'
             | c => c
             end
         end) xs ys
  | KArr _, _ => Gt
  end.

Definition key_lt (a b : key) : Prop := key_compare a b = Lt.

(** An object store with in-line keys. [keygen] is the current number of
    its key generator (used when [autoIncrement] is set). *)
Record store : Type := mkStore {
  keyPath : string;
  autoIncrement : bool;
  records : list (key * obj);
  keygen : Z
}.

Definition with_records (rs : list (key * obj)) (s : store) : store :=
  mkStore (keyPath s) (autoIncrement s) rs (keygen s).

(** The largest number a key generator hands out. *)
Definition MAX_GENERATED : Z := 2 ^ 53.

Module Records.

Fixpoint get (k : key) (rs : list (key * obj)) : option obj :=
  match rs with
  | [] => None
  | (k', v) :: rs' =>
      match key_compare k k' with
      | Eq => Some v
      | _ => get k rs'
      end
  end.

(** Store [v] under [k], replacing the record with that key if there is
    one, keeping the records in key order. *)
Fixpoint put (k : key) (v : obj) (rs : list (key * obj))
  : list (key * obj) :=
  match rs with
  | [] => [(k, v)]
  | (k', v') :: rs' =>
      match key_compare k k' with
      | Lt => (k, v) :: (k', v') :: rs'
      | Eq => (k, v) :: rs'
      | Gt => (k', v') :: put k v rs'
      end
  end.

Fixpoint remove (k : key) (rs : list (key * obj)) : list (key * obj) :=
  match rs with
  | [] => []
  | (k', v') :: rs' =>
      match key_compare k k' with
      | Eq => remove k rs'
      | _ => (k', v') :: remove k rs'
      end
  end.

End Records.

Module Store.

(** The key a value is stored under, and the value as stored: the key at
    the key path if there is one, else a generated key written into the
    stored copy.  The third component is the generator afterwards. *)
Definition extract (v : obj) (s : store) : error + (key * obj * Z) :=
  match Obj.get (keyPath s) v with
  | Some kv =>
      match to_key kv with
      | None => inl DataError
      | Some k =>
          let g :=
            match k with
            | KNum n =>
                if autoIncrement s && (keygen s <=? n)
                then Z.min (n + 1) (MAX_GENERATED + 1)
                else keygen s
            | _ => keygen s
            end in
          inr (k, v, g)
      end
  | None =>
      if autoIncrement s then
        if MAX_GENERATED <? keygen s then inl ConstraintError
        else inr (KNum (keygen s),
                  Obj.set (keyPath s) (JNum (keygen s)) v,
                  keygen s + 1)
      else inl DataError
  end.

(** [store.add(v)] *)
Definition add (v : obj) (s : store) : error + (key * store) :=
  match extract v s with
  | inl e => inl e
  | inr (k, v', g) =>
      match Records.get k (records s) with
      | Some _ => inl ConstraintError
      | None =>
          inr (k, mkStore (keyPath s) (autoIncrement s)
                          (Records.put k v' (records s)) g)
      end
  end.

(** [store.put(v)] *)
Definition put (v : obj) (s : store) : error + (key * store) :=
  match extract v s with
  | inl e => inl e
  | inr (k, v', g) =>
      inr (k, mkStore (keyPath s) (autoIncrement s)
                      (Records.put k v' (records s)) g)
  end.

(** [store.get(k)] *)
Definition get (k : key) (s : store) : option obj :=
  Records.get k (records s).

(** [store.getAll()] *)
Definition getAll (s : store) : list obj := (records s).*2.

(** [store.delete(k)] *)
Definition delete (k : key) (s : store) : store :=
  with_records (Records.remove k (records s)) s.

(** [store.clear()]: the key generator is not reset. *)
Definition clear (s : store) : store := with_records [] s.

End Store.

(** [STORES]: name, key path, autoIncrement. *)
Definition STORES : list (string * (string * bool)) :=
  [ ("themes", ("id", false));
    ("operations", ("id", true));
    ("workspaces", ("id", true));
    ("backups", ("timestamp", false)) ].

(** The database as [onupgradeneeded] creates it. *)
Definition initDB : gmap string store :=
  list_to_map
    (map (fun c => (c.1, mkStore c.2.1 c.2.2 [] 1)) STORES).

(* ===================================================================== *)
(** ** The browser around the scripts *)
(* ===================================================================== *)

(** The two [confirm] dialogs of an import, by what they show. *)
Inductive prompt : Type :=
| VersionMismatch (version : jsval)
| ImportPreview (timestamp : jsval)
    (themesCount operationsCount workspacesCount : option jsval).

(** A [localStorage] slot: nothing (or the empty string), or a text, which
    [JSON.parse] reads as a value or rejects. *)
Inductive slot : Type :=
| Absent
| Text (parsed : option jsval).

(** The theme module's globals: the [theme] object and [currentScale]. *)
Record memory : Type := mkMemory {
  theme_colors : jsval;
  theme_typography : jsval;
  theme_scale : jsval;
  currentScale : jsval
}.

(** What the scripts read from the platform and do not decide. *)
Record env : Type := mkEnv {
  now : nat -> Z;                       (* the n-th reading of Date.now() *)
  confirm : nat -> prompt -> bool;      (* the answer to the n-th dialog *)
  toISOString : Z -> string;            (* new Date(t).toISOString() *)
  stringify_length : jsval -> Z;        (* JSON.stringify(v, null, 2).length *)
  userAgent : string;                   (* navigator.userAgent *)
  (* Math.round(Math.max(min, Math.min(max, value)) / step) * step *)
  round_to_step : option jsval -> option jsval -> option jsval -> jsval -> jsval
}.

(** A file picked by the user: unreadable, not JSON, or a JSON text. *)
Inductive content : Type :=
| Unreadable
| Malformed
| Parsed (v : jsval).

Record file : Type := mkFile {
  file_name : string;
  file_content : content
}.

Record world : Type := mkWorld {
  db : gmap string store;               (* the database ODS_v9 *)
  ticks : nat;                          (* readings of the clock so far *)
  prompts : list prompt;                (* dialogs shown so far *)
  downloads : list (string * jsval);    (* files offered for download *)
  mem : memory;
  ods_theme : slot;                     (* localStorage 'ods_theme' *)
  ods_theme_backup : slot               (* localStorage 'ods_theme_backup' *)
}.

Definition set_db (d : gmap string store) (w : world) : world :=
  mkWorld d (ticks w) (prompts w) (downloads w) (mem w)
          (ods_theme w) (ods_theme_backup w).

Definition set_mem (m : memory) (w : world) : world :=
  mkWorld (db w) (ticks w) (prompts w) (downloads w) m
          (ods_theme w) (ods_theme_backup w).

Definition set_ods_theme (s : slot) (w : world) : world :=
  mkWorld (db w) (ticks w) (prompts w) (downloads w) (mem w)
          s (ods_theme_backup w).

Definition set_ods_theme_backup (s : slot) (w : world) : world :=
  mkWorld (db w) (ticks w) (prompts w) (downloads w) (mem w)
          (ods_theme w) s.

(** How a computation ends: a value, a thrown error, or a step of
    JavaScript that this embedding does not define. *)
Inductive outcome (A : Type) : Type :=
| Ret (a : A)
| Throw (e : error)
| Unmodelled.
Arguments Ret {A} a.
Arguments Throw {A} e.
Arguments Unmodelled {A}.

Definition M (A : Type) : Type := world -> outcome A * world.

Definition ret {A} (a : A) : M A := fun w => (Ret a, w).

Definition throw {A} (e : error) : M A := fun w => (Throw e, w).

Definition unmodelled {A} : M A := fun w => (Unmodelled, w).

Definition bind {A B} (m : M A) (k : A -> M B) : M B :=
  fun w =>
    match m w with
    | (Ret a, w') => k a w'
    | (Throw e, w') => (Throw e, w')
    | (Unmodelled, w') => (Unmodelled, w')
    end.

(** [try { m } catch (error) { h error }]: the handler starts from the
    world as the failed body left it. *)
Definition try_catch {A} (m : M A) (h : error -> M A) : M A :=
  fun w =>
    match m w with
    | (Throw e, w') => h e w'
    | r => r
    end.

Definition lift {A} (r : error + A) : M A :=
  match r with inl e => throw e | inr a => ret a end.

Declare Scope js_scope.
Delimit Scope js_scope with js.
Notation "x <- c ;; k" := (bind c (fun x => k))
  (at level 100, c at next level, right associativity) : js_scope.
Notation "c ;; k" := (bind c (fun _ => k))
  (at level 100, right associativity) : js_scope.

(** Sequencing in pure code that may throw. *)
Definition and_then {A B} (r : error + A) (k : A -> error + B) : error + B :=
  match r with inl e => inl e | inr a => k a end.

(** [o.p] where [o] may be [undefined]. *)
Definition prop_opt (o : option jsval) (p : string) : error + option jsval :=
  match o with None => inl TypeError | Some v => prop v p end.

(** A property known to be present. *)
Definition defined (o : option jsval) : jsval := default JNull o.

(** [v[p] = x]: assigning to a property of a primitive does nothing in
    sloppy mode. *)
Definition assign_prop (v : jsval) (p : string) (x : jsval) : jsval :=
  match v with
  | JObj o => JObj (Obj.set p x o)
  | _ => v
  end.

(* ===================================================================== *)
(** ** js/database.js *)
(* ===================================================================== *)

Section Scripts.

Variable E : env.

Local Open Scope js_scope.

(** [Date.now()] *)
Definition Date_now : M Z :=
  fun w =>
    (Ret (now E (ticks w)),
     mkWorld (db w) (S (ticks w)) (prompts w) (downloads w) (mem w)
             (ods_theme w) (ods_theme_backup w)).

(** [database.transaction([storeName], mode).objectStore(storeName)]:
    a store that does not exist is a [NotFoundError]. *)
Definition transaction (storeName : string) : M store :=
  fun w =>
    match db w !! storeName with
    | Some s => (Ret s, w)
    | None => (Throw NotFoundError, w)
    end.

(** The transaction of a successful request commits. *)
Definition commit (storeName : string) (s : store) : M unit :=
  fun w => (Ret tt, set_db (<[storeName := s]> (db w)) w).

(** [addItem(storeName, data)] resolves with the key; the second component
    is [data] as the call leaves it, since [data.timestamp] is assigned on
    the caller's object. *)
Definition addItem (storeName : string) (data : jsval) : M (key * jsval) :=
  s <- transaction storeName ;;
  ts <- lift (prop data "timestamp") ;;
  data <- (if truthy_opt ts then ret data
           else t <- Date_now ;; ret (assign_prop data "timestamp" (JNum t))) ;;
  match data with
  | JObj o =>
      match Store.add o s with
      | inl e => throw e
      | inr (k, s') => commit storeName s' ;; ret (k, data)
      end
  | JArr items =>
      (* the array now carries a [timestamp] of its own, which no JSON
         value does; it is stored when the key path finds a key in it or
         the store generates one *)
      if autoIncrement s || String.eqb (keyPath s) "timestamp"
         || bool_decide (is_Some (indexed items (keyPath s)))
      then unmodelled else throw DataError
  | JStr _ =>
      (* the only key path that finds a key in a string is its length *)
      if String.eqb (keyPath s) "length" then unmodelled else throw DataError
  | _ => throw DataError
  end.

(** [getItem(storeName, id)]: [None] is [undefined]. *)
Definition getItem (storeName : string) (id : jsval) : M (option obj) :=
  s <- transaction storeName ;;
  match to_key id with
  | None => throw DataError
  | Some k => ret (Store.get k s)
  end.

(** [getAllItems(storeName)] *)
Definition getAllItems (storeName : string) : M (list obj) :=
  s <- transaction storeName ;;
  ret (Store.getAll s).

(** [updatedData[store.keyPath] !== id] for a valid key [id].  Two arrays
    are never identical, unless the patch holds the very array that [id]
    is; assigning [id] then changes nothing, so that case reads as the
    others do. *)
Definition differs_from_key (v : option jsval) (k : key) : bool :=
  match v, k with
  | Some (JNum n), KNum m => negb (Z.eqb n m)
  | Some (JStr s), KStr t => negb (String.eqb s t)
  | _, _ => true
  end.

Definition not_found (k : key) (storeName : string) : error :=
  Error ("Item with id " +:+ key_to_string k +:+ " not found in "
         +:+ storeName).

(** [updateItem(storeName, id, data)] with a patch object [data]. *)
Definition updateItem (storeName : string) (id : jsval) (data : obj)
  : M obj :=
  s <- transaction storeName ;;
  match to_key id with
  | None => throw DataError
  | Some k =>
      match Store.get k s with
      | None => throw (not_found k storeName)
      | Some existing =>
          t <- Date_now ;;
          let merged :=
            Obj.set "modified" (JNum t) (Obj.assign existing data) in
          let updatedData :=
            if negb (String.eqb (keyPath s) "")
               && differs_from_key (Obj.get (keyPath s) merged) k
            then Obj.set (keyPath s) id merged
            else merged in
          match Store.put updatedData s with
          | inl e => throw e
          | inr (_, s') => commit storeName s' ;; ret updatedData
          end
      end
  end.

(** [deleteItem(storeName, id)] *)
Definition deleteItem (storeName : string) (id : jsval) : M bool :=
  s <- transaction storeName ;;
  match to_key id with
  | None => throw DataError
  | Some k => commit storeName (Store.delete k s) ;; ret true
  end.

(** [clearStore(storeName)] *)
Definition clearStore (storeName : string) : M bool :=
  s <- transaction storeName ;;
  commit storeName (Store.clear s) ;;
  ret true.

(* ===================================================================== *)
(** ** The theme module: [saveTheme], [loadTheme]

    [localStorage] is taken to be writable: [setItem] and [removeItem] do
    not throw. *)
(* ===================================================================== *)

Definition read_memory : M memory := fun w => (Ret (mem w), w).

Definition write_memory (m : memory) : M unit :=
  fun w => (Ret tt, set_mem m w).

(** [{ ...theme.scale, current: currentScale }] *)
Definition scale_to_save (m : memory) : jsval :=
  JObj (Obj.set "current" (currentScale m) (own_props (theme_scale m))).

(** [saveTheme()] *)
Definition saveTheme : M bool :=
  try_catch
    (m <- read_memory ;;
     t <- Date_now ;;
     let themeData :=
       [ ("id", JStr "default");
         ("colors", theme_colors m);
         ("typography", theme_typography m);
         ("scale", scale_to_save m);
         ("timestamp", JNum t);
         ("version", JStr "9.1") ] in
     existingTheme <- getItem "themes" (JStr "default") ;;
     themeData <-
       match existingTheme with
       | Some _ =>
           updateItem "themes" (JStr "default") themeData ;;
           ret (JObj themeData)
       | None =>
           added <- addItem "themes" (JObj themeData) ;;
           ret added.2
       end ;;
     (fun w => (Ret tt, set_ods_theme_backup (Text (Some themeData)) w)) ;;
     ret true)
    (fun _ =>
       m <- read_memory ;;
       t <- Date_now ;;
       let themeData :=
         [ ("id", JStr "default");
           ("colors", theme_colors m);
           ("typography", theme_typography m);
           ("scale", scale_to_save m);
           ("timestamp", JNum t) ] in
       (fun w => (Ret tt, set_ods_theme (Text (Some (JObj themeData))) w)) ;;
       ret true).

(** The three assignments every branch of [loadTheme] makes from a saved
    theme: [if (t.colors) theme.colors = t.colors], the same for
    [typography], and for [scale] together with
    [currentScale = t.scale.current || 1]. *)
Definition adopt (t : jsval) : M unit :=
  colors <- lift (prop t "colors") ;;
  typography <- lift (prop t "typography") ;;
  scale <- lift (prop t "scale") ;;
  m <- read_memory ;;
  let m1 :=
    if truthy_opt colors
    then mkMemory (defined colors) (theme_typography m) (theme_scale m)
                  (currentScale m)
    else m in
  let m2 :=
    if truthy_opt typography
    then mkMemory (theme_colors m1) (defined typography) (theme_scale m1)
                  (currentScale m1)
    else m1 in
  if truthy_opt scale then
    current <- lift (prop_opt scale "current") ;;
    write_memory
      (mkMemory (theme_colors m2) (theme_typography m2) (defined scale)
                (if truthy_opt current then defined current else JNum 1))
  else write_memory m2.

(** [JSON.parse] of a stored text. *)
Definition parse_slot (parsed : option jsval) : M jsval :=
  match parsed with
  | Some v => ret v
  | None => throw SyntaxError
  end.

(** [loadTheme()]; the caller ignores the returned [theme]. *)
Definition loadTheme : M unit :=
  try_catch
    (savedTheme <- getItem "themes" (JStr "default") ;;
     match savedTheme with
     | Some t => adopt (JObj t)
     | None =>
         localTheme <- (fun w => (Ret (ods_theme w), w)) ;;
         match localTheme with
         | Text parsed =>
             themeData <- parse_slot parsed ;;
             adopt themeData ;;
             saveTheme ;;
             (fun w => (Ret tt, set_ods_theme Absent w))
         | Absent =>
             saveTheme ;;
             ret tt
         end
     end)
    (fun _ =>
       try_catch
         (saved <- (fun w =>
                      (Ret (match ods_theme w with
                            | Text p => Text p
                            | Absent => ods_theme_backup w
                            end), w)) ;;
          match saved with
          | Text parsed =>
              themeData <- parse_slot parsed ;;
              adopt themeData
          | Absent => ret tt
          end)
         (fun _ => ret tt)).

(** [applyTheme(theme)]: reads the colours and the typography of [theme]
    and writes them to CSS variables.  [setProperty] takes a text, and so
    does the template around [baseFontSize]: each value is converted as it
    is read.  The writes to the document are not modelled. *)
Definition applyTheme : M unit :=
  m <- read_memory ;;
  background <- lift (prop (theme_colors m) "background") ;;
  lift (to_primitive background) ;;
  text <- lift (prop (theme_colors m) "text") ;;
  lift (to_primitive text) ;;
  ui <- lift (prop (theme_colors m) "ui") ;;
  lift (to_primitive ui) ;;
  fontFamily <- lift (prop (theme_typography m) "fontFamily") ;;
  lift (to_primitive fontFamily) ;;
  baseFontSize <- lift (prop (theme_typography m) "baseFontSize") ;;
  lift (to_primitive baseFontSize) ;;
  ret tt.

(** [setScale(value)]: [Math.min] converts [theme.scale.max] and [value]
    to numbers, [Math.max] then [theme.scale.min], the division
    [theme.scale.step].  The writes to the document are not modelled, and
    neither is the property [current] that an array [theme.scale] would
    receive: nothing reads it, and the spread in [saveTheme] overrides
    it. *)
Definition setScale (value : jsval) : M jsval :=
  m <- read_memory ;;
  min <- lift (prop (theme_scale m) "min") ;;
  max <- lift (prop (theme_scale m) "max") ;;
  lift (to_primitive max) ;;
  lift (to_primitive (Some value)) ;;
  lift (to_primitive min) ;;
  step <- lift (prop (theme_scale m) "step") ;;
  lift (to_primitive step) ;;
  let steppedValue := round_to_step E min max step value in
  write_memory
    (mkMemory (theme_colors m) (theme_typography m)
              (assign_prop (theme_scale m) "current" steppedValue)
              steppedValue) ;;
  ret steppedValue.

(* ===================================================================== *)
(** ** js/backup.js *)
(* ===================================================================== *)

Definition BACKUP_VERSION : string := "9.1".
Definition BACKUP_MAGIC : string := "ODS_BACKUP_v9".

(** [{ valid: true }] or [{ valid: false, error }] *)
Inductive validation : Type :=
| Valid
| Invalid (error : string).

(** [v === s] for a string constant [s]. *)
Definition is_string (v : option jsval) (s : string) : bool :=
  match v with
  | Some (JStr t) => String.eqb t s
  | _ => false
  end.

(** [validateBackup(backup)] *)
Definition validateBackup (backup : jsval) : error + validation :=
  and_then (prop backup "magic") (fun magic =>
  if negb (truthy_opt magic) || negb (is_string magic BACKUP_MAGIC)
  then inr (Invalid "Invalid backup file format") else
  and_then (prop backup "version") (fun version =>
  if negb (truthy_opt version)
  then inr (Invalid "Missing version information") else
  and_then (prop backup "timestamp") (fun timestamp =>
  if negb (truthy_opt timestamp)
  then inr (Invalid "Missing timestamp") else
  and_then (prop backup "data") (fun data =>
  if negb (truthy_opt data)
  then inr (Invalid "Missing data section") else
  if negb (typeof_object (defined data))
  then inr (Invalid "Invalid data structure") else
  inr Valid)))).

(** [s.split('.')[0]]: the text before the first dot. *)
Fixpoint before_dot (s : string) : string :=
  match s with
  | EmptyString => EmptyString
  | String c s' =>
      if Ascii.eqb c "."%char then EmptyString else String c (before_dot s')
  end.

(** [isCompatibleVersion(version)]; calling [split] on a value that is not
    a string throws. *)
Definition isCompatibleVersion (version : option jsval) : error + bool :=
  if negb (truthy_opt version) then inr false else
  match version with
  | Some (JStr v) =>
      inr (String.eqb (before_dot BACKUP_VERSION) (before_dot v))
  | _ => inl TypeError
  end.

(** [.replace(/:/g, '-')] *)
Fixpoint dashes (s : string) : string :=
  match s with
  | EmptyString => EmptyString
  | String c s' =>
      String (if Ascii.eqb c ":"%char then "-"%char else c) (dashes s')
  end.

Definition backup_filename (iso : string) : string :=
  "ods-backup-" +:+ dashes (String.substring 0 19 iso) +:+ ".json".

Definition count (l : list obj) : jsval := JNum (Z.of_nat (length l)).

(** The backup object [exportData] assembles. *)
Definition backup_document (themes operations workspaces : list obj)
    (timestamp : Z) : jsval :=
  JObj
    [ ("magic", JStr BACKUP_MAGIC);
      ("version", JStr BACKUP_VERSION);
      ("timestamp", JNum timestamp);
      ("date", JStr (toISOString E timestamp));
      ("data",
        JObj [ ("themes", JArr (JObj <$> themes));
               ("operations", JArr (JObj <$> operations));
               ("workspaces", JArr (JObj <$> workspaces)) ]);
      ("metadata",
        JObj [ ("themesCount", count themes);
               ("operationsCount", count operations);
               ("workspacesCount", count workspaces);
               ("exportedBy", JStr "ODS v9.1");
               ("userAgent", JStr (userAgent E)) ]) ].

(** [downloadJSON(jsonString, filename)]: the file holds the JSON text of
    [doc]. *)
Definition downloadJSON (doc : jsval) (filename : string) : M unit :=
  fun w =>
    (Ret tt,
     mkWorld (db w) (ticks w) (prompts w) (downloads w ++ [(filename, doc)])
             (mem w) (ods_theme w) (ods_theme_backup w)).

(** [{ success: true, filename }] or [{ success: false, error }] *)
Inductive export_result : Type :=
| ExportOk (filename : string)
| ExportFailed (e : error).

(** [exportData()] *)
Definition exportData : M export_result :=
  try_catch
    (themes <- getAllItems "themes" ;;
     operations <- getAllItems "operations" ;;
     workspaces <- getAllItems "workspaces" ;;
     timestamp <- Date_now ;;
     let backup := backup_document themes operations workspaces timestamp in
     let filename := backup_filename (toISOString E timestamp) in
     downloadJSON backup filename ;;
     addItem "backups"
       (JObj [ ("timestamp", JNum timestamp);
               ("version", JStr BACKUP_VERSION);
               ("filename", JStr filename);
               ("size", JNum (stringify_length E backup));
               ("counts",
                 JObj [ ("themes", count themes);
                        ("operations", count operations);
                        ("workspaces", count workspaces) ]) ]) ;;
     ret (ExportOk filename))
    (fun e => ret (ExportFailed e)).

(** [confirm(message)] *)
Definition ask (p : prompt) : M bool :=
  fun w =>
    (Ret (confirm E (length (prompts w)) p),
     mkWorld (db w) (ticks w) (prompts w ++ [p]) (downloads w) (mem w)
             (ods_theme w) (ods_theme_backup w)).

(** The records of one data section: [backup.data.x && backup.data.x.length
    > 0], then [for (const item of backup.data.x)].  An array gives its
    items, a string its characters; a plain object with a positive [length]
    is not iterable.  Comparing a [length] that is a string or an array
    with [0] converts it to a number, which is not modelled; a [length]
    that is an object converts to no number greater than 0, if it converts
    at all. *)
Definition section_items (data : jsval) (name : string) : M (list jsval) :=
  section <- lift (prop data name) ;;
  if negb (truthy_opt section) then ret [] else
  match section with
  | Some (JArr items) => ret items
  | Some (JStr s) => ret (chars s)
  | Some (JObj o) =>
      match Obj.get "length" o with
      | Some (JNum n) => if 0 <? n then throw TypeError else ret []
      | Some (JBool true) => throw TypeError
      | Some (JStr _) | Some (JArr _) => unmodelled
      | Some (JObj l) => if converts (JObj l) then ret [] else throw TypeError
      | _ => ret []
      end
  | _ => ret []
  end.

(** A [for ... of] loop that counts the items it has handled. *)
Fixpoint import_each (handle : jsval -> M unit) (items : list jsval)
    (imported : Z) : M Z :=
  match items with
  | [] => ret imported
  | item :: rest =>
      handle item ;;
      import_each handle rest (imported + 1)
  end.

(** [const { id, ...rest } = item; await addItem(storeName, rest)] *)
Definition add_without_id (storeName : string) (item : jsval) : M unit :=
  match item with
  | JNull => throw TypeError
  | _ =>
      addItem storeName (JObj (Obj.omit "id" (own_props item))) ;;
      ret tt
  end.

Record counts : Type := mkCounts {
  imported_themes : Z;
  imported_operations : Z;
  imported_workspaces : Z
}.

(** [{ success: true, imported, message }] or [{ success: false, error }] *)
Inductive import_result : Type :=
| ImportOk (imported : counts) (message : string)
| ImportFailed (e : error).

(** The body of [importData] once both dialogs have been accepted: the
    pre-import backup, the clearing of the three stores, the re-insertion
    of the records, the import record and the reload of the theme. *)
Definition import_confirmed (f : file)
    (version timestamp data : option jsval) : M import_result :=
  (* the result of the pre-import backup is only logged *)
  exportData ;;
  clearStore "themes" ;;
  clearStore "operations" ;;
  clearStore "workspaces" ;;
  themes <- section_items (defined data) "themes" ;;
  nt <- import_each (fun theme => addItem "themes" theme ;; ret tt)
          themes 0 ;;
  operations <- section_items (defined data) "operations" ;;
  no <- import_each (add_without_id "operations") operations 0 ;;
  workspaces <- section_items (defined data) "workspaces" ;;
  nw <- import_each (add_without_id "workspaces") workspaces 0 ;;
  t <- Date_now ;;
  addItem "backups"
    (JObj [ ("timestamp", JNum t);
            ("version", defined version);
            ("type", JStr "import");
            ("filename", JStr (file_name f));
            ("imported",
              JObj [ ("themes", JNum nt);
                     ("operations", JNum no);
                     ("workspaces", JNum nw) ]);
            ("originalTimestamp", defined timestamp) ]) ;;
  loadTheme ;;
  applyTheme ;;
  m <- read_memory ;;
  setScale (currentScale m) ;;
  ret (ImportOk (mkCounts nt no nw)
         ("Successfully imported " +:+ pretty nt +:+ " themes, "
          +:+ pretty no +:+ " operations, "
          +:+ pretty nw +:+ " workspaces")).

(** The preview dialog of an import.  Its message is put together before
    the dialog is shown: [new Date(backup.timestamp)] converts the
    timestamp, and each count of [backup.metadata] is converted to text as
    the template reads it. *)
Definition import_preview (backup : jsval) : error + prompt :=
  and_then (prop backup "timestamp") (fun timestamp =>
  and_then (to_primitive timestamp) (fun _ =>
  and_then (prop backup "metadata") (fun metadata =>
  and_then (prop_opt metadata "themesCount") (fun themesCount =>
  and_then (to_primitive themesCount) (fun _ =>
  and_then (prop_opt metadata "operationsCount") (fun operationsCount =>
  and_then (to_primitive operationsCount) (fun _ =>
  and_then (prop_opt metadata "workspacesCount") (fun workspacesCount =>
  and_then (to_primitive workspacesCount) (fun _ =>
  inr (ImportPreview (defined timestamp)
         themesCount operationsCount workspacesCount)))))))))).

(** The body of [importData] from the version check on, for a [backup]
    that [validateBackup] has accepted. *)
Definition import_validated (f : file) (backup : jsval) : M import_result :=
  version <- lift (prop backup "version") ;;
  timestamp <- lift (prop backup "timestamp") ;;
  data <- lift (prop backup "data") ;;
  compatible <- lift (isCompatibleVersion version) ;;
  (if compatible then ret tt
   else
     proceed <- ask (VersionMismatch (defined version)) ;;
     if proceed then ret tt
     else throw (Error "Import cancelled by user")) ;;
  preview <- lift (import_preview backup) ;;
  confirmImport <- ask preview ;;
  if negb confirmImport then throw (Error "Import cancelled by user")
  else import_confirmed f version timestamp data.

(** [importData(file)] *)
Definition importData (f : file) : M import_result :=
  try_catch
    (backup <-
       match file_content f with
       | Unreadable => throw ReadError
       | Malformed => throw SyntaxError
       | Parsed v => ret v
       end ;;
     validation <- lift (validateBackup backup) ;;
     match validation with
     | Invalid msg => throw (Error msg)
     | Valid => import_validated f backup
     end)
    (fun e => ret (ImportFailed e)).

End Scripts.

(** [v.p] as the preview dialog shows it, for [v] other than null. *)
Definition shown (v : jsval) (p : string) : option jsval :=
  match prop v p with
  | inr x => x
  | inl _ => None
  end.

(** The records of a collection, in the order [getAllItems] lists them. *)
Definition collection (name : string) (w : world) : list obj :=
  match db w !! name with
  | Some s => Store.getAll s
  | None => []
  end.

(** [s] is the store that [STORES] declares under [name]. *)
Definition configured (name : string) (s : store) : Prop :=
  (name, (keyPath s, autoIncrement s)) ∈ STORES.

(** [data] after [if (!data.timestamp) data.timestamp = Date.now()] at the
    clock of [w]. *)
Definition stamped (E : env) (w : world) (record : obj) : obj :=
  if truthy_opt (Obj.get "timestamp" record) then record
  else Obj.set "timestamp" (JNum (now E (ticks w))) record.

(** The copy of [record] that a store keeps under [k]: a generated key is
    written into it at the key path. *)
Definition as_stored (s : store) (k : key) (record : obj) : obj :=
  match Obj.get (keyPath s) record with
  | Some _ => record
  | None => Obj.set (keyPath s) (key_to_js k) record
  end.

(* ===================================================================== *)
(** ** A sample platform and sample states *)
(* ===================================================================== *)

Module Sample.

(** A clock that advances by one millisecond per reading, a user who
    accepts every dialog. *)
Definition platform : env :=
  mkEnv (fun n => 1700000000000 + Z.of_nat n)
        (fun _ _ => true)
        (fun _ => "2023-11-14T22:13:20.000Z")
        (fun _ => 512)
        "Mozilla/5.0"
        (fun _ _ _ value => value).

(** The same platform with a user who declines every dialog. *)
Definition declining : env :=
  mkEnv (now platform) (fun _ _ => false) (toISOString platform)
        (stringify_length platform) (userAgent platform)
        (round_to_step platform).

Definition theme_defaults : memory :=
  mkMemory
    (JObj [ ("background", JStr "#000000"); ("text", JStr "#00FF00");
            ("ui", JStr "#00FF00") ])
    (JObj [ ("fontFamily", JStr "Share Tech Mono");
            ("baseFontSize", JNum 16) ])
    (JObj [ ("current", JNum 1); ("min", JNum 1); ("max", JNum 2);
            ("step", JNum 1) ])
    (JNum 1).

(** First run: the database just created, nothing asked, nothing saved. *)
Definition fresh : world :=
  mkWorld initDB 0 [] [] theme_defaults Absent Absent.

Definition default_theme : obj :=
  [ ("id", JStr "default"); ("colors", theme_colors theme_defaults);
    ("timestamp", JNum 1600000000000) ].

Definition themes_store : store :=
  mkStore "id" false [(KStr "default", default_theme)] 1.

Definition operations_store : store :=
  mkStore "id" true
    [ (KNum 1, [ ("type", JStr "task"); ("timestamp", JNum 1600000000001);
                 ("id", JNum 1) ]) ] 2.

(** A database in use: the default theme and one operation. *)
Definition in_use : world :=
  mkWorld (<["themes" := themes_store]>
             (<["operations" := operations_store]> initDB))
          0 [] [] theme_defaults Absent Absent.

(** The database in use, where the clock is about to read the very
    millisecond of an earlier export. *)
Definition clock_repeats : world :=
  mkWorld (<["backups" :=
              mkStore "timestamp" false
                [ (KNum 1700000000000,
                   [ ("timestamp", JNum 1700000000000);
                     ("version", JStr "9.1");
                     ("filename", JStr "ods-backup-2023-11-14T22-13-20.json");
                     ("size", JNum 512) ]) ] 1]> (db in_use))
          0 [] [] theme_defaults Absent Absent.

(** A well-formed document that holds no records. *)
Definition empty_document : obj :=
  [ ("magic", JStr BACKUP_MAGIC); ("version", JStr "9.1");
    ("timestamp", JNum 1650000000000);
    ("date", JStr "2022-04-15T05:20:00.000Z");
    ("data", JObj [ ("themes", JArr []); ("operations", JArr []);
                    ("workspaces", JArr []) ]);
    ("metadata", JObj [ ("themesCount", JNum 0);
                        ("operationsCount", JNum 0);
                        ("workspacesCount", JNum 0);
                        ("exportedBy", JStr "ODS v9.1");
                        ("userAgent", JStr "Mozilla/5.0") ]) ].

(** The empty document as version 8 and as version 9.0 would write it. *)
Definition old_document : obj := Obj.set "version" (JStr "8.x") empty_document.
Definition minor_document : obj :=
  Obj.set "version" (JStr "9.0") empty_document.

(** A document without an operations section, and one without a themes
    section. *)
Definition no_operations_document : obj :=
  Obj.set "data"
    (JObj [ ("themes", JArr [JObj default_theme]);
            ("workspaces", JArr [JObj [ ("name", JStr "home") ]]) ])
    empty_document.

Definition no_themes_document : obj :=
  Obj.set "data"
    (JObj [ ("operations", JArr []); ("workspaces", JArr []) ])
    empty_document.

(** A document stamped at the epoch. *)
Definition epoch_document : obj :=
  [ ("magic", JStr BACKUP_MAGIC); ("version", JStr "9.1");
    ("timestamp", JNum 0);
    ("data", JObj [ ("themes", JArr []); ("operations", JArr []);
                    ("workspaces", JArr []) ]) ].

(** A document whose data section is an array. *)
Definition array_document : obj :=
  [ ("magic", JStr BACKUP_MAGIC); ("version", JStr "9.1");
    ("timestamp", JNum 1700000000000);
    ("data", JArr [JNum 1; JNum 2]);
    ("metadata", JObj []) ].

End Sample.

(* ===================================================================== *)
(** ** Reasoning about computations *)
(* ===================================================================== *)

(** [R] relates every world to the world that [m] leaves it in. *)
Definition respects {A : Type} (R : relation world) (m : M A) : Prop :=
  forall w, R w (m w).2.

(** [field] reads the same in both worlds. *)
Definition kept {X : Type} (field : world -> X) : relation world :=
  fun w w' => field w' = field w.

(** [m] never changes what [field] reads from the world. *)
Definition keeps {A X : Type} (field : world -> X) (m : M A) : Prop :=
  respects (kept field) m.

(** The clock has not gone back. *)
Definition later : relation world :=
  fun w w' => (ticks w <= ticks w')%nat.

(** [R] holds across a step that leaves the database, the dialogs and the
    memory alone and does not turn the clock back. *)
Definition ambient (R : relation world) : Prop :=
  forall w w',
    db w' = db w -> prompts w' = prompts w -> mem w' = mem w ->
    (ticks w <= ticks w')%nat -> R w w'.

(** [R] holds across any write to the store [name]. *)
Definition apart (R : relation world) (name : string) : Prop :=
  forall s, respects R (commit name s).

(** [R] holds across any write to the theme module's memory. *)
Definition steady (R : relation world) : Prop :=
  forall m, respects R (write_memory m).

(** Every error [m] throws satisfies [Q]. *)
Definition throws_only {A : Type} (Q : error -> Prop) (m : M A) : Prop :=
  forall w e w', m w = (Throw e, w') -> Q e.

(** Every value [m] returns satisfies [P]. *)
Definition returns_only {A : Type} (P : A -> Prop) (m : M A) : Prop :=
  forall w a w', m w = (Ret a, w') -> P a.

(** The errors that can leave the body of [importData] once the document
    has been validated: exceptions of the platform, and the user's
    refusal. *)
Definition after_validation (e : error) : Prop :=
  match e with
  | Error msg => msg = "Import cancelled by user"
  | _ => True
  end.

(** The world after one more dialog. *)
Definition after_prompt (p : prompt) (w : world) : world :=
  mkWorld (db w) (ticks w) (prompts w ++ [p]) (downloads w) (mem w)
          (ods_theme w) (ods_theme_backup w).

(** The preview dialog of an import of the object [o]. *)
Definition preview_of (o : obj) : prompt :=
  ImportPreview (defined (Obj.get "timestamp" o))
    (shown (defined (Obj.get "metadata" o)) "themesCount")
    (shown (defined (Obj.get "metadata" o)) "operationsCount")
    (shown (defined (Obj.get "metadata" o)) "workspacesCount").

(** Whether the read [o] converts to a text or to a number. *)
Definition printable (o : option jsval) : bool :=
  match o with Some v => converts v | None => true end.

Definition is_null (v : jsval) : bool :=
  match v with JNull => true | _ => false end.

(** The preview dialog of an import of the object [o] can be put into
    words: the timestamp converts, the metadata section is there, and
    each of its three counts converts. *)
Definition previewable (o : obj) : bool :=
  printable (Obj.get "timestamp" o)
  && match Obj.get "metadata" o with
     | Some meta =>
         negb (is_null meta)
         && printable (shown meta "themesCount")
         && printable (shown meta "operationsCount")
         && printable (shown meta "workspacesCount")
     | None => false
     end.

(** [m] never takes a step outside the model. *)
Definition modelled {A : Type} (m : M A) : Prop :=
  forall w, (m w).1 <> Unmodelled.

(** [m] always returns a value. *)
Definition total {A : Type} (m : M A) : Prop :=
  forall w, exists a w', m w = (Ret a, w').

(** The key that the record [r] carries at the key path [kp]. *)
Definition record_key (kp : string) (r : obj) : option key :=
  match Obj.get kp r with
  | Some v => to_key v
  | None => None
  end.

(** The items of a data section that is absent or an array. *)
Definition section_of (d : obj) (name : string) : option (list jsval) :=
  match Obj.get name d with
  | None => Some []
  | Some (JArr items) => Some items
  | Some _ => None
  end.

(** The part [v] of the theme is there and each of the properties [names]
    that [applyTheme] or [setScale] reads from it converts. *)
Definition can_show (v : jsval) (names : list string) : bool :=
  negb (is_null v) && forallb (fun p => printable (shown v p)) names.

(** The theme in memory can be applied at some scale: [applyTheme] can
    write its colours and its typography, and [setScale] can compute with
    the bounds and the step of its scale. *)
Definition appliable (m : memory) : bool :=
  can_show (theme_colors m) ["background"; "text"; "ui"]
  && can_show (theme_typography m) ["fontFamily"; "baseFontSize"]
  && can_show (theme_scale m) ["min"; "max"; "step"].

(** The theme in memory can be applied at the current scale. *)
Definition displayable (m : memory) : bool :=
  appliable m && converts (currentScale m).

(** The clock has not gone back, and [backups] has only gained records
    keyed by readings of the clock taken in between. *)
Definition grows (E : env) : relation world :=
  fun w w' =>
    (ticks w <= ticks w')%nat
    /\ forall s, db w !! "backups" = Some s -> keyPath s = "timestamp" ->
         exists s',
           db w' !! "backups" = Some s'
           /\ keyPath s' = "timestamp"
           /\ forall k, Store.get k s' <> None ->
                Store.get k s <> None
                \/ exists n, (ticks w <= n < ticks w')%nat
                             /\ k = KNum (now E n).

(** Only the store [name] and the clock have changed. *)
Definition only (name : string) : relation world :=
  fun w w' =>
    (forall n, n <> name -> db w' !! n = db w !! n)
    /\ mem w' = mem w
    /\ (ticks w <= ticks w')%nat.

(** The four stores that [STORES] declares are there. *)
Definition has_stores (d : gmap string store) : Prop :=
  forall name kp auto, (name, (kp, auto)) ∈ STORES ->
    exists s, d !! name = Some s /\ keyPath s = kp /\ autoIncrement s = auto.

(** The database and the platform are in a state in which an import can
    run to its end: the stores exist, the user accepts the dialogs, the
    clock will give readings that differ from one another and from every
    key in [backups], the theme in memory can be applied, and
    [localStorage] holds no item ['ods_theme']. *)
Record ready (E : env) (w : world) : Prop := mkReady {
  ready_stores : has_stores (db w);
  ready_accepts : forall n p, confirm E n p = true;
  ready_fresh : forall s n,
    db w !! "backups" = Some s -> (ticks w <= n)%nat ->
    Store.get (KNum (now E n)) s = None;
  ready_distinct : forall n m, (ticks w <= n < m)%nat -> now E n <> now E m;
  ready_memory : displayable (mem w) = true;
  ready_no_item : ods_theme w = Absent
}.

(** The data object [d] holds records that can go in: its sections are
    absent or arrays; each theme in [ts] is an object with a valid [id] of
    its own; the operations and the workspaces are not null, and the key
    generators have numbers left for them. *)
Record importable (stores : gmap string store) (d : obj) (ts : list obj)
    (operations workspaces : list jsval) : Prop := mkImportable {
  imp_themes : section_of d "themes" = Some (JObj <$> ts);
  imp_theme_keys : Forall (fun t => is_Some (record_key "id" t)) ts;
  imp_theme_distinct : NoDup (record_key "id" <$> ts);
  imp_operations : section_of d "operations" = Some operations;
  imp_operations_items : Forall (fun item => item <> JNull) operations;
  imp_operations_room : forall s,
    stores !! "operations" = Some s ->
    keygen s + Z.of_nat (length operations) <= MAX_GENERATED + 1;
  imp_workspaces : section_of d "workspaces" = Some workspaces;
  imp_workspaces_items : Forall (fun item => item <> JNull) workspaces;
  imp_workspaces_room : forall s,
    stores !! "workspaces" = Some s ->
    keygen s + Z.of_nat (length workspaces) <= MAX_GENERATED + 1
}.

(* ===================================================================== *)
(** ** Export followed by import *)
(* ===================================================================== *)

(** Every record of the store has a truthy [timestamp]. *)
Definition timestamps_set (s : store) : Prop :=
  Forall (fun r => truthy_opt (Obj.get "timestamp" r) = true)
         (Store.getAll s).

(** The records of a store with in-line keys, as IndexedDB keeps them: in
    strictly increasing key order, each holding its key at the key path. *)
Definition well_kept (s : store) : Prop :=
  StronglySorted (fun a b => key_lt a.1 b.1) (records s)
  /\ Forall (fun kr => Obj.get (keyPath s) kr.2 = Some (key_to_js kr.1))
            (records s).

(** The state of the three collections at export time for which a later
    import gives them back: [themes] is well kept and holds the default
    theme, and every record has a truthy [timestamp]. *)
Record restorable (st so sw : store) : Prop := mkRestorable {
  rest_themes_key : keyPath st = "id";
  rest_themes_kept : well_kept st;
  rest_default : is_Some (Store.get (KStr "default") st);
  rest_themes_stamped : timestamps_set st;
  rest_operations_stamped : timestamps_set so;
  rest_workspaces_stamped : timestamps_set sw
}.

(** The records that a key generator at [g] makes of [rs]: the old [id]
    goes, the generated key comes last. *)
Fixpoint renumber (g : Z) (rs : list obj) : list (key * obj) :=
  match rs with
  | [] => []
  | r :: rs' =>
      (KNum g, Obj.set "id" (JNum g) (Obj.omit "id" r)) :: renumber (g + 1) rs'
  end.

(** Record by record, every field but [id] reads the same. *)
Definition same_but_id (olds news : list obj) : Prop :=
  Forall2 (fun old new => forall p, p <> "id" -> Obj.get p new = Obj.get p old)
          olds news.

(** [themes], if it was the store [T], still is. *)
Definition holds_themes (T : store) : relation world :=
  fun w w' => db w !! "themes" = Some T -> db w' !! "themes" = Some T.

Module RoundTrip.

(** The document that an export of [Sample.in_use] offers for download,
    and the world the export leaves. *)
Definition document : jsval :=
  backup_document Sample.platform
    (Store.getAll Sample.themes_store)
    (Store.getAll Sample.operations_store)
    [] 1700000000000.

Definition exported : file :=
  mkFile "ods-backup-2023-11-14T22-13-20.json" (Parsed document).

Definition after_export : world :=
  (exportData Sample.platform Sample.in_use).2.

(** The same for the database of a first run, which holds no theme. *)
Definition first_document : jsval :=
  backup_document Sample.platform [] [] [] 1700000000000.

Definition first_exported : file :=
  mkFile "ods-backup-2023-11-14T22-13-20.json" (Parsed first_document).

Definition after_first_export : world :=
  (exportData Sample.platform Sample.fresh).2.

End RoundTrip.

(* ===================================================================== *)
(** ** js/backup.js: the backup history *)
(* ===================================================================== *)

(** [l.sort(compare)] for a consistent comparator: the stable sort.  [x]
    goes before the first item that it does not have to follow. *)
Fixpoint sort_insert (compare : obj -> obj -> Z) (x : obj) (l : list obj)
  : list obj :=
  match l with
  | [] => [x]
  | y :: l' =>
      if compare x y <=? 0 then x :: y :: l'
      else y :: sort_insert compare x l'
  end.

Definition Array_sort (compare : obj -> obj -> Z) (l : list obj) : list obj :=
  foldr (sort_insert compare) [] l.

(** [r.timestamp] when it is a number. *)
Definition timestamp_number (r : obj) : option Z :=
  match Obj.get "timestamp" r with
  | Some (JNum n) => Some n
  | _ => None
  end.

(** [(a, b) => b.timestamp - a.timestamp] on records whose timestamps are
    numbers. *)
Definition newest_first (a b : obj) : Z :=
  default 0 (timestamp_number b) - default 0 (timestamp_number a).

(** [getBackupHistory()].  Subtracting timestamps that are not numbers
    converts them first, which is not modelled; a lone record is compared
    with nothing. *)
Definition getBackupHistory : M (list obj) :=
  try_catch
    (backups <- getAllItems "backups" ;;
     if (length backups <=? 1)%nat
        || forallb (fun r => bool_decide (is_Some (timestamp_number r)))
             backups
     then ret (Array_sort newest_first backups)
     else unmodelled)%js
    (fun _ => ret []).

(** [clearBackupHistory()] *)
Definition clearBackupHistory : M bool :=
  try_catch (clearStore "backups" ;; ret true)%js (fun _ => ret false).

(* ===================================================================== *)
(** ** The theme module: start-up and removal *)
(* ===================================================================== *)

(** [initTheme()] *)
Definition initTheme (E : env) : M unit :=
  try_catch
    (loadTheme E ;;
     applyTheme ;;
     m <- read_memory ;;
     setScale E (currentScale m) ;;
     ret tt)%js
    (fun _ =>
       applyTheme ;;
       setScale E (JNum 1) ;;
       ret tt)%js.

(** [deleteTheme()] *)
Definition deleteTheme : M bool :=
  try_catch
    (deleteItem "themes" (JStr "default") ;;
     (fun w => (Ret tt, set_ods_theme Absent w)) ;;
     (fun w => (Ret tt, set_ods_theme_backup Absent w)) ;;
     ret true)%js
    (fun _ => ret false).

(* ===================================================================== *)
(** ** The earlier theme module, which keeps the theme in [localStorage] *)
(* ===================================================================== *)

Module Legacy.

(** [saveTheme()] *)
Definition saveTheme (E : env) : M bool :=
  try_catch
    (m <- read_memory ;;
     t <- Date_now E ;;
     let themeData :=
       [ ("id", JStr "default");
         ("colors", theme_colors m);
         ("typography", theme_typography m);
         ("scale", scale_to_save m);
         ("timestamp", JNum t) ] in
     (fun w => (Ret tt, set_ods_theme (Text (Some (JObj themeData))) w)) ;;
     ret true)%js
    (fun _ => ret false).

(** [loadTheme()] *)
Definition loadTheme : M unit :=
  try_catch
    (saved <- (fun w => (Ret (ods_theme w), w)) ;;
     match saved with
     | Text parsed =>
         themeData <- parse_slot parsed ;;
         adopt themeData
     | Absent => ret tt
     end)%js
    (fun _ => ret tt).

End Legacy.

(* ===================================================================== *)
(** ** Notions for the statements about the scripts *)
(* ===================================================================== *)

(** The key generator of the store is ahead of every number it holds as a
    key, or has no numbers left. *)
Definition ahead (s : store) : Prop :=
  forall n, is_Some (Store.get (KNum n) s) ->
    n < keygen s \/ MAX_GENERATED < keygen s.

(** The record that [updateItem] puts back under [k]: the patch merged
    over the existing record, stamped with [modified] at the time [t], the
    key forced back. *)
Definition updated_record (s : store) (k : key) (existing patch : obj)
    (t : Z) : obj :=
  let merged := Obj.set "modified" (JNum t) (Obj.assign existing patch) in
  if negb (String.eqb (keyPath s) "")
     && differs_from_key (Obj.get (keyPath s) merged) k
  then Obj.set (keyPath s) (key_to_js k) merged
  else merged.

(** The record [r] holds the theme that is in the memory [m], as
    [saveTheme] writes it. *)
Definition shows_theme (m : memory) (r : obj) : Prop :=
  Obj.get "id" r = Some (JStr "default")
  /\ Obj.get "colors" r = Some (theme_colors m)
  /\ Obj.get "typography" r = Some (theme_typography m)
  /\ Obj.get "scale" r = Some (scale_to_save m).

(** The memory after the three assignments that [loadTheme] makes from
    a saved theme [t] other than null. *)
Definition adopted (t : jsval) (m : memory) : memory :=
  let colors := shown t "colors" in
  let typography := shown t "typography" in
  let scale := shown t "scale" in
  let m1 :=
    if truthy_opt colors
    then mkMemory (defined colors) (theme_typography m) (theme_scale m)
                  (currentScale m)
    else m in
  let m2 :=
    if truthy_opt typography
    then mkMemory (theme_colors m1) (defined typography) (theme_scale m1)
                  (currentScale m1)
    else m1 in
  if truthy_opt scale then
    let current := shown (defined scale) "current" in
    mkMemory (theme_colors m2) (theme_typography m2) (defined scale)
             (if truthy_opt current then defined current else JNum 1)
  else m2.

(** The memory after [loadTheme] has read back what [saveTheme] wrote
    from [m]: the scale object carries the current scale, and a falsy
    current scale has become 1. *)
Definition reloaded (m : memory) : memory :=
  mkMemory (theme_colors m) (theme_typography m) (scale_to_save m)
    (if truthy (currentScale m) then currentScale m else JNum 1).

(** The database is in order: every store has its records in key order
    with their keys in-line, and a key generator, if it has one, ahead of
    its keys. *)
Definition in_order (d : gmap string store) : Prop :=
  forall name s, d !! name = Some s ->
    well_kept s /\ (autoIncrement s = true -> ahead s).

(** A database in order is still in order afterwards. *)
Definition keeps_order : relation world :=
  fun w w' => in_order (db w) -> in_order (db w').

(** What [createObjectStore] has fixed for a store. *)
Definition configuration (s : store) : string * bool :=
  (keyPath s, autoIncrement s).

(** The same stores are there, configured as before. *)
Definition same_stores : relation world :=
  fun w w' =>
    forall name,
      configuration <$> (db w' !! name) = configuration <$> (db w !! name).

(** The listing [l] has the newest record first. *)
Definition newest_to_oldest (l : list obj) : Prop :=
  StronglySorted
    (fun a b => default 0 (timestamp_number b)
                <= default 0 (timestamp_number a)) l.

(** The character [c] occurs in [s]. *)
Fixpoint has_char (c : Ascii.ascii) (s : string) : bool :=
  match s with
  | EmptyString => false
  | String c' s' => Ascii.eqb c' c || has_char c s'
  end.

(** The record that [exportData] stores in [backups]. *)
Definition export_record (E : env) (themes operations workspaces : list obj)
    (timestamp : Z) : obj :=
  [ ("timestamp", JNum timestamp);
    ("version", JStr BACKUP_VERSION);
    ("filename", JStr (backup_filename (toISOString E timestamp)));
    ("size",
      JNum (stringify_length E
              (backup_document E themes operations workspaces timestamp)));
    ("counts",
      JObj [ ("themes", count themes);
             ("operations", count operations);
             ("workspaces", count workspaces) ]) ].

(** The world once [exportData] has read the clock and offered the
    document for download. *)
Definition after_download (E : env) (w : world) : world :=
  mkWorld (db w) (S (ticks w)) (prompts w)
    (downloads w
     ++ [ (backup_filename (toISOString E (now E (ticks w))),
           backup_document E (collection "themes" w)
             (collection "operations" w) (collection "workspaces" w)
             (now E (ticks w))) ])
    (mem w) (ods_theme w) (ods_theme_backup w).

(** What [import_confirmed] does once the pre-import backup has been
    attempted. *)
Definition import_after_snapshot (E : env) (f : file)
    (version timestamp data : option jsval) : M import_result :=
  (clearStore "themes" ;;
   clearStore "operations" ;;
   clearStore "workspaces" ;;
   themes <- section_items (defined data) "themes" ;;
   nt <- import_each (fun theme => addItem E "themes" theme ;; ret tt)
           themes 0 ;;
   operations <- section_items (defined data) "operations" ;;
   no <- import_each (add_without_id E "operations") operations 0 ;;
   workspaces <- section_items (defined data) "workspaces" ;;
   nw <- import_each (add_without_id E "workspaces") workspaces 0 ;;
   t <- Date_now E ;;
   addItem E "backups"
     (JObj [ ("timestamp", JNum t);
             ("version", defined version);
             ("type", JStr "import");
             ("filename", JStr (file_name f));
             ("imported",
               JObj [ ("themes", JNum nt);
                      ("operations", JNum no);
                      ("workspaces", JNum nw) ]);
             ("originalTimestamp", defined timestamp) ]) ;;
   loadTheme E ;;
   applyTheme ;;
   m <- read_memory ;;
   setScale E (currentScale m) ;;
   ret (ImportOk (mkCounts nt no nw)
          ("Successfully imported " +:+ pretty nt +:+ " themes, "
           +:+ pretty no +:+ " operations, "
           +:+ pretty nw +:+ " workspaces")))%js.

(* ===================================================================== *)
(** ** More sample platforms and states *)
(* ===================================================================== *)

Module Cases.

(** The sample platform with a user who accepts the version warning and
    declines the import preview. *)
Definition cautious : env :=
  mkEnv (now Sample.platform)
        (fun _ p =>
           match p with
           | VersionMismatch _ => true
           | ImportPreview _ _ _ _ => false
           end)
        (toISOString Sample.platform)
        (stringify_length Sample.platform) (userAgent Sample.platform)
        (round_to_step Sample.platform).

(** A document that lists the default theme twice, and one operation. *)
Definition twice_document : obj :=
  Obj.set "data"
    (JObj [ ("themes",
              JArr [JObj Sample.default_theme; JObj Sample.default_theme]);
            ("operations", JArr [JObj [ ("type", JStr "task") ]]) ])
    Sample.empty_document.

(** The database in use after two exports. *)
Definition older_backup : obj :=
  [ ("timestamp", JNum 1600000000000); ("version", JStr "9.1");
    ("filename", JStr "ods-backup-2020-09-13T12-26-40.json");
    ("size", JNum 400) ].

Definition newer_backup : obj :=
  [ ("timestamp", JNum 1650000000000); ("version", JStr "9.1");
    ("filename", JStr "ods-backup-2022-04-15T05-20-00.json");
    ("size", JNum 512) ].

Definition backups_store : store :=
  mkStore "timestamp" false
    [ (KNum 1600000000000, older_backup);
      (KNum 1650000000000, newer_backup) ] 1.

Definition two_backups : world :=
  set_db (<["backups" := backups_store]> (db Sample.in_use)) Sample.in_use.

(** A first run of the database-backed version over a theme that an
    earlier version left in [localStorage]. *)
Definition amber : jsval :=
  JObj [ ("background", JStr "#000000"); ("text", JStr "#FFB000");
         ("ui", JStr "#FFB000") ].

Definition legacy : world :=
  mkWorld initDB 0 [] [] Sample.theme_defaults
    (Text (Some (JObj [ ("colors", amber) ]))) Absent.

End Cases.

(* ===================================================================== *)
(** ** Properties of objects, keys and records *)
(* ===================================================================== *)

Module ObjFacts.

Lemma get_set_same p v o : Obj.get p (Obj.set p v o) = Some v.
Proof.
  induction o as [|[q w] o IH]; simpl.
  - by rewrite String.eqb_refl.
  - destruct (String.eqb q p) eqn:Hq; simpl; rewrite Hq; auto.
Qed.

Lemma get_set_other p q v o :
  p <> q -> Obj.get q (Obj.set p v o) = Obj.get q o.
Proof.
  intros Hne. induction o as [|[r w] o IH]; simpl.
  - destruct (String.eqb p q) eqn:Hpq; [|done].
    apply String.eqb_eq in Hpq. contradiction.
  - destruct (String.eqb r p) eqn:Hr; simpl.
    + apply String.eqb_eq in Hr. subst r.
      destruct (String.eqb p q) eqn:Hpq; [|done].
      apply String.eqb_eq in Hpq. contradiction.
    + by rewrite IH.
Qed.

Lemma get_set p q v o :
  Obj.get q (Obj.set p v o) = if String.eqb p q then Some v else Obj.get q o.
Proof.
  destruct (String.eqb p q) eqn:Hpq.
  - apply String.eqb_eq in Hpq. subst. apply get_set_same.
  - apply String.eqb_neq in Hpq. by apply get_set_other.
Qed.

Lemma get_omit_same p o : Obj.get p (Obj.omit p o) = None.
Proof.
  induction o as [|[q w] o IH]; simpl; [done|].
  destruct (String.eqb q p) eqn:Hq; simpl; [done|]. by rewrite Hq.
Qed.

Lemma get_omit_other p q o :
  p <> q -> Obj.get q (Obj.omit p o) = Obj.get q o.
Proof.
  intros Hne. induction o as [|[r w] o IH]; simpl; [done|].
  destruct (String.eqb r p) eqn:Hr; simpl.
  - apply String.eqb_eq in Hr. subst r.
    apply String.eqb_neq in Hne. by rewrite Hne.
  - by rewrite IH.
Qed.

Lemma get_not_elem (p : string) (o : obj) :
  p ∉ o.*1 -> Obj.get p o = None.
Proof.
  induction o as [|[q w] o IH]; simpl; [done|].
  intros Hnot. apply not_elem_of_cons in Hnot as [Hne Hnot].
  destruct (String.eqb q p) eqn:Hq.
  - apply String.eqb_eq in Hq. congruence.
  - auto.
Qed.

(** A patch without repeated names wins over the base, name by name. *)
Lemma get_assign p (patch : obj) : forall base,
  NoDup patch.*1 ->
  Obj.get p (Obj.assign base patch) =
    match Obj.get p patch with
    | Some v => Some v
    | None => Obj.get p base
    end.
Proof.
  induction patch as [|[q w] patch IH]; intros base Hnd; simpl; [done|].
  apply NoDup_cons in Hnd as [Hq Hnd].
  rewrite IH by done.
  destruct (String.eqb q p) eqn:Hqp.
  - apply String.eqb_eq in Hqp. subst q.
    rewrite get_not_elem by done. apply get_set_same.
  - apply String.eqb_neq in Hqp.
    by rewrite get_set_other.
Qed.

End ObjFacts.

Module KeyFacts.

(** Induction on a key with the hypothesis for every item of an array. *)
Lemma key_nested_ind (P : key -> Prop) :
  (forall n, P (KNum n)) -> (forall s, P (KStr s)) ->
  (forall ks, Forall P ks -> P (KArr ks)) -> forall k, P k.
Proof.
  intros Hn Hs Ha.
  fix go 1. intros [n|s|ks]; [apply Hn|apply Hs|].
  apply Ha. induction ks as [|k ks IH]; constructor; [apply go|exact IH].
Qed.

Lemma compare_refl k : key_compare k k = Eq.
Proof.
  induction k as [n|s|ks IH] using key_nested_ind; simpl.
  - apply Z.compare_refl.
  - destruct (String.compare s s) eqn:Hc; [done| |];
      pose proof (String.compare_antisym s s) as Ha;
      rewrite Hc in Ha; discriminate.
  - induction IH as [|k ks Hk _ IH]; [done|]. by rewrite Hk.
Qed.

Lemma compare_eq a : forall b, key_compare a b = Eq -> a = b.
Proof.
  induction a as [m|s|xs IH] using key_nested_ind; intros [n|t|ys]; simpl;
    try discriminate.
  - intros H. apply Z.compare_eq in H. by subst.
  - intros H. apply String.compare_eq_iff in H. by subst.
  - intros H. f_equal. revert ys H.
    induction IH as [|x xs Hx _ IH]; intros [|y ys] H; try discriminate;
      [done|].
    destruct (key_compare x y) eqn:Hc; try discriminate.
    f_equal; [by apply Hx|by apply IH].
Qed.

Lemma compare_eq_iff a b : key_compare a b = Eq <-> a = b.
Proof.
  split; [apply compare_eq|]. intros ->. apply compare_refl.
Qed.

Lemma compare_antisym a :
  forall b, key_compare a b = CompOpp (key_compare b a).
Proof.
  induction a as [m|s|xs IH] using key_nested_ind; intros [n|t|ys]; simpl;
    try done.
  - apply Z.compare_antisym.
  - apply String.compare_antisym.
  - revert ys.
    induction IH as [|x xs Hx _ IH]; intros [|y ys]; try done.
    rewrite (Hx y). destruct (key_compare y x); simpl; auto.
Qed.

Lemma lt_trans (a b c : key) : key_lt a b -> key_lt b c -> key_lt a c.
Proof.
  unfold key_lt. revert b c.
  induction a as [m|s|xs IH] using key_nested_ind;
    intros [n|t|ys] [p|u|zs]; simpl; try done.
  - rewrite !Z.compare_lt_iff. lia.
  - intros H1 H2.
    apply OrderedTypeEx.String_as_OT.cmp_lt.
    apply OrderedTypeEx.String_as_OT.cmp_lt in H1, H2.
    exact (OrderedTypeEx.String_as_OT.lt_trans _ _ _ H1 H2).
  - revert ys zs.
    induction IH as [|x xs Hx _ IH]; intros [|y ys] [|z zs]; try done.
    destruct (key_compare x y) eqn:Hxy; try done.
    + apply compare_eq in Hxy. subst y.
      destruct (key_compare x z); try done. apply IH.
    + intros _. destruct (key_compare y z) eqn:Hyz; try done.
      * apply compare_eq in Hyz. subst z. by rewrite Hxy.
      * by rewrite (Hx _ _ Hxy Hyz).
Qed.

Lemma compare_neq a b : a <> b -> key_compare a b <> Eq.
Proof. intros Hne Heq. by apply compare_eq in Heq. Qed.

Lemma to_key_to_js k : to_key (key_to_js k) = Some k.
Proof.
  induction k as [n|s|ks IH] using key_nested_ind; simpl; try done.
  assert (H : (fix each (l : list jsval) : option (list key) :=
           match l with
           | [] => Some []
           | x :: l' =>
               match to_key x, each l' with
               | Some k, Some ks => Some (k :: ks)
               | _, _ => None
               end
           end) (map key_to_js ks) = Some ks).
  { induction IH as [|k ks Hk _ IH]; simpl; [done|]. by rewrite Hk, IH. }
  by rewrite H.
Qed.

Lemma to_key_inv k : forall v, to_key v = Some k -> v = key_to_js k.
Proof.
  induction k as [n|s|ks IH] using key_nested_ind; intros v; destruct v;
    simpl; intros H; try (by inversion H).
  - destruct (_ items) in H; inversion H.
  - destruct (_ items) in H; inversion H.
  - f_equal.
    match type of H with KArr <$> ?e = _ => destruct e as [ks'|] eqn:He end;
      [|discriminate].
    simpl in H. inversion H; subst ks'. clear H.
    revert items He.
    induction IH as [|k ks Hk _ IH]; intros [|x items] He; simpl in *.
    + done.
    + destruct (to_key x); [|discriminate].
      match type of He with match ?e with _ => _ end = _ => destruct e end;
        discriminate.
    + discriminate.
    + destruct (to_key x) as [k0|] eqn:Hx; [|discriminate].
      match type of He with match ?e with _ => _ end = _ =>
        destruct e as [ks0|] eqn:Hrest end; [|discriminate].
      inversion He; subst. f_equal; [by apply Hk|by apply IH].
Qed.

Lemma differs_from_key_false v k :
  differs_from_key v k = false -> v = Some (key_to_js k).
Proof.
  destruct v as [[]|], k; simpl; intros H; try discriminate.
  - apply negb_false_iff, Z.eqb_eq in H. by subst.
  - apply negb_false_iff, String.eqb_eq in H. by subst.
Qed.

End KeyFacts.

Module RecordsFacts.

Lemma get_put_same k v rs :
  Records.get k (Records.put k v rs) = Some v.
Proof.
  induction rs as [|[k' v'] rs IH]; simpl.
  - by rewrite KeyFacts.compare_refl.
  - destruct (key_compare k k') eqn:Hc; simpl.
    + by rewrite KeyFacts.compare_refl.
    + by rewrite KeyFacts.compare_refl.
    + by rewrite Hc.
Qed.

Lemma get_put_other k k' v rs :
  k <> k' -> Records.get k' (Records.put k v rs) = Records.get k' rs.
Proof.
  intros Hne.
  assert (Hk : key_compare k' k <> Eq) by (apply KeyFacts.compare_neq; congruence).
  induction rs as [|[k1 v1] rs IH]; simpl.
  - by destruct (key_compare k' k).
  - destruct (key_compare k k1) eqn:Hc; simpl.
    + apply KeyFacts.compare_eq in Hc. subst k1.
      by destruct (key_compare k' k).
    + by destruct (key_compare k' k).
    + by rewrite IH.
Qed.

Lemma get_remove_same k rs : Records.get k (Records.remove k rs) = None.
Proof.
  induction rs as [|[k' v'] rs IH]; simpl; [done|].
  destruct (key_compare k k') eqn:Hc; simpl; [done| |]; by rewrite Hc.
Qed.

End RecordsFacts.

(* ===================================================================== *)
(** ** The persistence engine: update and add *)
(* ===================================================================== *)

Lemma configured_keyPath name s :
  configured name s -> keyPath s = "id" \/ keyPath s = "timestamp".
Proof.
  unfold configured, STORES. intros H.
  repeat (apply elem_of_cons in H as [H|H]; [inversion H; auto|]).
  by apply elem_of_nil in H.
Qed.

(** The primary-key field of the updated record is the key asked for,
    whatever the merge produced. *)
Lemma forced_key kp k merged :
  kp <> "" ->
  Obj.get kp
    (if negb (String.eqb kp "") && differs_from_key (Obj.get kp merged) k
     then Obj.set kp (key_to_js k) merged else merged)
  = Some (key_to_js k).
Proof.
  intros Hkp. apply String.eqb_neq in Hkp. rewrite Hkp. simpl.
  destruct (differs_from_key (Obj.get kp merged) k) eqn:Hd.
  - apply ObjFacts.get_set_same.
  - by apply KeyFacts.differs_from_key_false in Hd.
Qed.

Lemma forced_key_other kp k merged p :
  p <> kp ->
  Obj.get p
    (if negb (String.eqb kp "") && differs_from_key (Obj.get kp merged) k
     then Obj.set kp (key_to_js k) merged else merged)
  = Obj.get p merged.
Proof.
  intros Hp.
  destruct (negb (String.eqb kp "") && differs_from_key (Obj.get kp merged) k);
    [|done].
  apply ObjFacts.get_set_other. congruence.
Qed.

(** C6: [updateItem] on a key that has no record fails with the not-found
    error; it reads no clock and writes nothing, so the collection (and the
    whole world) is as before. *)
Theorem update_missing_key_fails
    (E : env) (w : world) (name : string) (s : store) (k : key)
    (patch : obj) :
  db w !! name = Some s ->
  Store.get k s = None ->
  updateItem E name (key_to_js k) patch w = (Throw (not_found k name), w).
Proof.
  intros Hdb Hget.
  unfold updateItem, bind, transaction.
  by rewrite Hdb, KeyFacts.to_key_to_js, Hget.
Qed.

(** C5: [updateItem] on an existing key resolves with the shallow merge of
    the patch over the stored record, stamped with [modified], and stores it
    under the original key: the key field holds the original key whatever
    the patch says, every other field comes from the patch when the patch
    has it and from the old record otherwise, and no other record moves. *)
Theorem update_merges_and_keeps_key
    (E : env) (w : world) (name : string) (s : store) (k : key)
    (existing patch : obj) :
  db w !! name = Some s ->
  configured name s ->
  Store.get k s = Some existing ->
  NoDup patch.*1 ->
  exists (updated : obj) (s' : store) (w' : world),
    updateItem E name (key_to_js k) patch w = (Ret updated, w')
    /\ db w' = <[name := s']> (db w)
    /\ Store.get k s' = Some updated
    /\ (forall k', k' <> k -> Store.get k' s' = Store.get k' s)
    /\ Obj.get (keyPath s) updated = Some (key_to_js k)
    /\ Obj.get "modified" updated = Some (JNum (now E (ticks w)))
    /\ (forall p, p <> keyPath s -> p <> "modified" ->
          Obj.get p updated =
            match Obj.get p patch with
            | Some v => Some v
            | None => Obj.get p existing
            end).
Proof.
  intros Hdb Hcfg Hget Hnd.
  assert (Hkp : keyPath s <> "" /\ keyPath s <> "modified").
  { destruct (configured_keyPath _ _ Hcfg) as [-> | ->]; by split. }
  destruct Hkp as [Hkp Hmod].
  set (merged := Obj.set "modified" (JNum (now E (ticks w)))
                   (Obj.assign existing patch)).
  set (updated :=
         if negb (String.eqb (keyPath s) "")
            && differs_from_key (Obj.get (keyPath s) merged) k
         then Obj.set (keyPath s) (key_to_js k) merged else merged).
  assert (Hkey : Obj.get (keyPath s) updated = Some (key_to_js k))
    by (apply forced_key; done).
  assert (Hput : exists g,
    Store.put updated s =
      inr (k, mkStore (keyPath s) (autoIncrement s)
                (Records.put k updated (records s)) g)).
  { unfold Store.put, Store.extract.
    rewrite Hkey, KeyFacts.to_key_to_js. eauto. }
  destruct Hput as [g Hput].
  eexists updated, _, _. split.
  { unfold updateItem, bind, transaction.
    rewrite Hdb, KeyFacts.to_key_to_js, Hget. simpl.
    fold merged. fold updated. rewrite Hput. reflexivity. }
  simpl. repeat split.
  - apply RecordsFacts.get_put_same.
  - intros k' Hne. unfold Store.get. simpl.
    by apply RecordsFacts.get_put_other.
  - exact Hkey.
  - unfold updated. rewrite forced_key_other by done.
    apply ObjFacts.get_set_same.
  - intros p Hp Hp'. unfold updated. rewrite forced_key_other by done.
    unfold merged. rewrite ObjFacts.get_set_other by congruence.
    by apply ObjFacts.get_assign.
Qed.

(** [addItem] on an object, step by step: the record is stamped, then
    added, and the call resolves with the key the store chose. *)
Lemma addItem_object (E : env) (w : world) (name : string) (s : store)
    (record : obj) :
  db w !! name = Some s ->
  addItem E name (JObj record) w =
    match Store.add (stamped E w record) s with
    | inl e =>
        (Throw e,
         if truthy_opt (Obj.get "timestamp" record) then w
         else (Date_now E w).2)
    | inr (k, s') =>
        (Ret (k, JObj (stamped E w record)),
         set_db (<[name := s']> (db w))
           (if truthy_opt (Obj.get "timestamp" record) then w
            else (Date_now E w).2))
    end.
Proof.
  intros Hdb. unfold addItem, bind, transaction, stamped. rewrite Hdb. simpl.
  destruct (truthy_opt (Obj.get "timestamp" record)); simpl.
  - destruct (Store.add record s) as [e|[k s']]; reflexivity.
  - destruct (Store.add _ s) as [e|[k s']]; reflexivity.
Qed.

Lemma store_add_inv (v : obj) (s : store) (k : key) (s' : store) :
  Store.add v s = inr (k, s') ->
  Records.get k (records s) = None
  /\ records s' = Records.put k (as_stored s k v) (records s)
  /\ keyPath s' = keyPath s
  /\ autoIncrement s' = autoIncrement s.
Proof.
  unfold Store.add, Store.extract, as_stored.
  destruct (Obj.get (keyPath s) v) as [kv|] eqn:Hkv.
  - destruct (to_key kv) as [k0|]; [|discriminate].
    destruct (Records.get k0 (records s)) eqn:Hg; [discriminate|].
    intros H. inversion H. subst. simpl. auto.
  - destruct (autoIncrement s); [|discriminate].
    destruct (MAX_GENERATED <? keygen s); [discriminate|].
    destruct (Records.get (KNum (keygen s)) (records s)) eqn:Hg;
      [discriminate|].
    intros H. inversion H. subst. simpl. auto.
Qed.

(** C7 (as amended): [addItem] resolves when the store accepts the
    stamped record, with the key under which the store takes it, and
    [getItem] with that key then returns the record as stored: the input,
    with [timestamp] set to the time of the call when the input's
    [timestamp] was absent or falsy, and with the generated key at the key
    path when the input had none.  When the store rejects the record,
    [addItem] fails with the store's error and the database is as
    before. *)
Theorem add_then_get
    (E : env) (w : world) (name : string) (s : store) (record : obj) :
  db w !! name = Some s ->
  match Store.add (stamped E w record) s with
  | inr (k, _) =>
      exists w' : world,
        addItem E name (JObj record) w
        = (Ret (k, JObj (stamped E w record)), w')
        /\ getItem name (key_to_js k) w'
           = (Ret (Some (as_stored s k (stamped E w record))), w')
  | inl e =>
      exists w' : world,
        addItem E name (JObj record) w = (Throw e, w') /\ db w' = db w
  end.
Proof.
  intros Hdb.
  rewrite (addItem_object E w name s record Hdb).
  destruct (Store.add (stamped E w record) s) as [e|[k s']] eqn:Hs.
  - eexists. split; [reflexivity|].
    by destruct (truthy_opt (Obj.get "timestamp" record)).
  - apply store_add_inv in Hs as (_ & Hrec & _ & _).
    eexists. split; [reflexivity|].
    unfold getItem, bind, transaction. simpl.
    rewrite lookup_insert_eq, KeyFacts.to_key_to_js.
    unfold ret, Store.get. rewrite Hrec.
    by rewrite RecordsFacts.get_put_same.
Qed.

(** C7 as worded fails where the input carries a falsy timestamp:
    [{ id: 'a', timestamp: 0 }] comes back with the time of the call. *)
Lemma add_then_get_not_only_when_missing :
  ~ (forall (E : env) (w w' : world) (name : string) (record : obj)
       (k : key) (data' : jsval),
       addItem E name (JObj record) w = (Ret (k, data'), w') ->
       getItem name (key_to_js k) w' =
         (Ret (Some (match Obj.get "timestamp" record with
                     | Some _ => record
                     | None =>
                         Obj.set "timestamp" (JNum (now E (ticks w))) record
                     end)), w')).
Proof.
  intros H.
  specialize (H Sample.platform Sample.fresh _ "themes"
                [("id", JStr "a"); ("timestamp", JNum 0)] _ _ eq_refl).
  vm_compute in H. discriminate H.
Qed.

Lemma add_then_get_witness :
  exists w' : world,
    addItem Sample.platform "operations" (JObj [("type", JStr "task")])
      Sample.fresh
    = (Ret (KNum 1,
            JObj [("type", JStr "task"); ("timestamp", JNum 1700000000000)]),
       w')
    /\ getItem "operations" (JNum 1) w'
       = (Ret (Some [ ("type", JStr "task");
                      ("timestamp", JNum 1700000000000);
                      ("id", JNum 1) ]), w').
Proof.
  exact (add_then_get Sample.platform Sample.fresh "operations"
           (mkStore "id" true [] 1) [("type", JStr "task")] eq_refl).
Defined.

Lemma update_missing_key_fails_witness :
  updateItem Sample.platform "themes" (key_to_js (KStr "dark"))
    [("colors", JNull)] Sample.in_use
  = (Throw (not_found (KStr "dark") "themes"), Sample.in_use).
Proof.
  apply (update_missing_key_fails Sample.platform Sample.in_use "themes"
           Sample.themes_store (KStr "dark") [("colors", JNull)]).
  - vm_compute. reflexivity.
  - vm_compute. reflexivity.
Defined.

Lemma update_merges_and_keeps_key_witness :
  exists (updated : obj) (w' : world),
    updateItem Sample.platform "themes" (JStr "default")
      [("id", JStr "dark"); ("colors", JNull)] Sample.in_use
    = (Ret updated, w')
    /\ Obj.get "id" updated = Some (JStr "default")
    /\ Obj.get "colors" updated = Some JNull
    /\ Obj.get "timestamp" updated = Some (JNum 1600000000000).
Proof.
  destruct (update_merges_and_keeps_key Sample.platform Sample.in_use
              "themes" Sample.themes_store (KStr "default")
              Sample.default_theme
              [("id", JStr "dark"); ("colors", JNull)])
    as (updated & s' & w' & Hrun & _ & _ & _ & Hid & _ & Hrest).
  - vm_compute. reflexivity.
  - apply list_elem_of_here.
  - vm_compute. reflexivity.
  - apply (bool_decide_unpack _). vm_compute. exact I.
  - exists updated, w'. split; [exact Hrun|]. split; [exact Hid|]. split.
    + apply (Hrest "colors"); discriminate.
    + apply (Hrest "timestamp"); discriminate.
Defined.

(* ===================================================================== *)
(** ** Structural validation of a backup document *)
(* ===================================================================== *)

Lemma is_null_spec (v : jsval) :
  if is_null v then v = JNull else v <> JNull.
Proof. by destruct v. Qed.

Lemma prop_not_null (v : jsval) (p : string) :
  v <> JNull -> prop v p = inr (shown v p).
Proof. unfold shown. by destruct v. Qed.

Lemma is_string_true v s : is_string v s = true <-> v = Some (JStr s).
Proof.
  destruct v as [[]|]; simpl; split; intros H;
    try discriminate; try (inversion H; fail).
  - apply String.eqb_eq in H. by subst.
  - inversion H. apply String.eqb_refl.
Qed.

Lemma magic_mismatch (magic : option jsval) :
  magic <> Some (JStr BACKUP_MAGIC) ->
  negb (truthy_opt magic) || negb (is_string magic BACKUP_MAGIC) = true.
Proof.
  intros Hne. apply orb_true_iff. right. apply negb_true_iff.
  destruct (is_string magic BACKUP_MAGIC) eqn:Hs; [|done].
  by apply is_string_true in Hs.
Qed.

Lemma magic_match :
  negb (truthy_opt (Some (JStr BACKUP_MAGIC)))
  || negb (is_string (Some (JStr BACKUP_MAGIC)) BACKUP_MAGIC) = false.
Proof. reflexivity. Qed.

(** What [validateBackup] answers on an object that carries the magic
    marker: the first of [version], [timestamp], [data] that is falsy is
    reported missing, whether the attribute is absent or present with a
    falsy value; a truthy [data] is accepted when its type is object. *)
Lemma validateBackup_with_magic (o : obj) :
  Obj.get "magic" o = Some (JStr BACKUP_MAGIC) ->
  validateBackup (JObj o) =
    inr (if negb (truthy_opt (Obj.get "version" o))
         then Invalid "Missing version information"
         else if negb (truthy_opt (Obj.get "timestamp" o))
         then Invalid "Missing timestamp"
         else if negb (truthy_opt (Obj.get "data" o))
         then Invalid "Missing data section"
         else if negb (typeof_object (defined (Obj.get "data" o)))
         then Invalid "Invalid data structure"
         else Valid).
Proof.
  intros Hmagic. unfold validateBackup, and_then. simpl.
  rewrite Hmagic, magic_match.
  destruct (truthy_opt (Obj.get "version" o)); simpl; [|done].
  destruct (truthy_opt (Obj.get "timestamp" o)); simpl; [|done].
  destruct (truthy_opt (Obj.get "data" o)); simpl; [|done].
  by destruct (typeof_object (defined (Obj.get "data" o))).
Qed.

(** An import stops at a document that does not validate, with the
    validator's message, and touches nothing. *)
Lemma importData_invalid (E : env) (f : file) (w : world) (backup : jsval)
    (msg : string) :
  file_content f = Parsed backup ->
  validateBackup backup = inr (Invalid msg) ->
  importData E f w = (Ret (ImportFailed (Error msg)), w).
Proof.
  intros Hf Hv. unfold importData, try_catch, bind. rewrite Hf. simpl.
  rewrite Hv. reflexivity.
Qed.

(** C3 (as amended): a document whose magic marker is not
    ["ODS_BACKUP_v9"] (another value, or no marker at all) is never
    imported: [importData] returns a failure and the world, with all four
    collections, is untouched.  For every document other than [null] the
    failure is ['Invalid backup file format'], which [validateBackup]
    returns; for the document [null], which has no attributes to read, it
    is the TypeError of reading [backup.magic]. *)
Theorem import_rejects_wrong_magic
    (E : env) (f : file) (w : world) (backup : jsval) :
  file_content f = Parsed backup ->
  prop backup "magic" <> inr (Some (JStr BACKUP_MAGIC)) ->
  importData E f w =
    (Ret (ImportFailed
            (if is_null backup then TypeError
             else Error "Invalid backup file format")), w).
Proof.
  intros Hf Hmagic.
  pose proof (is_null_spec backup) as Hnull.
  destruct (is_null backup).
  - subst backup. unfold importData, try_catch, bind. rewrite Hf.
    reflexivity.
  - rewrite (prop_not_null backup "magic" Hnull) in Hmagic.
    assert (Hm : shown backup "magic" <> Some (JStr BACKUP_MAGIC))
      by congruence.
    apply (importData_invalid E f w backup _ Hf).
    unfold validateBackup, and_then.
    rewrite (prop_not_null backup "magic" Hnull).
    by rewrite (magic_mismatch _ Hm).
Qed.

Lemma import_rejects_wrong_magic_witness :
  importData Sample.platform
    (mkFile "old.json" (Parsed (JObj [("magic", JStr "ODS_BACKUP_v8")])))
    Sample.in_use
  = (Ret (ImportFailed (Error "Invalid backup file format")), Sample.in_use).
Proof.
  apply (import_rejects_wrong_magic Sample.platform
           (mkFile "old.json"
              (Parsed (JObj [("magic", JStr "ODS_BACKUP_v8")])))
           Sample.in_use (JObj [("magic", JStr "ODS_BACKUP_v8")])).
  - reflexivity.
  - discriminate.
Defined.

(** C3 as worded fails for the document [null], which JSON allows: it
    carries no magic marker, and its import fails with the TypeError of
    reading [backup.magic], not with the failure that [validateBackup]
    returns for a wrong marker.  The world is untouched all the same. *)
Lemma null_document_is_a_type_error :
  prop JNull "magic" <> inr (Some (JStr BACKUP_MAGIC))
  /\ validateBackup JNull = inl TypeError
  /\ importData Sample.platform (mkFile "null.json" (Parsed JNull))
       Sample.in_use
     = (Ret (ImportFailed TypeError), Sample.in_use)
  /\ TypeError <> Error "Invalid backup file format".
Proof. repeat split; discriminate. Qed.

(** C9: a document with the magic marker and a version whose [timestamp]
    is present and equal to 0 is reported as lacking a timestamp, and an
    import of it fails with that message without touching anything:
    presence is tested by truthiness. *)
Theorem zero_timestamp_is_missing
    (E : env) (f : file) (w : world) (o : obj) :
  file_content f = Parsed (JObj o) ->
  Obj.get "magic" o = Some (JStr BACKUP_MAGIC) ->
  truthy_opt (Obj.get "version" o) = true ->
  Obj.get "timestamp" o = Some (JNum 0) ->
  validateBackup (JObj o) = inr (Invalid "Missing timestamp")
  /\ importData E f w = (Ret (ImportFailed (Error "Missing timestamp")), w).
Proof.
  intros Hf Hmagic Hversion Htimestamp.
  assert (Hv : validateBackup (JObj o) = inr (Invalid "Missing timestamp")).
  { rewrite (validateBackup_with_magic o Hmagic).
    by rewrite Hversion, Htimestamp. }
  split; [exact Hv|].
  by apply (importData_invalid E f w (JObj o)).
Qed.

Lemma zero_timestamp_is_missing_witness :
  validateBackup (JObj Sample.epoch_document)
  = inr (Invalid "Missing timestamp")
  /\ importData Sample.platform
       (mkFile "epoch.json" (Parsed (JObj Sample.epoch_document)))
       Sample.in_use
     = (Ret (ImportFailed (Error "Missing timestamp")), Sample.in_use).
Proof.
  apply (zero_timestamp_is_missing Sample.platform
           (mkFile "epoch.json" (Parsed (JObj Sample.epoch_document)))
           Sample.in_use Sample.epoch_document);
    reflexivity.
Defined.

(* ===================================================================== *)
(** ** Frame and exception rules *)
(* ===================================================================== *)

Section Rules.

Context {A B : Type} (R : relation world) `{!PreOrder R}.
Implicit Types (Q : error -> Prop).

Lemma respects_ret (a : A) : respects R (ret a).
Proof. intros w. simpl. reflexivity. Qed.

Lemma respects_throw (e : error) : respects R (@throw A e).
Proof. intros w. simpl. reflexivity. Qed.

Lemma respects_unmodelled : respects R (@unmodelled A).
Proof. intros w. simpl. reflexivity. Qed.

Lemma respects_lift (r : error + A) : respects R (lift r).
Proof. destruct r; intros w; simpl; reflexivity. Qed.

Lemma respects_bind (m : M A) (k : A -> M B) :
  respects R m -> (forall a, respects R (k a)) -> respects R (bind m k).
Proof.
  intros Hm Hk w. unfold bind. specialize (Hm w).
  destruct (m w) as [[a|e|] w1]; simpl in *; [|done..].
  etrans; [exact Hm|apply Hk].
Qed.

Lemma respects_try_catch (m : M A) (h : error -> M A) :
  respects R m -> (forall e, respects R (h e)) ->
  respects R (try_catch m h).
Proof.
  intros Hm Hh w. unfold try_catch. specialize (Hm w).
  destruct (m w) as [[a|e|] w1]; simpl in *; [done| |done].
  etrans; [exact Hm|apply Hh].
Qed.

Lemma throws_only_ret Q (a : A) : throws_only Q (ret a).
Proof. intros w e w' H. discriminate. Qed.

Lemma throws_only_throw Q (e : error) : Q e -> throws_only Q (@throw A e).
Proof. intros He w e' w' H. inversion H. by subst. Qed.

Lemma throws_only_unmodelled Q : throws_only Q (@unmodelled A).
Proof. intros w e w' H. discriminate. Qed.

Lemma throws_only_bind Q (m : M A) (k : A -> M B) :
  throws_only Q m -> (forall a, throws_only Q (k a)) ->
  throws_only Q (bind m k).
Proof.
  intros Hm Hk w e w' H. unfold bind in H.
  destruct (m w) as [[a|e0|] w1] eqn:Hmw.
  - by eapply Hk.
  - inversion H. subst. by eapply Hm.
  - discriminate.
Qed.

Lemma throws_only_try_catch Q (m : M A) (h : error -> M A) :
  (forall e, throws_only Q (h e)) -> throws_only Q (try_catch m h).
Proof.
  intros Hh w e w' H. unfold try_catch in H.
  destruct (m w) as [[a|e0|] w1] eqn:Hmw; try discriminate.
  by eapply Hh.
Qed.

Lemma throws_only_state Q (f : world -> A * world) :
  throws_only Q (fun w => (Ret (f w).1, (f w).2)).
Proof. intros w e w' H. discriminate. Qed.

End Rules.

Lemma throws_only_lift_prop Q (v : jsval) (p : string) :
  Q TypeError -> throws_only Q (lift (prop v p)).
Proof.
  intros HQ. destruct v; simpl; try apply throws_only_ret.
  by apply throws_only_throw.
Qed.

Lemma throws_only_lift_prop_opt Q (o : option jsval) (p : string) :
  Q TypeError -> throws_only Q (lift (prop_opt o p)).
Proof.
  intros HQ. destruct o as [v|]; simpl.
  - by apply throws_only_lift_prop.
  - by apply throws_only_throw.
Qed.

Lemma throws_only_lift_to_primitive Q (o : option jsval) :
  Q TypeError -> throws_only Q (lift (to_primitive o)).
Proof.
  intros HQ. destruct o as [v|]; simpl; [|apply throws_only_ret].
  destruct (converts v); simpl; [apply throws_only_ret|].
  by apply throws_only_throw.
Qed.

(** Whatever goes wrong while the preview is put into words is a
    TypeError. *)
Lemma import_preview_error (backup : jsval) (e : error) :
  import_preview backup = inl e -> e = TypeError.
Proof.
  assert (Hthen : forall (A : Type) (r : error + A) (k : A -> error + prompt),
    (forall e, r = inl e -> e = TypeError) ->
    (forall a e, k a = inl e -> e = TypeError) ->
    forall e, and_then r k = inl e -> e = TypeError).
  { intros A [e0|a] k Hr Hk e' H; simpl in H; [|by eapply Hk].
    inversion H. subst. by apply Hr. }
  assert (Hprop : forall v p e, prop v p = inl e -> e = TypeError).
  { intros v p e' H. destruct v; simpl in H; congruence. }
  assert (Hopt : forall o p e, prop_opt o p = inl e -> e = TypeError).
  { intros [v|] p e' H; simpl in H; [by eapply Hprop|congruence]. }
  assert (Hconv : forall o e, to_primitive o = inl e -> e = TypeError).
  { intros [v|] e' H; simpl in H; [|congruence].
    destruct (converts v); congruence. }
  unfold import_preview. revert e.
  repeat (apply Hthen; [by eauto|intros ?]).
  discriminate.
Qed.

Lemma throws_only_lift_import_preview Q (backup : jsval) :
  Q TypeError -> throws_only Q (lift (import_preview backup)).
Proof.
  intros HQ. destruct (import_preview backup) as [e|p] eqn:Hp; simpl.
  - apply import_preview_error in Hp. subst. by apply throws_only_throw.
  - apply throws_only_ret.
Qed.

(** One step of a proof that a computation throws only such errors. *)
Ltac throws_step :=
  lazymatch goal with
  | |- throws_only _ (bind _ _) => apply throws_only_bind; [|intros ?]
  | |- throws_only _ (try_catch _ _) => apply throws_only_try_catch; intros ?
  | |- throws_only _ (ret _) => apply throws_only_ret
  | |- throws_only _ (throw _) => apply throws_only_throw; done
  | |- throws_only _ unmodelled => apply throws_only_unmodelled
  | |- throws_only _ (lift (prop _ _)) => apply throws_only_lift_prop; done
  | |- throws_only _ (lift (prop_opt _ _)) =>
      apply throws_only_lift_prop_opt; done
  | |- throws_only _ (lift (to_primitive _)) =>
      apply throws_only_lift_to_primitive; done
  | |- throws_only _ (lift (import_preview _)) =>
      apply throws_only_lift_import_preview; done
  | |- throws_only _ (match ?x with _ => _ end) => destruct x eqn:?
  | |- throws_only _ (fun w => (Ret _, _)) => intros ? ? ? ?; discriminate
  end.

Create HintDb throws discriminated.

Ltac throws := repeat (first [throws_step | solve [eauto with throws]]).

Lemma store_add_error (v : obj) (s : store) (e : error) :
  Store.add v s = inl e -> e = DataError \/ e = ConstraintError.
Proof.
  unfold Store.add, Store.extract.
  destruct (Obj.get (keyPath s) v) as [kv|].
  - destruct (to_key kv) as [k|]; [|intros H; inversion H; auto].
    destruct (Records.get k (records s)); intros H; inversion H; auto.
  - destruct (autoIncrement s); [|intros H; inversion H; auto].
    destruct (MAX_GENERATED <? keygen s); [intros H; inversion H; auto|].
    destruct (Records.get _ (records s)); intros H; inversion H; auto.
Qed.

Lemma transaction_throws name : throws_only after_validation (transaction name).
Proof.
  intros w e w' H. unfold transaction in H.
  destruct (db w !! name); by inversion H.
Qed.
#[export] Hint Resolve transaction_throws : throws.

Lemma Date_now_throws E : throws_only after_validation (Date_now E).
Proof. unfold Date_now. throws. Qed.
#[export] Hint Resolve Date_now_throws : throws.

Lemma commit_throws name s : throws_only after_validation (commit name s).
Proof. unfold commit. throws. Qed.
#[export] Hint Resolve commit_throws : throws.

Lemma addItem_throws E name data :
  throws_only after_validation (addItem E name data).
Proof.
  unfold addItem. throws.
  all: match goal with
       | H : Store.add _ _ = inl _ |- _ =>
           apply store_add_error in H as [-> | ->]
       end; throws.
Qed.
#[export] Hint Resolve addItem_throws : throws.

Lemma clearStore_throws name : throws_only after_validation (clearStore name).
Proof. unfold clearStore. throws. Qed.
#[export] Hint Resolve clearStore_throws : throws.

Lemma exportData_throws E : throws_only after_validation (exportData E).
Proof. unfold exportData. throws. Qed.
#[export] Hint Resolve exportData_throws : throws.

Lemma ask_throws E p : throws_only after_validation (ask E p).
Proof. unfold ask. throws. Qed.
#[export] Hint Resolve ask_throws : throws.

Lemma section_items_throws data name :
  throws_only after_validation (section_items data name).
Proof. unfold section_items. throws. Qed.
#[export] Hint Resolve section_items_throws : throws.

Lemma import_each_throws handle items :
  (forall item, throws_only after_validation (handle item)) ->
  forall n, throws_only after_validation (import_each handle items n).
Proof.
  intros Hh. induction items as [|item items IH]; intros n; simpl; throws.
Qed.

Lemma add_without_id_throws E name item :
  throws_only after_validation (add_without_id E name item).
Proof. unfold add_without_id. throws. Qed.
#[export] Hint Resolve add_without_id_throws : throws.

Lemma loadTheme_throws E : throws_only after_validation (loadTheme E).
Proof. unfold loadTheme. throws. Qed.
#[export] Hint Resolve loadTheme_throws : throws.

Lemma read_memory_throws : throws_only after_validation read_memory.
Proof. unfold read_memory. throws. Qed.
#[export] Hint Resolve read_memory_throws : throws.

Lemma write_memory_throws m : throws_only after_validation (write_memory m).
Proof. unfold write_memory. throws. Qed.
#[export] Hint Resolve write_memory_throws : throws.

Lemma applyTheme_throws : throws_only after_validation applyTheme.
Proof. unfold applyTheme. throws. Qed.
#[export] Hint Resolve applyTheme_throws : throws.

Lemma setScale_throws E value : throws_only after_validation (setScale E value).
Proof. unfold setScale. throws. Qed.
#[export] Hint Resolve setScale_throws : throws.

Lemma isCompatibleVersion_throws version :
  throws_only after_validation (lift (isCompatibleVersion version)).
Proof.
  unfold isCompatibleVersion.
  destruct (negb (truthy_opt version)); simpl; [throws|].
  destruct version as [[]|]; simpl; throws.
Qed.
#[export] Hint Resolve isCompatibleVersion_throws : throws.

Lemma import_confirmed_throws E f version timestamp data :
  throws_only after_validation (import_confirmed E f version timestamp data).
Proof.
  unfold import_confirmed. throws.
  all: apply import_each_throws; intros; throws.
Qed.
#[export] Hint Resolve import_confirmed_throws : throws.

Lemma import_validated_throws E f backup :
  throws_only after_validation (import_validated E f backup).
Proof. unfold import_validated. throws. Qed.

(** A valid document is handed to the rest of the import. *)
Lemma importData_valid (E : env) (f : file) (w : world) (backup : jsval) :
  file_content f = Parsed backup ->
  validateBackup backup = inr Valid ->
  importData E f w =
    try_catch (import_validated E f backup)
      (fun e => ret (ImportFailed e)) w.
Proof.
  intros Hf Hv. unfold importData, try_catch, bind. rewrite Hf. simpl.
  rewrite Hv. reflexivity.
Qed.

Lemma returns_only_bind {A B} (P : B -> Prop) (m : M A) (k : A -> M B) :
  (forall a, returns_only P (k a)) -> returns_only P (bind m k).
Proof.
  intros Hk w b w' H. unfold bind in H.
  destruct (m w) as [[a|e|] w1]; try discriminate. by eapply Hk.
Qed.

Lemma returns_only_throw {A} (P : A -> Prop) e : returns_only P (@throw A e).
Proof. intros w a w' H. discriminate. Qed.

Lemma returns_only_ret {A} (P : A -> Prop) a : P a -> returns_only P (ret a).
Proof. intros Ha w a' w' H. inversion H. by subst. Qed.

(** What [import_validated] returns is a success. *)
Lemma import_validated_returns E f backup :
  returns_only (fun r => exists c msg, r = ImportOk c msg)
    (import_validated E f backup).
Proof.
  unfold import_validated.
  repeat (apply returns_only_bind; intros ?).
  destruct (negb _); [apply returns_only_throw|].
  unfold import_confirmed.
  repeat (apply returns_only_bind; intros ?).
  apply returns_only_ret. eauto.
Qed.

(** Once a document has passed validation, an import that fails does so
    with an exception of the platform or with the user's refusal: none of
    the validator's messages can come out any more. *)
Lemma importData_after_validation (E : env) (f : file) (w w' : world)
    (backup : jsval) (e : error) :
  file_content f = Parsed backup ->
  validateBackup backup = inr Valid ->
  importData E f w = (Ret (ImportFailed e), w') ->
  after_validation e.
Proof.
  intros Hf Hv Hrun. rewrite (importData_valid E f w backup Hf Hv) in Hrun.
  unfold try_catch in Hrun.
  destruct (import_validated E f backup w) as [[r|e0|] w0] eqn:Hb.
  - apply import_validated_returns in Hb as (c & msg & ->). discriminate.
  - inversion Hrun. subst. by eapply import_validated_throws.
  - discriminate.
Qed.

(** C10: a document with the magic marker, a truthy version and a truthy
    timestamp whose [data] is an array passes structural validation, since
    an array is of type object; an import of it goes on past validation and
    cannot fail with the invalid-data-structure error. *)
Theorem array_data_passes_validation
    (E : env) (f : file) (w : world) (o : obj) (items : list jsval) :
  file_content f = Parsed (JObj o) ->
  Obj.get "magic" o = Some (JStr BACKUP_MAGIC) ->
  truthy_opt (Obj.get "version" o) = true ->
  truthy_opt (Obj.get "timestamp" o) = true ->
  Obj.get "data" o = Some (JArr items) ->
  validateBackup (JObj o) = inr Valid
  /\ importData E f w =
       try_catch (import_validated E f (JObj o))
         (fun e => ret (ImportFailed e)) w
  /\ (importData E f w).1
       <> Ret (ImportFailed (Error "Invalid data structure")).
Proof.
  intros Hf Hmagic Hversion Htimestamp Hdata.
  assert (Hv : validateBackup (JObj o) = inr Valid).
  { rewrite (validateBackup_with_magic o Hmagic).
    by rewrite Hversion, Htimestamp, Hdata. }
  split; [exact Hv|]. split.
  - by apply importData_valid.
  - intros Hbad. destruct (importData E f w) as [r w'] eqn:Hrun.
    simpl in Hbad. subst r.
    by apply (importData_after_validation E f w w' (JObj o)) in Hrun.
Qed.

Lemma array_data_passes_validation_witness :
  validateBackup (JObj Sample.array_document) = inr Valid
  /\ (importData Sample.declining
        (mkFile "array.json" (Parsed (JObj Sample.array_document)))
        Sample.in_use).1
     <> Ret (ImportFailed (Error "Invalid data structure")).
Proof.
  destruct (array_data_passes_validation Sample.declining
              (mkFile "array.json" (Parsed (JObj Sample.array_document)))
              Sample.in_use Sample.array_document [JNum 1; JNum 2])
    as (Hv & _ & Hne); try reflexivity.
  exact (conj Hv Hne).
Defined.

(* ===================================================================== *)
(** ** The pre-import backup *)
(* ===================================================================== *)

(** C1 (what the code does): with a record already in [backups] under the
    millisecond the clock reads next, the pre-import [exportData] fails
    with a ConstraintError; [importData] goes on all the same, clears the
    stores and reports success, and the operation that was stored is
    gone. *)
Theorem import_continues_after_failed_snapshot :
  (exportData Sample.platform Sample.clock_repeats).1
    = Ret (ExportFailed ConstraintError)
  /\ collection "operations" Sample.clock_repeats
     = [ [ ("type", JStr "task"); ("timestamp", JNum 1600000000001);
           ("id", JNum 1) ] ]
  /\ (importData Sample.platform
        (mkFile "backup.json" (Parsed (JObj Sample.empty_document)))
        Sample.clock_repeats).1
     = Ret (ImportOk (mkCounts 0 0 0)
              "Successfully imported 0 themes, 0 operations, 0 workspaces")
  /\ collection "operations"
       (importData Sample.platform
          (mkFile "backup.json" (Parsed (JObj Sample.empty_document)))
          Sample.clock_repeats).2
     = [].
Proof. vm_compute. repeat split. Qed.

(* ===================================================================== *)
(** ** What each operation leaves alone *)
(* ===================================================================== *)

Create HintDb frame discriminated.

Ltac frame_step :=
  lazymatch goal with
  | |- respects _ (bind _ _) =>
      apply respects_bind; [solve [apply _]| |intros ?]
  | |- respects _ (try_catch _ _) =>
      apply respects_try_catch; [solve [apply _]| |intros ?]
  | |- respects _ (ret _) => apply respects_ret; apply _
  | |- respects _ (throw _) => apply respects_throw; apply _
  | |- respects _ unmodelled => apply respects_unmodelled; apply _
  | |- respects _ (lift _) => apply respects_lift; apply _
  | |- respects _ (match ?x with _ => _ end) => destruct x eqn:?
  | |- respects _ (fun w => _) =>
      intros ?; simpl;
      match goal with
      | H : ambient _ |- _ => apply H; simpl; (reflexivity || lia)
      end
  end.

Ltac frame := repeat (first [frame_step | solve [eauto with frame]]).

Section Frame.

Context (R : relation world) `{!PreOrder R}.
Hypothesis Hambient : ambient R.
Variable E : env.

Lemma respects_transaction name : respects R (transaction name).
Proof.
  intros w. unfold transaction. destruct (db w !! name); simpl; reflexivity.
Qed.
Hint Resolve respects_transaction : frame.

Lemma respects_Date_now : respects R (Date_now E).
Proof. unfold Date_now. frame. Qed.
Hint Resolve respects_Date_now : frame.

Lemma respects_read_memory : respects R read_memory.
Proof. unfold read_memory. frame. Qed.
Hint Resolve respects_read_memory : frame.

Lemma respects_getItem name id : respects R (getItem name id).
Proof. unfold getItem. frame. Qed.
Hint Resolve respects_getItem : frame.

Lemma respects_getAllItems name : respects R (getAllItems name).
Proof. unfold getAllItems. frame. Qed.
Hint Resolve respects_getAllItems : frame.

Lemma respects_addItem name data :
  apart R name -> respects R (addItem E name data).
Proof. intros Hc. unfold addItem. frame. Qed.
Hint Resolve respects_addItem : frame.

Lemma respects_updateItem name id data :
  apart R name -> respects R (updateItem E name id data).
Proof. intros Hc. unfold updateItem. frame. Qed.
Hint Resolve respects_updateItem : frame.

Lemma respects_clearStore name : apart R name -> respects R (clearStore name).
Proof. intros Hc. unfold clearStore. frame. Qed.
Hint Resolve respects_clearStore : frame.

Lemma respects_saveTheme : apart R "themes" -> respects R (saveTheme E).
Proof. intros Hc. unfold saveTheme. frame. Qed.
Hint Resolve respects_saveTheme : frame.

Lemma respects_adopt t : steady R -> respects R (adopt t).
Proof. intros Hs. unfold adopt. frame. Qed.

Lemma respects_loadTheme :
  respects R (saveTheme E) -> (forall t, respects R (adopt t)) ->
  respects R (loadTheme E).
Proof. intros Hc Ha. unfold loadTheme, parse_slot. frame. Qed.

Lemma respects_applyTheme : respects R applyTheme.
Proof. unfold applyTheme. frame. Qed.
Hint Resolve respects_applyTheme : frame.

Lemma respects_setScale value : steady R -> respects R (setScale E value).
Proof. intros Hs. unfold setScale. frame. Qed.

Lemma respects_exportData : apart R "backups" -> respects R (exportData E).
Proof. intros Hc. unfold exportData, downloadJSON. frame. Qed.
Hint Resolve respects_exportData : frame.

Lemma respects_section_items data name :
  respects R (section_items data name).
Proof. unfold section_items. frame. Qed.
Hint Resolve respects_section_items : frame.

Lemma respects_import_each handle items :
  (forall item, respects R (handle item)) ->
  forall n, respects R (import_each handle items n).
Proof.
  intros Hh. induction items as [|item items IH]; intros n; simpl; frame.
Qed.

Lemma respects_add_without_id name item :
  apart R name -> respects R (add_without_id E name item).
Proof. intros Hc. unfold add_without_id. frame. Qed.
Hint Resolve respects_add_without_id : frame.

End Frame.

#[export] Hint Resolve respects_transaction respects_Date_now
  respects_read_memory respects_getItem respects_getAllItems
  respects_addItem respects_updateItem respects_clearStore
  respects_saveTheme respects_adopt respects_loadTheme respects_applyTheme
  respects_setScale respects_exportData respects_section_items
  respects_add_without_id : frame.

#[export] Instance kept_preorder {X} (field : world -> X) :
  PreOrder (kept field).
Proof.
  split.
  - by intros w.
  - intros w1 w2 w3 H12 H23. unfold kept in *. congruence.
Qed.

#[export] Instance later_preorder : PreOrder later.
Proof.
  split.
  - intros w. unfold later. lia.
  - intros w1 w2 w3. unfold later. lia.
Qed.

Lemma later_ambient : ambient later.
Proof. by intros w w' _ _ _ H. Qed.

Lemma later_apart name : apart later name.
Proof. intros s w. unfold later. simpl. lia. Qed.

Lemma later_steady : steady later.
Proof. intros m w. unfold later. simpl. lia. Qed.

Lemma prompts_ambient : ambient (kept prompts).
Proof. by intros w w' _ H _ _. Qed.

Lemma prompts_apart name : apart (kept prompts) name.
Proof. by intros s w. Qed.

Lemma prompts_steady : steady (kept prompts).
Proof. by intros m w. Qed.

Lemma lookup_ambient (n : string) : ambient (kept (fun w => db w !! n)).
Proof. intros w w' H _ _ _. unfold kept. by rewrite H. Qed.

Lemma lookup_apart (n name : string) :
  name <> n -> apart (kept (fun w => db w !! n)) name.
Proof. intros Hne s w. unfold kept. simpl. by rewrite lookup_insert_ne. Qed.

Lemma lookup_steady (n : string) : steady (kept (fun w => db w !! n)).
Proof. by intros m w. Qed.

Lemma mem_ambient : ambient (kept mem).
Proof. by intros w w' _ _ H _. Qed.

Lemma mem_apart name : apart (kept mem) name.
Proof. by intros s w. Qed.

#[export] Hint Resolve later_ambient later_apart later_steady
  prompts_ambient prompts_apart prompts_steady
  lookup_ambient lookup_apart lookup_steady mem_ambient mem_apart : frame.
#[export] Hint Extern 1 (_ <> _) => discriminate : frame.
#[export] Hint Extern 1 (PreOrder _) => apply _ : frame.

(** From the pre-import backup on, an import shows no dialog. *)
Lemma import_confirmed_keeps_prompts E f version timestamp data :
  keeps prompts (import_confirmed E f version timestamp data).
Proof.
  unfold keeps, import_confirmed. frame.
  all: apply respects_import_each; [apply _|]; intros; frame.
Qed.

(* ===================================================================== *)
(** ** Version compatibility *)
(* ===================================================================== *)

Lemma valid_inv (o : obj) :
  validateBackup (JObj o) = inr Valid ->
  Obj.get "magic" o = Some (JStr BACKUP_MAGIC)
  /\ truthy_opt (Obj.get "version" o) = true
  /\ truthy_opt (Obj.get "timestamp" o) = true
  /\ truthy_opt (Obj.get "data" o) = true
  /\ typeof_object (defined (Obj.get "data" o)) = true.
Proof.
  intros Hv.
  assert (Hmagic : Obj.get "magic" o = Some (JStr BACKUP_MAGIC)).
  { unfold validateBackup, and_then in Hv. simpl in Hv.
    destruct (is_string (Obj.get "magic" o) BACKUP_MAGIC) eqn:Hs.
    - by apply is_string_true in Hs.
    - rewrite orb_true_r in Hv. discriminate. }
  rewrite (validateBackup_with_magic o Hmagic) in Hv.
  destruct (truthy_opt (Obj.get "version" o)); [|discriminate].
  destruct (truthy_opt (Obj.get "timestamp" o)); [|discriminate].
  destruct (truthy_opt (Obj.get "data" o)); [|discriminate].
  destruct (typeof_object (defined (Obj.get "data" o))); [|discriminate].
  done.
Qed.

Lemma bind_ret_l {A B} (a : A) (k : A -> M B) : bind (ret a) k = k a.
Proof. reflexivity. Qed.

Lemma bind_ret_at {A B} (m : M A) (k : A -> M B) (w w' : world) (a : A) :
  m w = (Ret a, w') -> bind m k w = k a w'.
Proof. intros H. unfold bind. by rewrite H. Qed.

Lemma bind_throw_at {A B} (m : M A) (k : A -> M B) (w w' : world) e :
  m w = (Throw e, w') -> bind m k w = (Throw e, w').
Proof. intros H. unfold bind. by rewrite H. Qed.

Lemma try_catch_world {A} (m : M A) (h : error -> A) (w : world) :
  (try_catch m (fun e => ret (h e)) w).2 = (m w).2.
Proof. unfold try_catch. by destruct (m w) as [[a|e|] w']. Qed.

(** Building the preview either fails with a TypeError or gives the
    dialog [preview_of]. *)
Lemma import_preview_at (o : obj) :
  import_preview (JObj o)
  = if previewable o then inr (preview_of o) else inl TypeError.
Proof.
  assert (Hcount : forall (x : option jsval) (k : unit -> error + prompt),
    and_then (to_primitive x) k
    = if printable x then k tt else inl TypeError).
  { intros [c|] k; simpl; [|done]. by destruct (converts c). }
  unfold import_preview, previewable, preview_of.
  cbn [prop and_then]. rewrite Hcount.
  destruct (printable (Obj.get "timestamp" o)); [|done].
  cbn [andb and_then].
  destruct (Obj.get "metadata" o) as [meta|]; [|done].
  destruct meta; cbn [prop_opt prop and_then is_null negb andb defined default
                      id shown]; try done;
    rewrite !Hcount;
    repeat match goal with
           | |- context [printable ?x] => destruct (printable x)
           end; done.
Qed.

(** The version check and the two dialogs of an import of a valid
    document with a string version. *)
Lemma import_validated_gate (E : env) (f : file) (w : world) (o : obj)
    (v : string) :
  validateBackup (JObj o) = inr Valid ->
  Obj.get "version" o = Some (JStr v) ->
  let go (w1 : world) : outcome import_result * world :=
    if previewable o then
      if confirm E (length (prompts w1)) (preview_of o)
      then import_confirmed E f (Obj.get "version" o)
             (Obj.get "timestamp" o) (Obj.get "data" o)
             (after_prompt (preview_of o) w1)
      else (Throw (Error "Import cancelled by user"),
            after_prompt (preview_of o) w1)
    else (Throw TypeError, w1) in
  import_validated E f (JObj o) w =
    if String.eqb (before_dot BACKUP_VERSION) (before_dot v) then go w
    else if confirm E (length (prompts w)) (VersionMismatch (JStr v))
         then go (after_prompt (VersionMismatch (JStr v)) w)
         else (Throw (Error "Import cancelled by user"),
               after_prompt (VersionMismatch (JStr v)) w).
Proof.
  intros Hv Hversion go.
  apply valid_inv in Hv as (_ & Htv & _ & _ & _).
  assert (Hc : isCompatibleVersion (Obj.get "version" o)
               = inr (String.eqb (before_dot BACKUP_VERSION) (before_dot v))).
  { unfold isCompatibleVersion. rewrite Htv. by rewrite Hversion. }
  assert (Hgo : forall w1,
    (preview <- lift (import_preview (JObj o)) ;;
     confirmImport <- ask E preview ;;
     if negb confirmImport then throw (Error "Import cancelled by user")
     else import_confirmed E f (Obj.get "version" o)
            (Obj.get "timestamp" o) (Obj.get "data" o))%js w1 = go w1).
  { intros w1. unfold go. rewrite import_preview_at.
    destruct (previewable o); [|done].
    unfold bind, ask. simpl.
    by destruct (confirm E (length (prompts w1)) _). }
  unfold import_validated. cbn [prop lift].
  rewrite !bind_ret_l, Hc. cbn [lift]. rewrite bind_ret_l.
  destruct (String.eqb (before_dot BACKUP_VERSION) (before_dot v)).
  - rewrite bind_ret_l. apply Hgo.
  - destruct (confirm E (length (prompts w)) (VersionMismatch (JStr v)))
      eqn:Hconf.
    + erewrite bind_ret_at;
        [exact (Hgo (after_prompt (VersionMismatch (JStr v)) w))|].
      unfold bind, ask. rewrite Hversion. simpl. by rewrite Hconf.
    + erewrite bind_throw_at; [reflexivity|].
      unfold bind, ask. rewrite Hversion. simpl. by rewrite Hconf.
Qed.

(** C4: an import of a valid document compares the text before the first
    dot of its version with that of the current version.  When they are
    equal, no version-mismatch dialog is shown: the import goes straight
    to the preview, which is the only dialog, or fails with a TypeError
    and no dialog at all when the preview cannot be put into words.  When
    they differ, the version-mismatch dialog comes first: if the user
    declines it the import fails as cancelled and nothing but the list of
    dialogs has changed; if the user accepts it the import goes on to the
    preview in the same way. *)
Theorem version_gate_compares_major_only
    (E : env) (f : file) (w : world) (o : obj) (v : string) :
  file_content f = Parsed (JObj o) ->
  validateBackup (JObj o) = inr Valid ->
  Obj.get "version" o = Some (JStr v) ->
  if String.eqb (before_dot BACKUP_VERSION) (before_dot v)
  then if previewable o
       then prompts (importData E f w).2 = (prompts w ++ [preview_of o])%list
       else importData E f w = (Ret (ImportFailed TypeError), w)
  else if confirm E (length (prompts w)) (VersionMismatch (JStr v))
       then if previewable o
            then prompts (importData E f w).2
                 = (prompts w ++ [VersionMismatch (JStr v); preview_of o])%list
            else importData E f w
                 = (Ret (ImportFailed TypeError),
                    after_prompt (VersionMismatch (JStr v)) w)
       else importData E f w
            = (Ret (ImportFailed (Error "Import cancelled by user")),
               after_prompt (VersionMismatch (JStr v)) w).
Proof.
  intros Hf Hv Hversion.
  rewrite (importData_valid E f w (JObj o) Hf Hv).
  assert (Hgo : forall w1,
    prompts
      (if confirm E (length (prompts w1)) (preview_of o)
       then import_confirmed E f (Obj.get "version" o)
              (Obj.get "timestamp" o) (Obj.get "data" o)
              (after_prompt (preview_of o) w1)
       else (Throw (Error "Import cancelled by user"),
             after_prompt (preview_of o) w1)).2
    = (prompts w1 ++ [preview_of o])%list).
  { intros w1. destruct (confirm E _ _); [|done].
    by rewrite import_confirmed_keeps_prompts. }
  pose proof (import_validated_gate E f w o v Hv Hversion) as Hgate.
  cbv zeta in Hgate.
  destruct (String.eqb (before_dot BACKUP_VERSION) (before_dot v)).
  - destruct (previewable o).
    + rewrite try_catch_world, Hgate. apply Hgo.
    + unfold try_catch. by rewrite Hgate.
  - destruct (confirm E (length (prompts w)) (VersionMismatch (JStr v))).
    + destruct (previewable o).
      * rewrite try_catch_world, Hgate, Hgo. simpl. by rewrite <- app_assoc.
      * unfold try_catch. by rewrite Hgate.
    + unfold try_catch. by rewrite Hgate.
Qed.

(** ["8.x"] differs from ["9.1"] in its major component, ["9.0"] does
    not. *)
Lemma major_of_examples :
  String.eqb (before_dot BACKUP_VERSION) (before_dot "8.x") = false
  /\ String.eqb (before_dot BACKUP_VERSION) (before_dot "9.0") = true
  /\ isCompatibleVersion (Some (JStr "8.x")) = inr false
  /\ isCompatibleVersion (Some (JStr "9.0")) = inr true.
Proof. repeat split. Qed.

Lemma version_gate_compares_major_only_witness :
  importData Sample.declining
    (mkFile "old.json" (Parsed (JObj Sample.old_document))) Sample.in_use
  = (Ret (ImportFailed (Error "Import cancelled by user")),
     after_prompt (VersionMismatch (JStr "8.x")) Sample.in_use)
  /\ prompts
       (importData Sample.platform
          (mkFile "minor.json" (Parsed (JObj Sample.minor_document)))
          Sample.in_use).2
     = [preview_of Sample.minor_document].
Proof.
  split.
  - refine (version_gate_compares_major_only Sample.declining
              (mkFile "old.json" (Parsed (JObj Sample.old_document)))
              Sample.in_use Sample.old_document "8.x" _ _ _);
      reflexivity.
  - refine (version_gate_compares_major_only Sample.platform
              (mkFile "minor.json" (Parsed (JObj Sample.minor_document)))
              Sample.in_use Sample.minor_document "9.0" _ _ _);
      reflexivity.
Defined.

(* ===================================================================== *)
(** ** Operations that always return *)
(* ===================================================================== *)

Lemma modelled_ret {A} (a : A) : modelled (ret a).
Proof. by intros w. Qed.

Lemma modelled_throw {A} (e : error) : modelled (@throw A e).
Proof. by intros w. Qed.

Lemma modelled_lift {A} (r : error + A) : modelled (lift r).
Proof. by destruct r; intros w. Qed.

Lemma modelled_bind {A B} (m : M A) (k : A -> M B) :
  modelled m -> (forall a, modelled (k a)) -> modelled (bind m k).
Proof.
  intros Hm Hk w. unfold bind. specialize (Hm w).
  destruct (m w) as [[a|e|] w1]; simpl in *; [apply Hk|done|done].
Qed.

Lemma modelled_try_catch {A} (m : M A) (h : error -> M A) :
  modelled m -> (forall e, modelled (h e)) -> modelled (try_catch m h).
Proof.
  intros Hm Hh w. unfold try_catch. specialize (Hm w).
  destruct (m w) as [[a|e|] w1]; simpl in *; [done|apply Hh|done].
Qed.

Lemma total_intro {A} (m : M A) :
  modelled m -> throws_only (fun _ => False) m -> total m.
Proof.
  intros Hm Ht w. specialize (Hm w). specialize (Ht w).
  destruct (m w) as [[a|e|] w1]; simpl in *.
  - eauto.
  - destruct (Ht e w1 eq_refl).
  - done.
Qed.

Create HintDb modelled discriminated.

Ltac modelled_step :=
  lazymatch goal with
  | |- modelled (bind _ _) => apply modelled_bind; [|intros ?]
  | |- modelled (try_catch _ _) => apply modelled_try_catch; [|intros ?]
  | |- modelled (ret _) => apply modelled_ret
  | |- modelled (throw _) => apply modelled_throw
  | |- modelled (lift _) => apply modelled_lift
  | |- modelled (match ?x with _ => _ end) => destruct x eqn:?
  | |- modelled (fun w => (Ret _, _)) => intros ?; discriminate
  end.

Ltac modelled := repeat (first [modelled_step | solve [eauto with modelled]]).

Lemma transaction_modelled name : modelled (transaction name).
Proof. intros w. unfold transaction. by destruct (db w !! name). Qed.
#[export] Hint Resolve transaction_modelled : modelled.

Lemma Date_now_modelled E : modelled (Date_now E).
Proof. unfold Date_now. modelled. Qed.
#[export] Hint Resolve Date_now_modelled : modelled.

Lemma commit_modelled name s : modelled (commit name s).
Proof. unfold commit. modelled. Qed.
#[export] Hint Resolve commit_modelled : modelled.

Lemma read_memory_modelled : modelled read_memory.
Proof. unfold read_memory. modelled. Qed.
#[export] Hint Resolve read_memory_modelled : modelled.

Lemma write_memory_modelled m : modelled (write_memory m).
Proof. unfold write_memory. modelled. Qed.
#[export] Hint Resolve write_memory_modelled : modelled.

(** Adding an object never leaves the model. *)
Lemma addItem_modelled E name (record : obj) :
  modelled (addItem E name (JObj record)).
Proof.
  intros w. destruct (db w !! name) as [s|] eqn:Hdb.
  - rewrite (addItem_object E w name s record Hdb).
    by destruct (Store.add _ s) as [e|[k s']].
  - unfold addItem, bind, transaction. by rewrite Hdb.
Qed.
#[export] Hint Resolve addItem_modelled : modelled.

Lemma getItem_modelled name id : modelled (getItem name id).
Proof. unfold getItem. modelled. Qed.
#[export] Hint Resolve getItem_modelled : modelled.

Lemma getAllItems_modelled name : modelled (getAllItems name).
Proof. unfold getAllItems. modelled. Qed.
#[export] Hint Resolve getAllItems_modelled : modelled.

Lemma updateItem_modelled E name id data :
  modelled (updateItem E name id data).
Proof. unfold updateItem. modelled. Qed.
#[export] Hint Resolve updateItem_modelled : modelled.

Lemma adopt_modelled t : modelled (adopt t).
Proof. unfold adopt. modelled. Qed.
#[export] Hint Resolve adopt_modelled : modelled.

Lemma saveTheme_modelled E : modelled (saveTheme E).
Proof. unfold saveTheme. modelled. Qed.
#[export] Hint Resolve saveTheme_modelled : modelled.

Lemma loadTheme_modelled E : modelled (loadTheme E).
Proof. unfold loadTheme, parse_slot. modelled. Qed.

Lemma exportData_modelled E : modelled (exportData E).
Proof. unfold exportData, downloadJSON. modelled. Qed.

(** [exportData] and [loadTheme] catch whatever goes wrong inside them. *)
Lemma exportData_total E : total (exportData E).
Proof.
  apply total_intro; [apply exportData_modelled|].
  unfold exportData. apply throws_only_try_catch. intros e.
  apply throws_only_ret.
Qed.

Lemma loadTheme_total E : total (loadTheme E).
Proof.
  apply total_intro; [apply loadTheme_modelled|].
  unfold loadTheme. apply throws_only_try_catch. intros e.
  apply throws_only_try_catch. intros e'. apply throws_only_ret.
Qed.

Lemma clearStore_at (name : string) (s : store) (w : world) :
  db w !! name = Some s ->
  clearStore name w
  = (Ret true, set_db (<[name := Store.clear s]> (db w)) w).
Proof.
  intros Hdb. unfold clearStore, bind, transaction. by rewrite Hdb.
Qed.

(** A section that the data object does not have holds no records. *)
Lemma section_items_absent (d : obj) (name : string) (w : world) :
  Obj.get name d = None ->
  section_items (JObj d) name w = (Ret [], w).
Proof.
  intros Hget. unfold section_items, bind. simpl. by rewrite Hget.
Qed.

Lemma section_items_array (d : obj) (name : string) (items : list jsval)
    (w : world) :
  Obj.get name d = Some (JArr items) ->
  section_items (JObj d) name w = (Ret items, w).
Proof.
  intros Hget. unfold section_items, bind. simpl. by rewrite Hget.
Qed.

(* ===================================================================== *)
(** ** Re-inserting the records of a document *)
(* ===================================================================== *)

Lemma stamped_other E w (record : obj) (p : string) :
  p <> "timestamp" -> Obj.get p (stamped E w record) = Obj.get p record.
Proof.
  intros Hp. unfold stamped.
  destruct (truthy_opt (Obj.get "timestamp" record)); [done|].
  apply ObjFacts.get_set_other. congruence.
Qed.

Lemma stamped_truthy E w (record : obj) :
  truthy_opt (Obj.get "timestamp" record) = true ->
  stamped E w record = record.
Proof. intros H. unfold stamped. by rewrite H. Qed.

(** A record that carries a valid key not yet in the store is added under
    that key. *)
Lemma store_add_explicit (v : obj) (s : store) (k : key) :
  record_key (keyPath s) v = Some k ->
  Records.get k (records s) = None ->
  exists g,
    Store.add v s
    = inr (k, mkStore (keyPath s) (autoIncrement s)
                (Records.put k v (records s)) g)
    /\ (autoIncrement s = false -> g = keygen s).
Proof.
  unfold record_key, Store.add, Store.extract.
  destruct (Obj.get (keyPath s) v) as [kv|]; [|discriminate].
  intros Hk Hfree. rewrite Hk, Hfree.
  eexists. split; [reflexivity|].
  intros Hauto. rewrite Hauto. by destruct k.
Qed.

(** A record without a key gets the next number of the generator. *)
Lemma store_add_generated (v : obj) (s : store) :
  Obj.get (keyPath s) v = None ->
  autoIncrement s = true ->
  keygen s <= MAX_GENERATED ->
  Records.get (KNum (keygen s)) (records s) = None ->
  Store.add v s
  = inr (KNum (keygen s),
         mkStore (keyPath s) true
           (Records.put (KNum (keygen s))
              (Obj.set (keyPath s) (JNum (keygen s)) v) (records s))
           (keygen s + 1)).
Proof.
  intros Hnone Hauto Hroom Hfree.
  unfold Store.add, Store.extract. rewrite Hnone, Hauto.
  destruct (MAX_GENERATED <? keygen s) eqn:Hlt; [lia|].
  by rewrite Hfree.
Qed.

(** Items stripped of their [id] go into a store with a key generator as
    long as the generator has numbers left and runs ahead of the keys in
    the store. *)
Lemma import_generated_succeeds (E : env) (name : string)
    (items : list jsval) :
  forall (w : world) (n : Z) (s : store),
    db w !! name = Some s ->
    keyPath s = "id" ->
    autoIncrement s = true ->
    Forall (fun item => item <> JNull) items ->
    keygen s + Z.of_nat (length items) <= MAX_GENERATED + 1 ->
    (forall k, Store.get k s <> None -> exists m, k = KNum m /\ m < keygen s) ->
    exists w',
      import_each (add_without_id E name) items n w
      = (Ret (n + Z.of_nat (length items)), w').
Proof.
  induction items as [|item items IH];
    intros w n s Hdb Hkp Hauto Hitems Hroom Hahead.
  - exists w. simpl. unfold ret. f_equal. f_equal. lia.
  - apply Forall_cons in Hitems as [Hitem Hitems].
    simpl length in Hroom.
    set (record := Obj.omit "id" (own_props item)).
    assert (Hnone : Obj.get (keyPath s) (stamped E w record) = None).
    { rewrite Hkp, stamped_other by done. apply ObjFacts.get_omit_same. }
    assert (Hfree : Records.get (KNum (keygen s)) (records s) = None).
    { destruct (Records.get (KNum (keygen s)) (records s)) eqn:Hg; [|done].
      destruct (Hahead (KNum (keygen s))) as (m & Hm & Hlt).
      - unfold Store.get. by rewrite Hg.
      - inversion Hm. lia. }
    pose proof (store_add_generated _ s Hnone Hauto ltac:(lia) Hfree) as Hadd.
    pose proof (addItem_object E w name s record Hdb) as Hrun.
    rewrite Hadd in Hrun.
    match type of Hrun with _ = (_, ?x) => set (w1 := x) in * end.
    match type of Hadd with _ = inr (_, ?x) => set (s1 := x) in * end.
    destruct (IH w1 (n + 1) s1) as [w' Hrest].
    + unfold w1. simpl. apply lookup_insert_eq.
    + done.
    + done.
    + done.
    + unfold s1. simpl. lia.
    + intros k Hk. unfold s1, Store.get in Hk. simpl in Hk.
      destruct (decide (k = KNum (keygen s))) as [->|Hne].
      * exists (keygen s). simpl. split; [done|lia].
      * rewrite RecordsFacts.get_put_other in Hk by done.
        destruct (Hahead k Hk) as (m & -> & Hlt).
        exists m. simpl. split; [done|lia].
    + exists w'.
      assert (Hstep : add_without_id E name item w = (Ret tt, w1)).
      { unfold add_without_id. destruct item; try done;
          unfold bind; fold record; by rewrite Hrun. }
      simpl. rewrite (bind_ret_at _ _ _ _ _ Hstep), Hrest.
      f_equal. f_equal. lia.
Qed.

(* ===================================================================== *)
(** ** The backup records and the clock *)
(* ===================================================================== *)

#[export] Instance grows_preorder E : PreOrder (grows E).
Proof.
  split.
  - intros w. split; [lia|]. intros s Hs Hkp. exists s.
    split; [done|]. split; [done|]. auto.
  - intros w1 w2 w3 [Ht12 H12] [Ht23 H23]. split; [lia|].
    intros s Hs Hkp.
    destruct (H12 s Hs Hkp) as (s2 & Hs2 & Hkp2 & Hk2).
    destruct (H23 s2 Hs2 Hkp2) as (s3 & Hs3 & Hkp3 & Hk3).
    exists s3. split; [done|]. split; [done|].
    intros k Hk. destruct (Hk3 k Hk) as [Hin2|(n & Hn & ->)].
    + destruct (Hk2 k Hin2) as [Hin1|(n & Hn & ->)]; [by left|].
      right. exists n. split; [lia|done].
    + right. exists n. split; [lia|done].
Qed.

Lemma grows_same_db E (w w' : world) :
  db w' = db w -> (ticks w <= ticks w')%nat -> grows E w w'.
Proof.
  intros Hdb Ht. split; [done|].
  intros s Hs Hkp. exists s. rewrite Hdb. auto.
Qed.

Lemma grows_ambient E : ambient (grows E).
Proof. intros w w' Hdb _ _ Ht. by apply grows_same_db. Qed.

Lemma grows_apart E name : name <> "backups" -> apart (grows E) name.
Proof.
  intros Hne s0 w. split; [simpl; lia|].
  intros s Hs Hkp. exists s. simpl. rewrite lookup_insert_ne by done. auto.
Qed.

Lemma grows_steady E : steady (grows E).
Proof.
  intros m w. split; [simpl; lia|].
  intros s Hs Hkp. exists s. simpl. auto.
Qed.

#[export] Hint Resolve grows_ambient grows_apart grows_steady : frame.

Lemma store_add_key (v : obj) (s : store) (k : key) (s' : store) (kv : jsval) :
  Store.add v s = inr (k, s') ->
  Obj.get (keyPath s) v = Some kv ->
  to_key kv = Some k.
Proof.
  unfold Store.add, Store.extract. intros Hadd Hget. rewrite Hget in Hadd.
  destruct (to_key kv) as [k0|]; [|discriminate].
  destruct (Records.get k0 (records s)); [discriminate|].
  by inversion Hadd.
Qed.

(** With the clock read at [n] just before, adding a record stamped with
    that reading to [backups] adds at most one key, a reading of the
    clock. *)
Lemma add_backup_grows E (w0 w : world) (n : nat) (rest : obj) :
  ticks w = S n ->
  (ticks w0 <= n)%nat ->
  db w = db w0 ->
  grows E w0
    (addItem E "backups" (JObj (("timestamp", JNum (now E n)) :: rest)) w).2.
Proof.
  intros Ht Hn Hdb.
  set (record := ("timestamp", JNum (now E n)) :: rest).
  set (w2 := if truthy_opt (Obj.get "timestamp" record)
             then w else (Date_now E w).2).
  assert (Hw2 : db w2 = db w /\ (ticks w0 <= ticks w2)%nat
    /\ exists m, (ticks w0 <= m < ticks w2)%nat
         /\ Obj.get "timestamp" (stamped E w record) = Some (JNum (now E m))).
  { unfold w2, stamped.
    replace (truthy_opt (Obj.get "timestamp" record))
      with (negb (now E n =? 0)) by done.
    destruct (negb (now E n =? 0)); simpl.
    - split; [done|]. split; [lia|]. exists n. split; [lia|done].
    - split; [done|]. split; [lia|]. exists (S n). rewrite Ht.
      split; [lia|done]. }
  destruct Hw2 as (Hdb2 & Hlater & m & Hm & Hstamp).
  destruct (db w !! "backups") as [s|] eqn:Hs.
  2:{ unfold addItem, bind, transaction. rewrite Hs. simpl.
      apply grows_same_db; [done|lia]. }
  pose proof (addItem_object E w "backups" s record Hs) as Hrun.
  fold w2 in Hrun. rewrite Hrun. clear Hrun.
  destruct (Store.add (stamped E w record) s) as [e|[k s']] eqn:Hadd.
  - apply grows_same_db; [simpl; congruence|done].
  - split; [done|].
    intros s0 Hs0 Hkp. rewrite <- Hdb, Hs in Hs0. inversion Hs0. subst s0.
    exists s'. simpl. rewrite lookup_insert_eq.
    pose proof (store_add_inv _ _ _ _ Hadd) as (_ & Hrec & Hkp' & _).
    split; [done|]. split; [congruence|].
    intros k' Hk'. unfold Store.get in *. rewrite Hrec in Hk'.
    destruct (decide (k' = k)) as [->|Hne].
    + right. exists m.
      assert (Hkey : to_key (JNum (now E m)) = Some k).
      { eapply store_add_key; [exact Hadd|]. by rewrite Hkp. }
      inversion Hkey. done.
    + left. by rewrite RecordsFacts.get_put_other in Hk'.
Qed.

(** [exportData] leaves [backups] with at most one more record, keyed by a
    reading of the clock taken during the export. *)
Lemma exportData_grows E : respects (grows E) (exportData E).
Proof.
  intros w. unfold exportData, try_catch, getAllItems, transaction.
  unfold bind at 1. unfold bind at 1.
  destruct (db w !! "themes") as [st|]; [|reflexivity].
  unfold ret at 1. unfold bind at 1. unfold bind at 1.
  destruct (db w !! "operations") as [so|]; [|reflexivity].
  unfold ret at 1. unfold bind at 1. unfold bind at 1.
  destruct (db w !! "workspaces") as [sw|]; [|reflexivity].
  unfold ret at 1. unfold bind at 1. unfold Date_now at 1.
  unfold bind at 1. unfold downloadJSON at 1.
  unfold bind at 1.
  match goal with
  | |- context [addItem E "backups" (JObj (_ :: ?rest)) ?wb] =>
      pose proof (add_backup_grows E w wb (ticks w) rest eq_refl
                    ltac:(lia) eq_refl) as Hgrow;
      destruct (addItem E "backups"
                  (JObj (("timestamp", JNum (now E (ticks w))) :: rest)) wb)
        as [[r|e|] w1]
  end; exact Hgrow.
Qed.

(** The import record goes into [backups] when no reading the clock may
    still give is a key there. *)
Lemma import_record_added E (w : world) (s : store) (rest : obj) :
  db w !! "backups" = Some s ->
  keyPath s = "timestamp" ->
  (forall n, (ticks w <= n)%nat -> Store.get (KNum (now E n)) s = None) ->
  exists r w',
    addItem E "backups"
      (JObj (("timestamp", JNum (now E (ticks w))) :: rest))
      (Date_now E w).2
    = (Ret r, w').
Proof.
  intros Hs Hkp Hfresh.
  set (record := ("timestamp", JNum (now E (ticks w))) :: rest).
  set (wa := (Date_now E w).2).
  assert (Hkey : exists m, (ticks w <= m)%nat
    /\ record_key (keyPath s) (stamped E wa record) = Some (KNum (now E m))).
  { rewrite Hkp. unfold record_key, stamped.
    replace (truthy_opt (Obj.get "timestamp" record))
      with (negb (now E (ticks w) =? 0)) by done.
    destruct (negb (now E (ticks w) =? 0)); simpl.
    - exists (ticks w). split; [lia|done].
    - exists (S (ticks w)). split; [lia|done]. }
  destruct Hkey as (m & Hm & Hkey).
  destruct (store_add_explicit _ s _ Hkey (Hfresh m Hm)) as (g & Hadd & _).
  rewrite (addItem_object E wa "backups" s record Hs), Hadd. eauto.
Qed.

(* ===================================================================== *)
(** ** The theme module after an import *)
(* ===================================================================== *)

Lemma truthy_not_null (o : option jsval) :
  truthy_opt o = true -> defined o <> JNull.
Proof. destruct o as [[]|]; simpl; intros H; congruence. Qed.

Lemma defined_truthy (o : option jsval) :
  truthy_opt o = true -> o = Some (defined o).
Proof. by destruct o. Qed.

Lemma bind_to_primitive {B} (o : option jsval) (k : unit -> M B) (w : world) :
  bind (lift (to_primitive o)) k w
  = if printable o then k tt w else (Throw TypeError, w).
Proof.
  destruct o as [v|]; simpl; [|done]. by destruct (converts v).
Qed.

(** [applyTheme] returns when the colours and the typography can be shown,
    and throws a TypeError when they cannot; it changes nothing. *)
Lemma applyTheme_at (w : world) :
  applyTheme w
  = (if can_show (theme_colors (mem w)) ["background"; "text"; "ui"]
        && can_show (theme_typography (mem w)) ["fontFamily"; "baseFontSize"]
     then Ret tt else Throw TypeError, w).
Proof.
  unfold applyTheme. unfold bind at 1, read_memory at 1.
  unfold can_show. cbn [forallb].
  pose proof (is_null_spec (theme_colors (mem w))) as Hc.
  destruct (is_null (theme_colors (mem w))); [by rewrite Hc|].
  rewrite !(prop_not_null _ _ Hc). cbn [lift negb andb].
  rewrite bind_ret_l, bind_to_primitive.
  destruct (printable (shown (theme_colors (mem w)) "background")); [|done].
  rewrite bind_ret_l, bind_to_primitive.
  destruct (printable (shown (theme_colors (mem w)) "text")); [|done].
  rewrite bind_ret_l, bind_to_primitive.
  destruct (printable (shown (theme_colors (mem w)) "ui")); [|done].
  cbn [andb].
  pose proof (is_null_spec (theme_typography (mem w))) as Ht.
  destruct (is_null (theme_typography (mem w))); [by rewrite Ht|].
  rewrite !(prop_not_null _ _ Ht). cbn [lift negb andb].
  rewrite bind_ret_l, bind_to_primitive.
  destruct (printable (shown (theme_typography (mem w)) "fontFamily"));
    [|done].
  rewrite bind_ret_l, bind_to_primitive.
  by destruct (printable (shown (theme_typography (mem w)) "baseFontSize")).
Qed.

(** [setScale] returns when the bounds and the step of the scale and the
    value convert to numbers, and throws a TypeError when they do not,
    changing nothing. *)
Lemma setScale_at (E : env) (value : jsval) (w : world) :
  setScale E value w
  = if can_show (theme_scale (mem w)) ["min"; "max"; "step"]
       && converts value
    then
      let stepped :=
        round_to_step E (shown (theme_scale (mem w)) "min")
          (shown (theme_scale (mem w)) "max")
          (shown (theme_scale (mem w)) "step") value in
      (Ret stepped,
       set_mem
         (mkMemory (theme_colors (mem w)) (theme_typography (mem w))
            (assign_prop (theme_scale (mem w)) "current" stepped) stepped) w)
    else (Throw TypeError, w).
Proof.
  unfold setScale. unfold bind at 1, read_memory at 1.
  unfold can_show. cbn [forallb].
  pose proof (is_null_spec (theme_scale (mem w))) as Hs.
  destruct (is_null (theme_scale (mem w))); [by rewrite Hs|].
  rewrite !(prop_not_null _ _ Hs). cbn [lift negb andb].
  rewrite !bind_ret_l, bind_to_primitive.
  destruct (printable (shown (theme_scale (mem w)) "max"));
    [|by rewrite andb_false_r].
  rewrite bind_to_primitive. cbn [printable].
  destruct (converts value); [|by rewrite !andb_false_r].
  rewrite bind_to_primitive.
  destruct (printable (shown (theme_scale (mem w)) "min")); [|done].
  rewrite bind_to_primitive.
  by destruct (printable (shown (theme_scale (mem w)) "step")).
Qed.

Lemma applyTheme_ok (w : world) :
  appliable (mem w) = true -> applyTheme w = (Ret tt, w).
Proof.
  unfold appliable. intros H. apply andb_true_iff in H as [H _].
  by rewrite applyTheme_at, H.
Qed.

Lemma setScale_ok E (value : jsval) (w : world) :
  appliable (mem w) = true -> converts value = true ->
  exists r w', setScale E value w = (Ret r, w') /\ db w' = db w.
Proof.
  unfold appliable. intros H Hv. apply andb_true_iff in H as [_ H].
  rewrite setScale_at, H, Hv. cbv zeta. eauto.
Qed.

(** The record [updateItem] puts back goes under the key it was asked
    for. *)
Lemma store_put_forced (s : store) (k : key) (merged : obj) :
  keyPath s <> "" ->
  exists g,
    Store.put
      (if negb (String.eqb (keyPath s) "")
          && differs_from_key (Obj.get (keyPath s) merged) k
       then Obj.set (keyPath s) (key_to_js k) merged else merged) s
    = inr (k, mkStore (keyPath s) (autoIncrement s)
               (Records.put k
                  (if negb (String.eqb (keyPath s) "")
                      && differs_from_key (Obj.get (keyPath s) merged) k
                   then Obj.set (keyPath s) (key_to_js k) merged
                   else merged) (records s)) g).
Proof.
  intros Hkp. unfold Store.put, Store.extract.
  rewrite (forced_key (keyPath s) k merged Hkp), KeyFacts.to_key_to_js.
  eauto.
Qed.

(* ===================================================================== *)
(** ** An import that runs to its end *)
(* ===================================================================== *)

#[export] Instance only_preorder name : PreOrder (only name).
Proof.
  split.
  - intros w. split; [done|]. split; [done|lia].
  - intros w1 w2 w3 (Hd12 & Hm12 & Ht12) (Hd23 & Hm23 & Ht23).
    split; [|split; [congruence|lia]].
    intros n Hn. by rewrite Hd23, Hd12.
Qed.

Lemma only_ambient name : ambient (only name).
Proof.
  intros w w' Hdb _ Hm Ht. split; [|done].
  intros n _. by rewrite Hdb.
Qed.

Lemma only_apart name : apart (only name) name.
Proof.
  intros s w. split; [|split; [done|simpl; lia]].
  intros n Hn. simpl. by rewrite lookup_insert_ne.
Qed.

#[export] Hint Resolve only_ambient only_apart : frame.

Lemma section_items_of (d : obj) (name : string) (items : list jsval)
    (w : world) :
  section_of d name = Some items ->
  section_items (JObj d) name w = (Ret items, w).
Proof.
  unfold section_of. intros H.
  destruct (Obj.get name d) as [v|] eqn:Hget.
  - destruct v; try discriminate. inversion H. subst.
    by apply section_items_array.
  - inversion H. by apply section_items_absent.
Qed.

Lemma has_stores_themes d :
  has_stores d ->
  exists s, d !! "themes" = Some s /\ keyPath s = "id"
            /\ autoIncrement s = false.
Proof. intros H. apply H. apply list_elem_of_here. Qed.

Lemma has_stores_operations d :
  has_stores d ->
  exists s, d !! "operations" = Some s /\ keyPath s = "id"
            /\ autoIncrement s = true.
Proof. intros H. apply H. set_solver. Qed.

Lemma has_stores_workspaces d :
  has_stores d ->
  exists s, d !! "workspaces" = Some s /\ keyPath s = "id"
            /\ autoIncrement s = true.
Proof. intros H. apply H. set_solver. Qed.

Lemma has_stores_backups d :
  has_stores d ->
  exists s, d !! "backups" = Some s /\ keyPath s = "timestamp"
            /\ autoIncrement s = false.
Proof. intros H. apply H. set_solver. Qed.

Lemma sample_has_stores : has_stores (db Sample.in_use).
Proof.
  intros name kp auto Hin. unfold STORES in Hin.
  repeat (apply elem_of_cons in Hin as [Hin|Hin];
          [inversion Hin; subst; eexists; split;
           [vm_compute; reflexivity|done]|]).
  by apply elem_of_nil in Hin.
Defined.

Lemma respects_run {A} (R : relation world) (m : M A) (w w' : world)
    (r : outcome A) :
  respects R m -> m w = (r, w') -> R w w'.
Proof. intros H Hrun. specialize (H w). by rewrite Hrun in H. Qed.

Lemma grows_same_backups E (w w' : world) :
  db w' !! "backups" = db w !! "backups" ->
  (ticks w <= ticks w')%nat -> grows E w w'.
Proof.
  intros Hdb Ht. split; [done|].
  intros s Hs Hkp. exists s. rewrite Hdb. auto.
Qed.

Lemma only_grows E name (w w' : world) :
  name <> "backups" -> only name w w' -> grows E w w'.
Proof.
  intros Hne (Hdb & _ & Ht). apply grows_same_backups; [|done].
  apply Hdb. congruence.
Qed.

Lemma import_each_nil {handle : jsval -> M unit} {n : Z} {w w' : world}
    {r : outcome Z} :
  import_each handle [] n w = (r, w') -> w' = w.
Proof. simpl. unfold ret. intros H. by inversion H. Qed.

(** The clearing of the three stores. *)
Lemma clear_all (w : world) (st so sw : store) :
  db w !! "themes" = Some st ->
  db w !! "operations" = Some so ->
  db w !! "workspaces" = Some sw ->
  exists w2 w3 w',
    clearStore "themes" w = (Ret true, w2)
    /\ clearStore "operations" w2 = (Ret true, w3)
    /\ clearStore "workspaces" w3 = (Ret true, w')
    /\ db w' !! "themes" = Some (Store.clear st)
    /\ db w' !! "operations" = Some (Store.clear so)
    /\ db w' !! "workspaces" = Some (Store.clear sw)
    /\ db w' !! "backups" = db w !! "backups"
    /\ mem w' = mem w
    /\ ticks w' = ticks w.
Proof.
  intros Ht Ho Hw.
  eexists _, _, _. split; [by apply clearStore_at|].
  split; [apply clearStore_at; simpl; by rewrite lookup_insert_ne|].
  split; [apply clearStore_at; simpl; by rewrite !lookup_insert_ne|].
  simpl. repeat split.
  - rewrite !lookup_insert_ne by done. by rewrite lookup_insert_eq.
  - rewrite lookup_insert_ne by done. by rewrite lookup_insert_eq.
  - by rewrite lookup_insert_eq.
  - by rewrite !lookup_insert_ne by done.
Qed.

(** One step of a run: the computation at the head returns. *)
Ltac step H := rewrite (bind_ret_at _ _ _ _ _ H); cbv beta.

(* ===================================================================== *)
(** ** Export followed by import *)
(* ===================================================================== *)

Lemma key_lt_gt (a b : key) : key_lt a b -> key_compare b a = Gt.
Proof.
  unfold key_lt. intros H. rewrite KeyFacts.compare_antisym, H. done.
Qed.

(** A key above all the keys of the records goes last. *)
Lemma put_last (k : key) (v : obj) (acc : list (key * obj)) :
  Forall (fun kr => key_lt kr.1 k) acc ->
  Records.put k v acc = (acc ++ [(k, v)])%list
  /\ Records.get k acc = None.
Proof.
  induction acc as [|[k' v'] acc IH]; intros Hall; simpl; [done|].
  apply Forall_cons in Hall as [Hlt Hall]. simpl in Hlt.
  rewrite (key_lt_gt _ _ Hlt).
  destruct (IH Hall) as [-> ->]. done.
Qed.

(** Being well kept is an invariant of the store: the database as created
    has it, and [add], [put], [delete] and [clear] preserve it. *)
Lemma put_bounded (P : key -> Prop) (k : key) (v : obj)
    (rs : list (key * obj)) :
  P k -> Forall (fun kr => P kr.1) rs ->
  Forall (fun kr => P kr.1) (Records.put k v rs).
Proof.
  intros Hk. induction 1 as [|[k' v'] rs Hk' Hrs IH]; simpl.
  - by repeat constructor.
  - destruct (key_compare k k'); repeat constructor; auto.
Qed.

Lemma put_sorted (k : key) (v : obj) (rs : list (key * obj)) :
  StronglySorted (fun a b => key_lt a.1 b.1) rs ->
  StronglySorted (fun a b => key_lt a.1 b.1) (Records.put k v rs).
Proof.
  induction 1 as [|[k' v'] rs Hsorted IH Hall]; simpl.
  - repeat constructor.
  - destruct (key_compare k k') eqn:Hc.
    + apply KeyFacts.compare_eq in Hc. subst k'. by constructor.
    + constructor; [by constructor|].
      constructor; [exact Hc|].
      eapply Forall_impl; [exact Hall|].
      intros kr Hkr. exact (KeyFacts.lt_trans _ _ _ Hc Hkr).
    + constructor; [exact IH|].
      apply (put_bounded (fun x => key_lt k' x)); [|exact Hall].
      unfold key_lt. by rewrite KeyFacts.compare_antisym, Hc.
Qed.

Lemma put_keyed (kp : string) (k : key) (v : obj) (rs : list (key * obj)) :
  Obj.get kp v = Some (key_to_js k) ->
  Forall (fun kr => Obj.get kp kr.2 = Some (key_to_js kr.1)) rs ->
  Forall (fun kr => Obj.get kp kr.2 = Some (key_to_js kr.1))
         (Records.put k v rs).
Proof.
  intros Hv. induction 1 as [|[k' v'] rs Hk' Hrs IH]; simpl.
  - by repeat constructor.
  - destruct (key_compare k k'); repeat constructor; auto.
Qed.

Lemma remove_bounded (P : key * obj -> Prop) (k : key)
    (rs : list (key * obj)) :
  Forall P rs -> Forall P (Records.remove k rs).
Proof.
  induction 1 as [|[k' v'] rs Hk' Hrs IH]; simpl; [constructor|].
  destruct (key_compare k k'); try constructor; auto.
Qed.

Lemma extract_keyed (v v' : obj) (s : store) (k : key) (g : Z) :
  Store.extract v s = inr (k, v', g) ->
  Obj.get (keyPath s) v' = Some (key_to_js k).
Proof.
  unfold Store.extract. intros H.
  destruct (Obj.get (keyPath s) v) as [kv|] eqn:Hget.
  - destruct (to_key kv) as [k0|] eqn:Hkey; [|discriminate].
    inversion H; subst. by rewrite Hget, (KeyFacts.to_key_inv _ _ Hkey).
  - destruct (autoIncrement s); [|discriminate].
    destruct (MAX_GENERATED <? keygen s); [discriminate|].
    inversion H; subst. apply ObjFacts.get_set_same.
Qed.

Lemma well_kept_initDB (name : string) (s : store) :
  initDB !! name = Some s -> well_kept s.
Proof.
  intros Hs.
  assert (Hrec : records s = []).
  { unfold initDB in Hs. simpl in Hs.
    repeat (apply lookup_insert_Some in Hs as [[_ <-]|[_ Hs]]; [done|]).
    by rewrite lookup_empty in Hs. }
  unfold well_kept. rewrite Hrec. split; constructor.
Qed.

Lemma well_kept_put (v : obj) (s s' : store) (k : key) :
  well_kept s -> Store.put v s = inr (k, s') -> well_kept s'.
Proof.
  intros [Hsorted Hkeyed]. unfold Store.put.
  destruct (Store.extract v s) as [e|[[k0 v'] g]] eqn:Hex; [discriminate|].
  intros H. inversion H; subst. split; simpl.
  - by apply put_sorted.
  - apply put_keyed; [|done]. exact (extract_keyed _ _ _ _ _ Hex).
Qed.

Lemma well_kept_add (v : obj) (s s' : store) (k : key) :
  well_kept s -> Store.add v s = inr (k, s') -> well_kept s'.
Proof.
  intros Hkept Hadd. apply (well_kept_put v s s' k Hkept).
  unfold Store.add in Hadd. unfold Store.put.
  destruct (Store.extract v s) as [e|[[k0 v'] g]]; [discriminate|].
  by destruct (Records.get k0 (records s)).
Qed.

Lemma well_kept_delete (k : key) (s : store) :
  well_kept s -> well_kept (Store.delete k s).
Proof.
  intros [Hsorted Hkeyed]. split; simpl.
  - clear Hkeyed.
    induction Hsorted as [|[k' v'] rs Hs IH Hall]; simpl; [constructor|].
    destruct (key_compare k k'); [exact IH| |];
      (constructor; [exact IH|by apply remove_bounded]).
  - by apply remove_bounded.
Qed.

Lemma well_kept_clear (s : store) : well_kept (Store.clear s).
Proof. split; constructor. Qed.

(** Re-adding the records of a well-kept store in their order rebuilds
    them one after the other, and reads no clock when their timestamps are
    set. *)
Lemma import_themes_exact (E : env) (rs : list (key * obj)) :
  forall (w : world) (acc : list (key * obj)) (g : Z) (n : Z),
    db w !! "themes" = Some (mkStore "id" false acc g) ->
    Forall (fun a => Forall (fun b => key_lt a.1 b.1) rs) acc ->
    StronglySorted (fun a b => key_lt a.1 b.1) rs ->
    Forall (fun kr => Obj.get "id" kr.2 = Some (key_to_js kr.1)) rs ->
    Forall (fun r => truthy_opt (Obj.get "timestamp" r) = true) rs.*2 ->
    import_each (fun theme => addItem E "themes" theme ;; ret tt)%js
      (JObj <$> rs.*2) n w
    = (Ret (n + Z.of_nat (length rs)),
       set_db (<["themes" := mkStore "id" false (acc ++ rs) g]> (db w)) w).
Proof.
  induction rs as [|[k r] rs IH]; intros w acc g n Hdb Hacc Hsorted Hkeyed Hts.
  - simpl. unfold ret. rewrite app_nil_r, Z.add_0_r.
    rewrite insert_id by done. by destruct w.
  - apply StronglySorted_inv in Hsorted as [Hsorted Hhead].
    apply Forall_cons in Hkeyed as [Hk Hkeyed]. simpl in Hk.
    rewrite fmap_cons in Hts. apply Forall_cons in Hts as [Ht Hts].
    simpl in Ht.
    assert (Hlast : Forall (fun kr => key_lt kr.1 k) acc).
    { eapply Forall_impl; [exact Hacc|]. intros a Ha.
      by apply Forall_cons in Ha as [Ha _]. }
    destruct (put_last k r acc Hlast) as [Hput Hfree].
    assert (Hadd : Store.add r (mkStore "id" false acc g)
                   = inr (k, mkStore "id" false (acc ++ [(k, r)]) g)).
    { unfold Store.add, Store.extract. simpl.
      rewrite Hk, KeyFacts.to_key_to_js, Hfree, Hput. by destruct k. }
    pose proof (addItem_object E w "themes" _ r Hdb) as Hrun.
    rewrite (stamped_truthy E w r Ht), Hadd, Ht in Hrun.
    assert (Hstep : (addItem E "themes" (JObj r) ;; ret tt)%js w
                    = (Ret tt, set_db (<["themes" :=
                         mkStore "id" false (acc ++ [(k, r)]) g]> (db w)) w)).
    { unfold bind. by rewrite Hrun. }
    rewrite !fmap_cons. simpl.
    rewrite (bind_ret_at _ _ _ _ _ Hstep).
    rewrite (IH _ (acc ++ [(k, r)])%list g (n + 1)).
    + simpl. rewrite insert_insert_eq, <- app_assoc. simpl.
      f_equal. f_equal. lia.
    + simpl. apply lookup_insert_eq.
    + apply Forall_app. split.
      * eapply Forall_impl; [exact Hacc|]. intros a Ha.
        by apply Forall_cons in Ha as [_ Ha].
      * by repeat constructor.
    + done.
    + done.
    + done.
Qed.

(** Re-adding records to a store with a key generator that runs ahead of
    its keys numbers them from the generator on, in their order. *)
Lemma import_generated_exact (E : env) (name : string) (rs : list obj) :
  forall (w : world) (acc : list (key * obj)) (g : Z) (n : Z),
    db w !! name = Some (mkStore "id" true acc g) ->
    Forall (fun kr => exists m, kr.1 = KNum m /\ m < g) acc ->
    Forall (fun r => truthy_opt (Obj.get "timestamp" r) = true) rs ->
    g + Z.of_nat (length rs) <= MAX_GENERATED + 1 ->
    import_each (add_without_id E name) (JObj <$> rs) n w
    = (Ret (n + Z.of_nat (length rs)),
       set_db (<[name := mkStore "id" true (acc ++ renumber g rs)
                           (g + Z.of_nat (length rs))]> (db w)) w).
Proof.
  induction rs as [|r rs IH]; intros w acc g n Hdb Hacc Hts Hroom.
  - simpl. unfold ret. rewrite app_nil_r, Z.add_0_r, Z.add_0_r.
    rewrite insert_id by done. by destruct w.
  - apply Forall_cons in Hts as [Ht Hts]. simpl length in Hroom.
    set (record := Obj.omit "id" r).
    assert (Ht' : truthy_opt (Obj.get "timestamp" record) = true).
    { unfold record. by rewrite ObjFacts.get_omit_other. }
    assert (Hlast : Forall (fun kr => key_lt kr.1 (KNum g)) acc).
    { eapply Forall_impl; [exact Hacc|]. intros [k v] (m & Hk & Hm).
      simpl in *. subst k. unfold key_lt. simpl. by apply Z.compare_lt_iff. }
    destruct (put_last (KNum g) (Obj.set "id" (JNum g) record) acc Hlast)
      as [Hput Hfree].
    pose proof (store_add_generated record (mkStore "id" true acc g)
                  (ObjFacts.get_omit_same "id" r) eq_refl ltac:(simpl; lia)
                  Hfree) as Hadd.
    simpl in Hadd. rewrite Hput in Hadd.
    pose proof (addItem_object E w name _ record Hdb) as Hrun.
    rewrite (stamped_truthy E w record Ht'), Hadd, Ht' in Hrun.
    assert (Hstep : add_without_id E name (JObj r) w
                    = (Ret tt, set_db (<[name :=
                         mkStore "id" true
                           (acc ++ [(KNum g, Obj.set "id" (JNum g) record)])
                           (g + 1)]> (db w)) w)).
    { unfold add_without_id, bind. simpl own_props. fold record.
      by rewrite Hrun. }
    rewrite fmap_cons. simpl.
    rewrite (bind_ret_at _ _ _ _ _ Hstep).
    rewrite (IH _ (acc ++ [(KNum g, Obj.set "id" (JNum g) record)])%list
               (g + 1) (n + 1)).
    + simpl. rewrite insert_insert_eq, <- app_assoc. simpl.
      replace (n + 1 + Z.of_nat (length rs))
        with (n + Z.of_nat (S (length rs))) by lia.
      replace (g + 1 + Z.of_nat (length rs))
        with (g + Z.of_nat (S (length rs))) by lia.
      reflexivity.
    + simpl. apply lookup_insert_eq.
    + apply Forall_app. split.
      * eapply Forall_impl; [exact Hacc|]. intros kr (m & Hk & Hm).
        exists m. split; [done|lia].
      * repeat constructor. exists g. simpl. split; [done|lia].
    + done.
    + lia.
Qed.

Lemma renumber_same_but_id (rs : list obj) :
  forall g, same_but_id rs (renumber g rs).*2.
Proof.
  induction rs as [|r rs IH]; intros g; simpl; constructor.
  - intros p Hp. simpl.
    rewrite ObjFacts.get_set_other by congruence.
    apply ObjFacts.get_omit_other. congruence.
  - apply IH.
Qed.

(** What [exportData] offers for download, when the three stores are
    there. *)
Lemma exportData_downloads (E : env) (w : world) (st so sw : store) :
  db w !! "themes" = Some st ->
  db w !! "operations" = Some so ->
  db w !! "workspaces" = Some sw ->
  downloads (exportData E w).2
  = (downloads w
     ++ [ (backup_filename (toISOString E (now E (ticks w))),
           backup_document E (Store.getAll st) (Store.getAll so)
             (Store.getAll sw) (now E (ticks w))) ])%list.
Proof.
  intros Ht Ho Hw. unfold exportData, try_catch, getAllItems, transaction.
  unfold bind at 1. unfold bind at 1. rewrite Ht.
  unfold ret at 1. unfold bind at 1. unfold bind at 1. rewrite Ho.
  unfold ret at 1. unfold bind at 1. unfold bind at 1. rewrite Hw.
  unfold ret at 1. unfold bind at 1. unfold Date_now at 1.
  unfold bind at 1. unfold downloadJSON at 1.
  unfold bind at 1.
  match goal with
  | |- context [addItem E "backups" (JObj ?record) ?wb] =>
      assert (Hkeep : downloads (addItem E "backups" (JObj record) wb).2
                      = downloads wb);
      [|destruct (addItem E "backups" (JObj record) wb) as [[r|e|] w1];
        simpl in Hkeep; simpl; exact Hkeep]
  end.
  match goal with
  | |- context [addItem E "backups" (JObj ?record) ?wb] =>
      destruct (db wb !! "backups") as [sb|] eqn:Hsb;
      [rewrite (addItem_object E wb "backups" sb record Hsb);
       destruct (Store.add _ sb) as [e|[k s']];
       by destruct (truthy_opt _)
      |unfold addItem, bind, transaction; by rewrite Hsb]
  end.
Qed.

#[export] Instance holds_themes_preorder T : PreOrder (holds_themes T).
Proof.
  split.
  - intros w H. exact H.
  - intros w1 w2 w3 H12 H23 H. apply H23, H12, H.
Qed.

Lemma holds_themes_ambient T : ambient (holds_themes T).
Proof. intros w w' Hdb _ _ _ H. by rewrite Hdb. Qed.

Lemma holds_themes_apart T name :
  name <> "themes" -> apart (holds_themes T) name.
Proof. intros Hne s w H. simpl. by rewrite lookup_insert_ne. Qed.

Lemma holds_themes_steady T : steady (holds_themes T).
Proof. by intros m w H. Qed.

#[export] Hint Resolve holds_themes_ambient holds_themes_apart
  holds_themes_steady : frame.

(** With the default theme in the store, [loadTheme] reads it and writes
    nothing to the database. *)
Lemma loadTheme_holds E (T : store) :
  is_Some (Store.get (KStr "default") T) ->
  respects (holds_themes T) (loadTheme E).
Proof.
  intros [t Hdefault] w Hdb.
  assert (Hget : getItem "themes" (JStr "default") w = (Ret (Some t), w)).
  { unfold getItem, bind, transaction. rewrite Hdb. simpl. by rewrite Hdefault. }
  pose proof (holds_themes_ambient T) as Hamb.
  assert (Hadopt : respects (holds_themes T) (adopt (JObj t))).
  { apply respects_adopt; eauto with frame. }
  assert (Hhandler :
    respects (holds_themes T)
      (try_catch
         (saved <- (fun w =>
                      (Ret (match ods_theme w with
                            | Text p => Text p
                            | Absent => ods_theme_backup w
                            end), w)) ;;
          match saved with
          | Text parsed => themeData <- parse_slot parsed ;; adopt themeData
          | Absent => ret tt
          end)%js
         (fun _ => ret tt))).
  { unfold parse_slot. frame. }
  unfold loadTheme, try_catch at 1.
  rewrite (bind_ret_at _ _ _ _ _ Hget).
  specialize (Hadopt w Hdb).
  destruct (adopt (JObj t) w) as [[[]|e|] w1]; simpl in Hadopt; try done.
  by apply Hhandler.
Qed.

Lemma backup_document_valid (E : env) (themes operations workspaces : list obj)
    (t : Z) :
  t <> 0 ->
  validateBackup (backup_document E themes operations workspaces t)
  = inr Valid.
Proof.
  intros Ht. unfold backup_document.
  rewrite validateBackup_with_magic by reflexivity.
  cbn [Obj.get String.eqb Ascii.eqb Bool.eqb truthy_opt truthy negb defined
       default typeof_object].
  simpl. apply Z.eqb_neq in Ht. by rewrite Ht.
Qed.

Lemma clear_configured (s : store) (kp : string) (auto : bool) :
  keyPath s = kp -> autoIncrement s = auto ->
  Store.clear s = mkStore kp auto [] (keygen s).
Proof. intros <- <-. reflexivity. Qed.

(** C2 (as amended): take the three collections at export time with
    [themes] well kept and holding the default theme and with a truthy
    [timestamp] on every record, and a clock that does not read 0 at the
    export.  Importing the document that [exportData] offered for
    download, with the dialogs accepted, into a database that has the four
    stores and key generators with numbers left, leaves [themes] with
    exactly the exported records, and [operations] and [workspaces] with
    the exported records in their order, every field but the regenerated
    [id] unchanged. *)
Theorem export_then_import_restores
    (E : env) (w0 w : world) (f : file) (st so sw : store) (doc : jsval) :
  db w0 !! "themes" = Some st ->
  db w0 !! "operations" = Some so ->
  db w0 !! "workspaces" = Some sw ->
  downloads (exportData E w0).2 = (downloads w0 ++ [(file_name f, doc)])%list ->
  file_content f = Parsed doc ->
  now E (ticks w0) <> 0 ->
  restorable st so sw ->
  has_stores (db w) ->
  (forall n p, confirm E n p = true) ->
  (forall s, db w !! "operations" = Some s ->
     keygen s + Z.of_nat (length (Store.getAll so)) <= MAX_GENERATED + 1) ->
  (forall s, db w !! "workspaces" = Some s ->
     keygen s + Z.of_nat (length (Store.getAll sw)) <= MAX_GENERATED + 1) ->
  collection "themes" (importData E f w).2 = Store.getAll st
  /\ same_but_id (Store.getAll so)
       (collection "operations" (importData E f w).2)
  /\ same_but_id (Store.getAll sw)
       (collection "workspaces" (importData E f w).2).
Proof.
  intros Hst Hso Hsw Hdown Hf Hclock Hrest Hstores Haccepts Hroom_o Hroom_w.
  destruct Hrest as [Hst_kp [Hsorted Hkeyed] Hdefault Hts_t Hts_o Hts_w].
  (* the document is the one the export assembled *)
  rewrite (exportData_downloads E w0 st so sw Hst Hso Hsw) in Hdown.
  apply app_inj_tail in Hdown as [_ Hdoc].
  assert (Hdoc' : doc = backup_document E (Store.getAll st) (Store.getAll so)
                          (Store.getAll sw) (now E (ticks w0)))
    by (by inversion Hdoc).
  clear Hdoc. subst doc.
  set (t0 := now E (ticks w0)) in *.
  pose proof (backup_document_valid E (Store.getAll st) (Store.getAll so)
                (Store.getAll sw) t0 Hclock) as Hv.
  unfold backup_document in Hf, Hv.
  match type of Hv with validateBackup (JObj ?fields) = _ => set (o := fields) in * end.
  set (d := [ ("themes", JArr (JObj <$> Store.getAll st));
              ("operations", JArr (JObj <$> Store.getAll so));
              ("workspaces", JArr (JObj <$> Store.getAll sw)) ]).
  assert (Hdata : Obj.get "data" o = Some (JObj d)) by reflexivity.
  (* the stores of the importing database *)
  destruct (has_stores_themes _ Hstores) as (ti & Hti & Hti_kp & Hti_auto).
  destruct (has_stores_operations _ Hstores) as (oi & Hoi & Hoi_kp & Hoi_auto).
  destruct (has_stores_workspaces _ Hstores) as (wi & Hwi & Hwi_kp & Hwi_auto).
  (* validation, version check and dialogs *)
  rewrite (importData_valid E f w (JObj o) Hf Hv), try_catch_world.
  rewrite (import_validated_gate E f w o "9.1" Hv eq_refl).
  change (String.eqb (before_dot BACKUP_VERSION) (before_dot "9.1"))
    with true.
  assert (Hprev : previewable o = true) by reflexivity.
  rewrite Hprev. cbv iota.
  rewrite Haccepts, Hdata.
  set (w1 := after_prompt (preview_of o) w).
  (* the pre-import backup *)
  destruct (exportData_total E w1) as (r1 & w1' & Hexport).
  assert (O1 : only "backups" w1 w1').
  { eapply respects_run; [|exact Hexport].
    apply respects_exportData; eauto with frame. }
  destruct O1 as (Hdb1 & _ & _).
  (* the three stores are cleared *)
  destruct (clear_all w1' ti oi wi)
    as (w2 & w3 & w4 & Hclear1 & Hclear2 & Hclear3 & Hti4 & Hoi4 & Hwi4 & _).
  { by rewrite Hdb1. } { by rewrite Hdb1. } { by rewrite Hdb1. }
  rewrite (clear_configured ti "id" false) in Hti4 by done.
  rewrite (clear_configured oi "id" true) in Hoi4 by done.
  rewrite (clear_configured wi "id" true) in Hwi4 by done.
  (* the records go back in *)
  pose proof (import_themes_exact E (records st) w4 [] (keygen ti) 0 Hti4
                ltac:(constructor) Hsorted) as Hthemes.
  rewrite Hst_kp in Hkeyed. specialize (Hthemes Hkeyed Hts_t).
  rewrite Z.add_0_l, app_nil_l in Hthemes.
  set (T := mkStore "id" false (records st) (keygen ti)) in *.
  set (w5 := set_db (<["themes" := T]> (db w4)) w4) in *.
  pose proof (import_generated_exact E "operations" (Store.getAll so) w5 []
                (keygen oi) 0) as Hoperations.
  rewrite Z.add_0_l, app_nil_l in Hoperations.
  specialize (Hoperations ltac:(unfold w5; simpl; by rewrite lookup_insert_ne)
                ltac:(constructor) Hts_o).
  specialize (Hoperations (Hroom_o oi Hoi)).
  set (O := mkStore "id" true (renumber (keygen oi) (Store.getAll so))
              (keygen oi + Z.of_nat (length (Store.getAll so)))) in *.
  set (w6 := set_db (<["operations" := O]> (db w5)) w5) in *.
  pose proof (import_generated_exact E "workspaces" (Store.getAll sw) w6 []
                (keygen wi) 0) as Hworkspaces.
  rewrite Z.add_0_l, app_nil_l in Hworkspaces.
  specialize (Hworkspaces
                ltac:(unfold w6, w5; simpl; by rewrite !lookup_insert_ne)
                ltac:(constructor) Hts_w).
  specialize (Hworkspaces (Hroom_w wi Hwi)).
  set (W := mkStore "id" true (renumber (keygen wi) (Store.getAll sw))
              (keygen wi + Z.of_nat (length (Store.getAll sw)))) in *.
  set (w7 := set_db (<["workspaces" := W]> (db w6)) w6) in *.
  (* the run up to the import record *)
  unfold import_confirmed.
  rewrite (bind_ret_at _ _ _ _ _ Hexport).
  rewrite (bind_ret_at _ _ _ _ _ Hclear1).
  rewrite (bind_ret_at _ _ _ _ _ Hclear2).
  rewrite (bind_ret_at _ _ _ _ _ Hclear3).
  rewrite (bind_ret_at _ _ _ _ _
             (section_items_array d "themes" _ w4 eq_refl)).
  rewrite (bind_ret_at _ _ _ _ _ Hthemes).
  rewrite (bind_ret_at _ _ _ _ _
             (section_items_array d "operations" _ w5 eq_refl)).
  rewrite (bind_ret_at _ _ _ _ _ Hoperations).
  rewrite (bind_ret_at _ _ _ _ _
             (section_items_array d "workspaces" _ w6 eq_refl)).
  rewrite (bind_ret_at _ _ _ _ _ Hworkspaces).
  (* the import record and the theme reload leave the three stores alone *)
  match goal with
  | |- collection "themes" (?rest w7).2 = _ /\ _ => set (finish := rest)
  end.
  assert (Hdefault' : is_Some (Store.get (KStr "default") T)) by exact Hdefault.
  pose proof (loadTheme_holds E T Hdefault') as Hload.
  assert (HT : respects (holds_themes T) finish).
  { pose proof (holds_themes_ambient T) as Hamb. unfold finish. frame. }
  assert (Hkept : forall n, n <> "themes" -> n <> "backups" ->
                            respects (kept (fun w => db w !! n)) finish).
  { intros n Hn Hn'. pose proof (lookup_ambient n) as Hamb.
    assert (apart (kept (fun w => db w !! n)) "backups")
      by (by apply lookup_apart).
    assert (apart (kept (fun w => db w !! n)) "themes")
      by (by apply lookup_apart).
    unfold finish. frame. }
  assert (Hthemes7 : db w7 !! "themes" = Some T).
  { unfold w7, w6, w5. simpl.
    rewrite !lookup_insert_ne by done. apply lookup_insert_eq. }
  assert (Hoperations7 : db w7 !! "operations" = Some O).
  { unfold w7, w6. simpl.
    rewrite lookup_insert_ne by done. apply lookup_insert_eq. }
  assert (Hworkspaces7 : db w7 !! "workspaces" = Some W).
  { unfold w7. simpl. apply lookup_insert_eq. }
  unfold collection.
  rewrite (HT w7 Hthemes7).
  rewrite (Hkept "operations" ltac:(done) ltac:(done) w7), Hoperations7.
  rewrite (Hkept "workspaces" ltac:(done) ltac:(done) w7), Hworkspaces7.
  split; [reflexivity|].
  split; apply renumber_same_but_id.
Qed.

Lemma sample_restorable :
  restorable Sample.themes_store Sample.operations_store
    (mkStore "id" true [] 1).
Proof.
  split.
  - reflexivity.
  - split; repeat constructor.
  - by eexists.
  - repeat constructor.
  - repeat constructor.
  - constructor.
Defined.

Lemma after_export_has_stores : has_stores (db RoundTrip.after_export).
Proof.
  intros name kp auto Hin. unfold STORES in Hin.
  repeat (apply elem_of_cons in Hin as [Hin|Hin];
          [inversion Hin; subst; eexists; split;
           [vm_compute; reflexivity|done]|]).
  by apply elem_of_nil in Hin.
Defined.

Lemma export_then_import_restores_witness :
  collection "themes"
    (importData Sample.platform RoundTrip.exported RoundTrip.after_export).2
  = [Sample.default_theme]
  /\ same_but_id (Store.getAll Sample.operations_store)
       (collection "operations"
          (importData Sample.platform RoundTrip.exported
             RoundTrip.after_export).2).
Proof.
  destruct (export_then_import_restores Sample.platform Sample.in_use
              RoundTrip.after_export RoundTrip.exported
              Sample.themes_store Sample.operations_store
              (mkStore "id" true [] 1) RoundTrip.document)
    as (Hthemes & Hoperations & _).
  - vm_compute. reflexivity.
  - vm_compute. reflexivity.
  - vm_compute. reflexivity.
  - vm_compute. reflexivity.
  - reflexivity.
  - vm_compute. discriminate.
  - exact sample_restorable.
  - exact after_export_has_stores.
  - done.
  - intros s Hs. vm_compute in Hs. inversion Hs. subst.
    vm_compute. discriminate.
  - intros s Hs. vm_compute in Hs. inversion Hs. subst.
    vm_compute. discriminate.
  - exact (conj Hthemes Hoperations).
Defined.

(** C2 as worded fails for a database without the default theme:
    the database of a first run is exported with no theme, and after the
    import of that document [themes] holds the theme that the reload has
    stored. *)
Lemma round_trip_stores_default_theme :
  collection "themes" Sample.fresh = []
  /\ downloads RoundTrip.after_first_export
     = [(file_name RoundTrip.first_exported, RoundTrip.first_document)]
  /\ (importData Sample.platform RoundTrip.first_exported
        RoundTrip.after_first_export).1
     = Ret (ImportOk (mkCounts 0 0 0)
              "Successfully imported 0 themes, 0 operations, 0 workspaces")
  /\ collection "themes"
       (importData Sample.platform RoundTrip.first_exported
          RoundTrip.after_first_export).2
     <> [].
Proof. vm_compute. repeat split. discriminate. Qed.

(* ===================================================================== *)
(** ** Deleting and clearing *)
(* ===================================================================== *)

Lemma get_remove_other (k k' : key) (rs : list (key * obj)) :
  k <> k' -> Records.get k' (Records.remove k rs) = Records.get k' rs.
Proof.
  intros Hne. induction rs as [|[k1 v1] rs IH]; simpl; [done|].
  destruct (key_compare k k1) eqn:Hc; simpl; try by rewrite IH.
  apply KeyFacts.compare_eq in Hc. subst k1.
  destruct (key_compare k' k) eqn:Hc'; try done.
  apply KeyFacts.compare_eq in Hc'. congruence.
Qed.

Lemma remove_absent (k : key) (rs : list (key * obj)) :
  Records.get k rs = None -> Records.remove k rs = rs.
Proof.
  induction rs as [|[k1 v1] rs IH]; simpl; [done|].
  destruct (key_compare k k1); [discriminate| |]; intros H; by rewrite IH.
Qed.

Lemma set_db_same (w : world) (name : string) (s : store) :
  db w !! name = Some s -> set_db (<[name := s]> (db w)) w = w.
Proof.
  intros H. unfold set_db. rewrite (insert_id _ _ _ H). by destruct w.
Qed.

Lemma deleteItem_at (w : world) (name : string) (s : store) (k : key) :
  db w !! name = Some s ->
  deleteItem name (key_to_js k) w
  = (Ret true, set_db (<[name := Store.delete k s]> (db w)) w).
Proof.
  intros Hdb. unfold deleteItem, bind, transaction.
  by rewrite Hdb, KeyFacts.to_key_to_js.
Qed.

Lemma getItem_at (w : world) (name : string) (s : store) (k : key) :
  db w !! name = Some s ->
  getItem name (key_to_js k) w = (Ret (Store.get k s), w).
Proof.
  intros Hdb. unfold getItem, bind, transaction.
  by rewrite Hdb, KeyFacts.to_key_to_js.
Qed.

Lemma getAllItems_at (w : world) (name : string) (s : store) :
  db w !! name = Some s -> getAllItems name w = (Ret (Store.getAll s), w).
Proof.
  intros Hdb. unfold getAllItems, bind, transaction. by rewrite Hdb.
Qed.

(** X1: [deleteItem] resolves with [true]; afterwards [getItem] with the
    deleted key resolves with [undefined], and with any other key with what
    it gave before. *)
Theorem delete_then_get
    (w : world) (name : string) (s : store) (k : key) :
  db w !! name = Some s ->
  exists w' : world,
    deleteItem name (key_to_js k) w = (Ret true, w')
    /\ getItem name (key_to_js k) w' = (Ret None, w')
    /\ forall k', k' <> k ->
         getItem name (key_to_js k') w' = (Ret (Store.get k' s), w').
Proof.
  intros Hdb. eexists. split; [by apply deleteItem_at|].
  split.
  - erewrite getItem_at by (simpl; apply lookup_insert_eq).
    unfold Store.get. simpl. by rewrite RecordsFacts.get_remove_same.
  - intros k' Hne.
    erewrite getItem_at by (simpl; apply lookup_insert_eq).
    unfold Store.get. simpl. by rewrite get_remove_other.
Qed.

Lemma delete_then_get_witness :
  exists w' : world,
    deleteItem "themes" (JStr "default") Sample.in_use = (Ret true, w')
    /\ getItem "themes" (JStr "default") w' = (Ret None, w').
Proof.
  destruct (delete_then_get Sample.in_use "themes" Sample.themes_store
              (KStr "default") eq_refl) as (w' & Hdel & Hget & _).
  exists w'. split; [exact Hdel|exact Hget].
Defined.

(** X2: [deleteItem] with a key that has no record is no error: it
    resolves with [true] and the world is as before. *)
Theorem delete_missing_key_changes_nothing
    (w : world) (name : string) (s : store) (k : key) :
  db w !! name = Some s ->
  Store.get k s = None ->
  deleteItem name (key_to_js k) w = (Ret true, w).
Proof.
  intros Hdb Hget. rewrite (deleteItem_at w name s k Hdb).
  unfold Store.delete, with_records. rewrite (remove_absent _ _ Hget).
  f_equal. replace (mkStore _ _ _ _) with s by by destruct s.
  by apply set_db_same.
Qed.

Lemma delete_missing_key_changes_nothing_witness :
  deleteItem "themes" (JStr "dark") Sample.in_use
  = (Ret true, Sample.in_use).
Proof.
  apply (delete_missing_key_changes_nothing Sample.in_use "themes"
           Sample.themes_store (KStr "dark")); reflexivity.
Defined.

(** X3: [clearStore] empties the collection and does not reset its key
    generator: the first record added afterwards without a key gets the
    number after the last one handed out, not 1. *)
Theorem clear_keeps_generator
    (E : env) (w : world) (name : string) (s : store) (record : obj) :
  db w !! name = Some s ->
  autoIncrement s = true ->
  keygen s <= MAX_GENERATED ->
  Obj.get (keyPath s) (stamped E w record) = None ->
  exists w1 w2 : world,
    clearStore name w = (Ret true, w1)
    /\ getAllItems name w1 = (Ret [], w1)
    /\ addItem E name (JObj record) w1
       = (Ret (KNum (keygen s), JObj (stamped E w record)), w2)
    /\ getAllItems name w2
       = (Ret [Obj.set (keyPath s) (JNum (keygen s)) (stamped E w record)],
          w2).
Proof.
  intros Hdb Hauto Hroom Hnone.
  eexists _, _. split; [by apply clearStore_at|].
  set (w1 := set_db (<[name := Store.clear s]> (db w)) w).
  assert (Hdb1 : db w1 !! name = Some (Store.clear s))
    by (simpl; apply lookup_insert_eq).
  split; [by rewrite (getAllItems_at w1 name _ Hdb1)|].
  rewrite (addItem_object E w1 name _ record Hdb1).
  change (stamped E w1 record) with (stamped E w record).
  rewrite (store_add_generated (stamped E w record) (Store.clear s))
    by done.
  split; [reflexivity|].
  erewrite getAllItems_at by (simpl; apply lookup_insert_eq).
  reflexivity.
Qed.

Lemma clear_keeps_generator_witness :
  exists w1 w2 : world,
    clearStore "operations" Sample.in_use = (Ret true, w1)
    /\ getAllItems "operations" w1 = (Ret [], w1)
    /\ addItem Sample.platform "operations" (JObj [("type", JStr "note")]) w1
       = (Ret (KNum 2,
               JObj [("type", JStr "note");
                     ("timestamp", JNum 1700000000000)]), w2)
    /\ getAllItems "operations" w2
       = (Ret [ [("type", JStr "note"); ("timestamp", JNum 1700000000000);
                 ("id", JNum 2)] ], w2).
Proof.
  apply (clear_keeps_generator Sample.platform Sample.in_use "operations"
           Sample.operations_store [("type", JStr "note")]).
  - reflexivity.
  - reflexivity.
  - vm_compute. discriminate.
  - reflexivity.
Defined.

(* ===================================================================== *)
(** ** Adding: keys already taken, generated keys, the listing *)
(* ===================================================================== *)

(** X4: [addItem] with a record whose key is already in the store fails
    with a ConstraintError; the database is left as it was, so the record
    stored first stays. *)
Theorem add_existing_key_fails
    (E : env) (w : world) (name : string) (s : store) (record existing : obj)
    (k : key) :
  db w !! name = Some s ->
  record_key (keyPath s) (stamped E w record) = Some k ->
  Store.get k s = Some existing ->
  exists w' : world,
    addItem E name (JObj record) w = (Throw ConstraintError, w')
    /\ db w' = db w
    /\ getItem name (key_to_js k) w' = (Ret (Some existing), w').
Proof.
  intros Hdb Hkey Hget.
  rewrite (addItem_object E w name s record Hdb).
  assert (Hadd : Store.add (stamped E w record) s = inl ConstraintError).
  { unfold Store.add, Store.extract. unfold record_key in Hkey.
    destruct (Obj.get (keyPath s) (stamped E w record)); [|discriminate].
    rewrite Hkey. unfold Store.get in Hget. by rewrite Hget. }
  rewrite Hadd. eexists. split; [reflexivity|].
  assert (Hsame : db (if truthy_opt (Obj.get "timestamp" record) then w
                      else (Date_now E w).2) = db w)
    by by destruct (truthy_opt _).
  split; [exact Hsame|].
  rewrite <- Hget. apply getItem_at. by rewrite Hsame.
Qed.

Lemma add_existing_key_fails_witness :
  exists w' : world,
    addItem Sample.platform "themes"
      (JObj [("id", JStr "default"); ("colors", JNull)]) Sample.in_use
    = (Throw ConstraintError, w')
    /\ db w' = db Sample.in_use
    /\ getItem "themes" (JStr "default") w'
       = (Ret (Some Sample.default_theme), w').
Proof.
  apply (add_existing_key_fails Sample.platform Sample.in_use "themes"
           Sample.themes_store [("id", JStr "default"); ("colors", JNull)]
           Sample.default_theme (KStr "default"));
    reflexivity.
Defined.

Lemma put_get_inv (k k' : key) (v : obj) (rs : list (key * obj)) :
  is_Some (Records.get k' (Records.put k v rs)) ->
  k' = k \/ is_Some (Records.get k' rs).
Proof.
  destruct (decide (k' = k)) as [->|Hne]; [by left|].
  rewrite RecordsFacts.get_put_other by congruence. by right.
Qed.

(** In a store with a key generator, a successful [add] leaves the
    generator ahead of the keys. *)
Lemma ahead_add (v : obj) (s s' : store) (k : key) :
  autoIncrement s = true ->
  ahead s ->
  Store.add v s = inr (k, s') ->
  ahead s'.
Proof.
  intros Hauto Hahead Hadd.
  pose proof (store_add_inv _ _ _ _ Hadd) as (_ & Hrec & _ & _).
  assert (Hgen :
    (forall n, n < keygen s \/ MAX_GENERATED < keygen s ->
               n < keygen s' \/ MAX_GENERATED < keygen s')
    /\ forall n, k = KNum n ->
         n < keygen s' \/ MAX_GENERATED < keygen s').
  { unfold Store.add, Store.extract in Hadd. rewrite Hauto in Hadd.
    destruct (Obj.get (keyPath s) v) as [kv|].
    - destruct (to_key kv) as [k0|]; [|discriminate].
      destruct (Records.get k0 (records s)); [discriminate|].
      inversion Hadd; subst; clear Hadd. simpl.
      destruct k as [n| |]; try (split; [done|intros ? [=]]).
      destruct (keygen s <=? n) eqn:Hle; simpl.
      + apply Z.leb_le in Hle. split; [lia|]. intros ? [= <-]. lia.
      + apply Z.leb_gt in Hle. split; [lia|]. intros ? [= <-]. lia.
    - destruct (MAX_GENERATED <? keygen s); [discriminate|].
      destruct (Records.get (KNum (keygen s)) (records s)); [discriminate|].
      inversion Hadd; subst; clear Hadd. simpl.
      split; [lia|]. intros ? [= <-]. lia. }
  destruct Hgen as [Hold Hk].
  intros n Hn. unfold Store.get in Hn. rewrite Hrec in Hn.
  apply put_get_inv in Hn as [Heq|Hn].
  - apply Hk. by symmetry.
  - apply Hold, Hahead, Hn.
Qed.

(** X5: in a store with a key generator that is ahead of its keys and has
    numbers left, [addItem] with a record that carries no key always
    resolves, with the generator's current number, which no record holds
    yet; the generator moves on by one and stays ahead. *)
Theorem add_without_key_gets_fresh_number
    (E : env) (w : world) (name : string) (s : store) (record : obj) :
  db w !! name = Some s ->
  autoIncrement s = true ->
  ahead s ->
  keygen s <= MAX_GENERATED ->
  Obj.get (keyPath s) (stamped E w record) = None ->
  exists (w' : world) (s' : store),
    addItem E name (JObj record) w
    = (Ret (KNum (keygen s), JObj (stamped E w record)), w')
    /\ Store.get (KNum (keygen s)) s = None
    /\ db w' !! name = Some s'
    /\ keygen s' = keygen s + 1
    /\ ahead s'.
Proof.
  intros Hdb Hauto Hahead Hroom Hnone.
  assert (Hfree : Store.get (KNum (keygen s)) s = None).
  { destruct (Store.get (KNum (keygen s)) s) eqn:Hget; [|done].
    destruct (Hahead (keygen s)) as [?|?]; [by rewrite Hget|lia..]. }
  pose proof (store_add_generated _ s Hnone Hauto Hroom Hfree) as Hadd.
  rewrite (addItem_object E w name s record Hdb), Hadd.
  eexists _, _. split; [reflexivity|]. split; [exact Hfree|].
  simpl. rewrite lookup_insert_eq. split; [reflexivity|].
  split; [reflexivity|].
  exact (ahead_add _ _ _ _ Hauto Hahead Hadd).
Qed.

Lemma add_without_key_gets_fresh_number_witness :
  exists (w' : world) (s' : store),
    addItem Sample.platform "operations" (JObj [("type", JStr "note")])
      Sample.in_use
    = (Ret (KNum 2,
            JObj [("type", JStr "note"); ("timestamp", JNum 1700000000000)]),
       w')
    /\ Store.get (KNum 2) Sample.operations_store = None
    /\ db w' !! "operations" = Some s'
    /\ keygen s' = 3
    /\ ahead s'.
Proof.
  apply (add_without_key_gets_fresh_number Sample.platform Sample.in_use
           "operations" Sample.operations_store [("type", JStr "note")]).
  - reflexivity.
  - reflexivity.
  - intros n [r Hr]. left. unfold Store.get in Hr. simpl in Hr.
    destruct (Z.compare n 1) eqn:Hc; try discriminate.
    apply Z.compare_eq in Hc. subst n. reflexivity.
  - vm_compute. discriminate.
  - reflexivity.
Defined.

Lemma put_absent_perm (k : key) (v : obj) (rs : list (key * obj)) :
  Records.get k rs = None ->
  Permutation (Records.put k v rs) ((k, v) :: rs).
Proof.
  induction rs as [|[k' v'] rs IH]; simpl; [done|].
  destruct (key_compare k k') eqn:Hc; [discriminate|done|].
  intros Hget. rewrite (IH Hget). apply perm_swap.
Qed.

(** X6: when the store accepts the stamped record, [addItem] resolves and
    the listing of the collection afterwards is the listing before plus
    the record as stored: nothing is lost, nothing shows twice; and when
    the records were in key order with their keys in-line, they still
    are. *)
Theorem add_extends_listing
    (E : env) (w : world) (name : string) (s s' : store) (record : obj)
    (k : key) :
  db w !! name = Some s ->
  Store.add (stamped E w record) s = inr (k, s') ->
  exists w' : world,
    addItem E name (JObj record) w
    = (Ret (k, JObj (stamped E w record)), w')
    /\ getAllItems name w' = (Ret (Store.getAll s'), w')
    /\ Permutation (Store.getAll s')
         (as_stored s k (stamped E w record) :: Store.getAll s)
    /\ (well_kept s -> well_kept s').
Proof.
  intros Hdb Hs.
  rewrite (addItem_object E w name s record Hdb), Hs.
  eexists. split; [reflexivity|].
  split; [apply getAllItems_at; simpl; apply lookup_insert_eq|].
  pose proof (store_add_inv _ _ _ _ Hs) as (Hfree & Hrec & _ & _).
  split.
  - unfold Store.getAll. rewrite Hrec.
    by rewrite (put_absent_perm _ _ _ Hfree).
  - intros Hkept. exact (well_kept_add _ _ _ _ Hkept Hs).
Qed.

Lemma add_extends_listing_witness :
  exists w' : world,
    addItem Sample.platform "operations" (JObj [("type", JStr "note")])
      Sample.in_use
    = (Ret (KNum 2,
            JObj [("type", JStr "note"); ("timestamp", JNum 1700000000000)]),
       w')
    /\ exists l,
         getAllItems "operations" w' = (Ret l, w')
         /\ Permutation l
              ([("type", JStr "note"); ("timestamp", JNum 1700000000000);
                ("id", JNum 2)]
               :: Store.getAll Sample.operations_store).
Proof.
  destruct (add_extends_listing Sample.platform Sample.in_use "operations"
              Sample.operations_store _ [("type", JStr "note")] (KNum 2)
              eq_refl eq_refl) as (w' & Hadd & Hlist & Hperm & _).
  exists w'. split; [exact Hadd|]. eexists. split; [exact Hlist|exact Hperm].
Defined.

(* ===================================================================== *)
(** ** Updating leaves the keys alone *)
(* ===================================================================== *)

Lemma get_above (k : key) (rs : list (key * obj)) :
  Forall (fun kr => key_lt k kr.1) rs -> Records.get k rs = None.
Proof.
  induction 1 as [|[k' v'] rs Hlt _ IH]; simpl; [done|].
  unfold key_lt in Hlt. simpl in Hlt. by rewrite Hlt.
Qed.

Lemma put_present_keys (k : key) (v old : obj) (rs : list (key * obj)) :
  StronglySorted (fun a b => key_lt a.1 b.1) rs ->
  Records.get k rs = Some old ->
  (Records.put k v rs).*1 = rs.*1.
Proof.
  induction 1 as [|[k' v'] rs Hsorted IH Hall]; [done|].
  cbn [Records.put Records.get].
  destruct (key_compare k k') eqn:Hc.
  - apply KeyFacts.compare_eq in Hc. by subst k'.
  - intros Hget. rewrite get_above in Hget; [discriminate|].
    eapply Forall_impl; [exact Hall|].
    intros kr Hkr. exact (KeyFacts.lt_trans _ _ _ Hc Hkr).
  - intros Hget. rewrite !fmap_cons. f_equal. by apply IH.
Qed.

(** X7: [updateItem] on an existing key never adds or removes a record:
    the collection has the same keys in the same order afterwards, hence
    as many records, still in key order with their keys in-line. *)
Theorem update_keeps_the_keys
    (E : env) (w : world) (name : string) (s : store) (k : key)
    (existing patch : obj) :
  db w !! name = Some s ->
  keyPath s <> "" ->
  well_kept s ->
  Store.get k s = Some existing ->
  exists (updated : obj) (s' : store) (w' : world),
    updateItem E name (key_to_js k) patch w = (Ret updated, w')
    /\ db w' !! name = Some s'
    /\ (records s').*1 = (records s).*1
    /\ length (Store.getAll s') = length (Store.getAll s)
    /\ well_kept s'.
Proof.
  intros Hdb Hkp Hkept Hget.
  set (merged := Obj.set "modified" (JNum (now E (ticks w)))
                   (Obj.assign existing patch)).
  destruct (store_put_forced s k merged Hkp) as (g & Hput).
  eexists _, _, _. split.
  { unfold updateItem, bind, transaction.
    rewrite Hdb, KeyFacts.to_key_to_js, Hget. simpl.
    fold merged. rewrite Hput. reflexivity. }
  simpl. rewrite lookup_insert_eq. split; [reflexivity|].
  assert (Hkeys : (Records.put k
                     (if negb (String.eqb (keyPath s) "")
                         && differs_from_key (Obj.get (keyPath s) merged) k
                      then Obj.set (keyPath s) (key_to_js k) merged
                      else merged) (records s)).*1 = (records s).*1).
  { destruct Hkept as [Hsorted _]. by eapply put_present_keys. }
  split; [exact Hkeys|]. split.
  - unfold Store.getAll. simpl.
    rewrite !length_fmap.
    rewrite <- (length_fmap fst), Hkeys. by rewrite length_fmap.
  - exact (well_kept_put _ _ _ _ Hkept Hput).
Qed.

Lemma update_keeps_the_keys_witness :
  exists (updated : obj) (s' : store) (w' : world),
    updateItem Sample.platform "themes" (JStr "default")
      [("colors", JNull)] Sample.in_use = (Ret updated, w')
    /\ db w' !! "themes" = Some s'
    /\ (records s').*1 = [KStr "default"]
    /\ length (Store.getAll s') = 1%nat.
Proof.
  destruct (update_keeps_the_keys Sample.platform Sample.in_use "themes"
              Sample.themes_store (KStr "default") Sample.default_theme
              [("colors", JNull)])
    as (updated & s' & w' & Hrun & Hdb & Hkeys & Hlen & _).
  - reflexivity.
  - discriminate.
  - split; repeat constructor.
  - reflexivity.
  - exists updated, s', w'. split; [exact Hrun|]. split; [exact Hdb|].
    split; [exact Hkeys|exact Hlen].
Defined.

(* ===================================================================== *)
(** ** Imports that stop before the database is touched *)
(* ===================================================================== *)

(** X8: when the user declines the import preview of a valid document
    whose preview can be put into words (having accepted the
    version-mismatch dialog, if one was shown), the import fails as
    cancelled; the database, the theme and the downloads are as before:
    no pre-import backup has been made and nothing has been cleared. *)
Theorem declined_preview_changes_nothing
    (E : env) (f : file) (w : world) (o : obj) (v : string) :
  file_content f = Parsed (JObj o) ->
  validateBackup (JObj o) = inr Valid ->
  Obj.get "version" o = Some (JStr v) ->
  previewable o = true ->
  (forall n, confirm E n (VersionMismatch (JStr v)) = true) ->
  (forall n, confirm E n (preview_of o) = false) ->
  exists w' : world,
    importData E f w
    = (Ret (ImportFailed (Error "Import cancelled by user")), w')
    /\ db w' = db w
    /\ downloads w' = downloads w
    /\ mem w' = mem w
    /\ last (prompts w') = Some (preview_of o).
Proof.
  intros Hf Hv Hversion Hprev Hyes Hno.
  rewrite (importData_valid E f w (JObj o) Hf Hv).
  unfold try_catch.
  rewrite (import_validated_gate E f w o v Hv Hversion).
  cbv zeta. rewrite Hprev, !Hno, Hyes.
  destruct (String.eqb (before_dot BACKUP_VERSION) (before_dot v));
    eexists; (split; [reflexivity|]); simpl; by rewrite last_snoc.
Qed.

Lemma declined_preview_changes_nothing_witness :
  exists w' : world,
    importData Cases.cautious
      (mkFile "old.json" (Parsed (JObj Sample.old_document)))
      Sample.in_use
    = (Ret (ImportFailed (Error "Import cancelled by user")), w')
    /\ db w' = db Sample.in_use
    /\ downloads w' = downloads Sample.in_use.
Proof.
  destruct (declined_preview_changes_nothing Cases.cautious
              (mkFile "old.json" (Parsed (JObj Sample.old_document)))
              Sample.in_use Sample.old_document "8.x")
    as (w' & Hrun & Hdb & Hdl & _).
  - reflexivity.
  - reflexivity.
  - reflexivity.
  - reflexivity.
  - reflexivity.
  - reflexivity.
  - exists w'. split; [exact Hrun|]. split; [exact Hdb|exact Hdl].
Defined.

(** X9: [validateBackup] does not look at [metadata], but the preview
    reads its counts: a valid document without a metadata section (or with
    a null one) makes the import fail with a TypeError, after the version
    check and before the preview; the database, the theme and the
    downloads are as before. *)
Theorem import_without_metadata_fails
    (E : env) (f : file) (w : world) (o : obj) (v : string) :
  file_content f = Parsed (JObj o) ->
  validateBackup (JObj o) = inr Valid ->
  Obj.get "version" o = Some (JStr v) ->
  Obj.get "metadata" o = None \/ Obj.get "metadata" o = Some JNull ->
  (forall n, confirm E n (VersionMismatch (JStr v)) = true) ->
  exists w' : world,
    importData E f w = (Ret (ImportFailed TypeError), w')
    /\ db w' = db w
    /\ downloads w' = downloads w
    /\ mem w' = mem w
    /\ (String.eqb (before_dot BACKUP_VERSION) (before_dot v) = true ->
        w' = w).
Proof.
  intros Hf Hv Hversion Hmeta Hyes.
  rewrite (importData_valid E f w (JObj o) Hf Hv).
  assert (Hprev : previewable o = false).
  { unfold previewable. destruct Hmeta as [->| ->]; apply andb_false_r. }
  unfold try_catch.
  rewrite (import_validated_gate E f w o v Hv Hversion).
  cbv zeta. rewrite Hprev, Hyes.
  destruct (String.eqb (before_dot BACKUP_VERSION) (before_dot v));
    eexists; (split; [reflexivity|]); simpl; repeat split; discriminate.
Qed.

Lemma import_without_metadata_fails_witness :
  importData Sample.platform
    (mkFile "bare.json"
       (Parsed (JObj (Obj.omit "metadata" Sample.empty_document))))
    Sample.in_use
  = (Ret (ImportFailed TypeError), Sample.in_use).
Proof.
  destruct (import_without_metadata_fails Sample.platform
              (mkFile "bare.json"
                 (Parsed (JObj (Obj.omit "metadata" Sample.empty_document))))
              Sample.in_use (Obj.omit "metadata" Sample.empty_document)
              "9.1")
    as (w' & Hrun & _ & _ & _ & Hsame).
  - reflexivity.
  - reflexivity.
  - reflexivity.
  - left. reflexivity.
  - reflexivity.
  - rewrite (Hsame eq_refl) in Hrun. exact Hrun.
Defined.

(** X10: [validateBackup] accepts any truthy version, but the version
    check calls [split] on it: a valid document whose version is not a
    string (a number, say) makes the import fail with a TypeError before
    any dialog, and nothing has changed. *)
Theorem import_with_non_string_version_fails
    (E : env) (f : file) (w : world) (o : obj) (version : jsval) :
  file_content f = Parsed (JObj o) ->
  validateBackup (JObj o) = inr Valid ->
  Obj.get "version" o = Some version ->
  (forall s, version <> JStr s) ->
  importData E f w = (Ret (ImportFailed TypeError), w).
Proof.
  intros Hf Hv Hversion Hnot.
  rewrite (importData_valid E f w (JObj o) Hf Hv).
  pose proof (valid_inv o Hv) as (_ & Htv & _ & _ & _).
  assert (Hc : isCompatibleVersion (Obj.get "version" o) = inl TypeError).
  { unfold isCompatibleVersion. rewrite Htv, Hversion. simpl.
    destruct version; try done. by destruct (Hnot s). }
  unfold try_catch, import_validated. cbn [prop lift].
  rewrite !bind_ret_l, Hc. reflexivity.
Qed.

Lemma import_with_non_string_version_fails_witness :
  validateBackup (JObj (Obj.set "version" (JNum 9) Sample.empty_document))
  = inr Valid
  /\ importData Sample.platform
       (mkFile "nine.json"
          (Parsed (JObj (Obj.set "version" (JNum 9) Sample.empty_document))))
       Sample.in_use
     = (Ret (ImportFailed TypeError), Sample.in_use).
Proof.
  split; [reflexivity|].
  apply (import_with_non_string_version_fails Sample.platform
           (mkFile "nine.json"
              (Parsed (JObj (Obj.set "version" (JNum 9)
                               Sample.empty_document))))
           Sample.in_use
           (Obj.set "version" (JNum 9) Sample.empty_document) (JNum 9)).
  - reflexivity.
  - reflexivity.
  - reflexivity.
  - discriminate.
Defined.

(* ===================================================================== *)
(** ** Exporting *)
(* ===================================================================== *)

(** [exportData] when the three collections can be listed: the clock is
    read, the document is offered for download, and the outcome is that of
    storing the backup record. *)
Lemma exportData_at (E : env) (w : world) (st so sw : store) :
  db w !! "themes" = Some st ->
  db w !! "operations" = Some so ->
  db w !! "workspaces" = Some sw ->
  exportData E w
  = match addItem E "backups"
            (JObj (export_record E (Store.getAll st) (Store.getAll so)
                     (Store.getAll sw) (now E (ticks w))))
            (after_download E w) with
    | (Ret _, w') =>
        (Ret (ExportOk (backup_filename (toISOString E (now E (ticks w))))),
         w')
    | (Throw e, w') => (Ret (ExportFailed e), w')
    | (Unmodelled, w') => (Unmodelled, w')
    end.
Proof.
  intros Ht Ho Hw. unfold exportData, try_catch, getAllItems, transaction.
  unfold bind at 1. unfold bind at 1. rewrite Ht.
  unfold ret at 1. unfold bind at 1. unfold bind at 1. rewrite Ho.
  unfold ret at 1. unfold bind at 1. unfold bind at 1. rewrite Hw.
  unfold ret at 1. unfold bind at 1. unfold Date_now at 1.
  unfold bind at 1. unfold downloadJSON at 1.
  unfold bind at 1. unfold after_download, collection, export_record.
  rewrite Ht, Ho, Hw.
  cbn [db ticks prompts downloads mem ods_theme ods_theme_backup].
  match goal with
  | |- context [addItem E "backups" ?r ?wb] =>
      destruct (addItem E "backups" r wb) as [[[k d]|e|] w1]
  end; reflexivity.
Qed.

(** The run of a successful export. *)
Lemma exportData_ok (E : env) (w : world) (st so sw sb : store) :
  db w !! "themes" = Some st ->
  db w !! "operations" = Some so ->
  db w !! "workspaces" = Some sw ->
  db w !! "backups" = Some sb ->
  keyPath sb = "timestamp" ->
  now E (ticks w) <> 0 ->
  Store.get (KNum (now E (ticks w))) sb = None ->
  exists g : Z,
    exportData E w
    = (Ret (ExportOk (backup_filename (toISOString E (now E (ticks w))))),
       set_db
         (<["backups" :=
              mkStore (keyPath sb) (autoIncrement sb)
                (Records.put (KNum (now E (ticks w)))
                   (export_record E (Store.getAll st) (Store.getAll so)
                      (Store.getAll sw) (now E (ticks w)))
                   (records sb)) g]> (db w))
         (after_download E w)).
Proof.
  intros Ht Ho Hw Hb Hkp Hnow Hfree.
  rewrite (exportData_at E w st so sw Ht Ho Hw).
  set (record := export_record E (Store.getAll st) (Store.getAll so)
                   (Store.getAll sw) (now E (ticks w))).
  assert (Hstamp : truthy_opt (Obj.get "timestamp" record) = true).
  { simpl. by apply negb_true_iff, Z.eqb_neq. }
  rewrite (addItem_object E (after_download E w) "backups" sb record Hb).
  rewrite (stamped_truthy E _ record Hstamp), Hstamp.
  destruct (store_add_explicit record sb (KNum (now E (ticks w))))
    as (g & Hadd & _).
  { unfold record_key. by rewrite Hkp. }
  { exact Hfree. }
  rewrite Hadd. by exists g.
Qed.

(** X11: with the four stores in place, a clock that does not read 0 and
    no backup recorded under its reading, [exportData] succeeds: it offers
    one document for download, named after the time of the export, records
    the export in [backups] under that time with the counts of the three
    collections, and leaves every other store as it was. *)
Theorem export_succeeds
    (E : env) (w : world) (st so sw sb : store) :
  db w !! "themes" = Some st ->
  db w !! "operations" = Some so ->
  db w !! "workspaces" = Some sw ->
  db w !! "backups" = Some sb ->
  keyPath sb = "timestamp" ->
  now E (ticks w) <> 0 ->
  Store.get (KNum (now E (ticks w))) sb = None ->
  exists w' : world,
    exportData E w
    = (Ret (ExportOk (backup_filename (toISOString E (now E (ticks w))))),
       w')
    /\ downloads w'
       = (downloads w
          ++ [ (backup_filename (toISOString E (now E (ticks w))),
                backup_document E (Store.getAll st) (Store.getAll so)
                  (Store.getAll sw) (now E (ticks w))) ])%list
    /\ getItem "backups" (JNum (now E (ticks w))) w'
       = (Ret (Some (export_record E (Store.getAll st) (Store.getAll so)
                       (Store.getAll sw) (now E (ticks w)))), w')
    /\ (forall n, n <> "backups" -> db w' !! n = db w !! n)
    /\ ticks w' = S (ticks w).
Proof.
  intros Ht Ho Hw Hb Hkp Hnow Hfree.
  destruct (exportData_ok E w st so sw sb Ht Ho Hw Hb Hkp Hnow Hfree)
    as (g & ->).
  eexists. split; [reflexivity|].
  simpl. repeat split.
  - unfold collection. by rewrite Ht, Ho, Hw.
  - unfold getItem, bind, transaction. simpl. rewrite lookup_insert_eq.
    simpl. unfold Store.get. simpl.
    by rewrite RecordsFacts.get_put_same.
  - intros n Hn. by rewrite lookup_insert_ne.
Qed.

Lemma export_succeeds_witness :
  exists w' : world,
    exportData Sample.platform Sample.in_use
    = (Ret (ExportOk "ods-backup-2023-11-14T22-13-20.json"), w')
    /\ downloads w'
       = [("ods-backup-2023-11-14T22-13-20.json", RoundTrip.document)]
    /\ ticks w' = 1%nat.
Proof.
  destruct (export_succeeds Sample.platform Sample.in_use
              Sample.themes_store Sample.operations_store
              (mkStore "id" true [] 1) (mkStore "timestamp" false [] 1))
    as (w' & Hrun & Hdl & _ & _ & Hticks).
  - reflexivity.
  - reflexivity.
  - reflexivity.
  - reflexivity.
  - reflexivity.
  - vm_compute. discriminate.
  - reflexivity.
  - exists w'. split; [exact Hrun|]. split; [exact Hdl|exact Hticks].
Defined.

(** X12: an export in the very millisecond of an earlier one fails with a
    ConstraintError, since [backups] is keyed by the time of the export;
    the document has been offered for download all the same, and the
    database is as before. *)
Theorem export_in_same_millisecond_fails
    (E : env) (w : world) (st so sw sb : store) (earlier : obj) :
  db w !! "themes" = Some st ->
  db w !! "operations" = Some so ->
  db w !! "workspaces" = Some sw ->
  db w !! "backups" = Some sb ->
  keyPath sb = "timestamp" ->
  now E (ticks w) <> 0 ->
  Store.get (KNum (now E (ticks w))) sb = Some earlier ->
  exportData E w
  = (Ret (ExportFailed ConstraintError), after_download E w).
Proof.
  intros Ht Ho Hw Hb Hkp Hnow Hheld.
  rewrite (exportData_at E w st so sw Ht Ho Hw).
  set (record := export_record E (Store.getAll st) (Store.getAll so)
                   (Store.getAll sw) (now E (ticks w))).
  assert (Hstamp : truthy_opt (Obj.get "timestamp" record) = true).
  { simpl. by apply negb_true_iff, Z.eqb_neq. }
  rewrite (addItem_object E (after_download E w) "backups" sb record Hb).
  rewrite (stamped_truthy E _ record Hstamp), Hstamp.
  assert (Hadd : Store.add record sb = inl ConstraintError).
  { unfold Store.add, Store.extract. rewrite Hkp. simpl.
    unfold Store.get in Hheld. by rewrite Hheld. }
  by rewrite Hadd.
Qed.

Lemma export_in_same_millisecond_fails_witness :
  exportData Sample.platform Sample.clock_repeats
  = (Ret (ExportFailed ConstraintError),
     after_download Sample.platform Sample.clock_repeats)
  /\ db (after_download Sample.platform Sample.clock_repeats)
     = db Sample.clock_repeats
  /\ length (downloads (after_download Sample.platform Sample.clock_repeats))
     = 1%nat.
Proof.
  split; [|split; reflexivity].
  eapply (export_in_same_millisecond_fails Sample.platform
            Sample.clock_repeats Sample.themes_store Sample.operations_store
            (mkStore "id" true [] 1)).
  - reflexivity.
  - reflexivity.
  - reflexivity.
  - reflexivity.
  - reflexivity.
  - vm_compute. discriminate.
  - reflexivity.
Defined.

(** X13: when one of the three collections has no store, [exportData]
    fails with the NotFoundError of the listing; nothing is offered for
    download and the world is as before. *)
Theorem export_without_store_fails
    (E : env) (w : world) (name : string) :
  name ∈ ["themes"; "operations"; "workspaces"] ->
  db w !! name = None ->
  exportData E w = (Ret (ExportFailed NotFoundError), w).
Proof.
  intros Hin Hnone.
  unfold exportData, try_catch, getAllItems, transaction, bind.
  repeat (apply elem_of_cons in Hin as [->|Hin]);
    [| |
     |by apply elem_of_nil in Hin].
  - by rewrite Hnone.
  - destruct (db w !! "themes"); [|done]. simpl. by rewrite Hnone.
  - destruct (db w !! "themes"); [|done]. simpl.
    destruct (db w !! "operations"); [|done]. simpl. by rewrite Hnone.
Qed.

Lemma export_without_store_fails_witness :
  exportData Sample.platform
    (set_db (delete "workspaces" (db Sample.in_use)) Sample.in_use)
  = (Ret (ExportFailed NotFoundError),
     set_db (delete "workspaces" (db Sample.in_use)) Sample.in_use).
Proof.
  apply (export_without_store_fails Sample.platform _ "workspaces").
  - set_solver.
  - reflexivity.
Defined.

(* ===================================================================== *)
(** ** Lifting a property of the steps to the scripts *)
(* ===================================================================== *)

Lemma import_confirmed_split E f version timestamp data :
  import_confirmed E f version timestamp data
  = bind (exportData E)
      (fun _ => import_after_snapshot E f version timestamp data).
Proof. reflexivity. Qed.

Ltac lifted_step :=
  lazymatch goal with
  | |- respects _ (bind _ _) =>
      apply respects_bind; [solve [apply _]| |intros ?]
  | |- respects _ (try_catch _ _) =>
      apply respects_try_catch; [solve [apply _]| |intros ?]
  | |- respects _ (ret _) => apply respects_ret; apply _
  | |- respects _ (throw _) => apply respects_throw; apply _
  | |- respects _ unmodelled => apply respects_unmodelled; apply _
  | |- respects _ (lift _) => apply respects_lift; apply _
  | |- respects _ (match ?x with _ => _ end) => destruct x eqn:?
  | |- respects _ (fun w => (Ret _, w)) => intros ?; simpl; reflexivity
  end.

Create HintDb lifted discriminated.

Ltac lifted := repeat (first [lifted_step | solve [eauto with lifted]]).

(** The database operations are made of readings of the clock and
    writes of a store. *)
Section Primitives.

Context (R : relation world) `{!PreOrder R}.
Variable E : env.
Hypothesis Hclock : respects R (Date_now E).
Hypothesis Hcommit : forall name s, respects R (commit name s).

Lemma prim_addItem name data : respects R (addItem E name data).
Proof.
  pose proof (respects_transaction R) as Htr.
  unfold addItem. lifted.
Qed.

Lemma prim_updateItem name id data : respects R (updateItem E name id data).
Proof.
  pose proof (respects_transaction R) as Htr.
  unfold updateItem. lifted.
Qed.

Lemma prim_deleteItem name id : respects R (deleteItem name id).
Proof.
  pose proof (respects_transaction R) as Htr.
  unfold deleteItem. lifted.
Qed.

Lemma prim_clearStore name : respects R (clearStore name).
Proof.
  pose proof (respects_transaction R) as Htr.
  unfold clearStore. lifted.
Qed.

End Primitives.

(** The scripts are made of the database operations, readings of the
    clock, dialogs, downloads and writes of the memory and of
    [localStorage]. *)
Section Lifting.

Context (R : relation world) `{!PreOrder R}.
Variable E : env.
Hypothesis Hclock : respects R (Date_now E).
Hypothesis Hmemory : forall m, respects R (write_memory m).
Hypothesis Hask : forall p, respects R (ask E p).
Hypothesis Hslot :
  forall s, respects R (fun w => (Ret tt, set_ods_theme s w)).
Hypothesis Hslot_backup :
  forall s, respects R (fun w => (Ret tt, set_ods_theme_backup s w)).
Hypothesis Hdownload : forall doc name, respects R (downloadJSON doc name).
Hypothesis Hadd : forall name data, respects R (addItem E name data).
Hypothesis Hupdate :
  forall name id data, respects R (updateItem E name id data).
Hypothesis Hdelete : forall name id, respects R (deleteItem name id).
Hypothesis Hclear : forall name, respects R (clearStore name).

Lemma lifted_transaction name : respects R (transaction name).
Proof. apply respects_transaction, _. Qed.

Lemma lifted_getItem name id : respects R (getItem name id).
Proof. pose proof lifted_transaction. unfold getItem. lifted. Qed.

Lemma lifted_getAllItems name : respects R (getAllItems name).
Proof. pose proof lifted_transaction. unfold getAllItems. lifted. Qed.

Lemma lifted_saveTheme : respects R (saveTheme E).
Proof.
  pose proof lifted_getItem. unfold saveTheme, read_memory. lifted.
Qed.

Lemma lifted_adopt t : respects R (adopt t).
Proof. unfold adopt, read_memory. lifted. Qed.

Lemma lifted_loadTheme : respects R (loadTheme E).
Proof.
  pose proof lifted_getItem. pose proof lifted_saveTheme.
  pose proof lifted_adopt.
  unfold loadTheme, parse_slot. lifted.
Qed.

Lemma lifted_applyTheme : respects R applyTheme.
Proof. unfold applyTheme, read_memory. lifted. Qed.

Lemma lifted_setScale value : respects R (setScale E value).
Proof. unfold setScale, read_memory. lifted. Qed.

Lemma lifted_exportData : respects R (exportData E).
Proof. pose proof lifted_getAllItems. unfold exportData. lifted. Qed.

Lemma lifted_section_items data name : respects R (section_items data name).
Proof. unfold section_items. lifted. Qed.

Lemma lifted_import_each handle items :
  (forall item, respects R (handle item)) ->
  forall n, respects R (import_each handle items n).
Proof.
  intros Hh. induction items as [|item items IH]; intros n; simpl; lifted.
Qed.

Lemma lifted_add_without_id name item :
  respects R (add_without_id E name item).
Proof. unfold add_without_id. lifted. Qed.

Lemma lifted_import_after_snapshot f version timestamp data :
  respects R (import_after_snapshot E f version timestamp data).
Proof.
  pose proof lifted_section_items. pose proof lifted_loadTheme.
  pose proof lifted_applyTheme. pose proof lifted_setScale.
  pose proof lifted_add_without_id.
  unfold import_after_snapshot, read_memory. lifted.
  all: apply lifted_import_each; intros; lifted.
Qed.

Lemma lifted_import_confirmed f version timestamp data :
  respects R (import_confirmed E f version timestamp data).
Proof.
  rewrite import_confirmed_split.
  apply respects_bind; [apply _|apply lifted_exportData|].
  intros _. apply lifted_import_after_snapshot.
Qed.

Lemma lifted_import_validated f backup :
  respects R (import_validated E f backup).
Proof.
  pose proof lifted_import_confirmed.
  unfold import_validated. lifted.
Qed.

Lemma lifted_importData f : respects R (importData E f).
Proof.
  pose proof lifted_import_validated.
  unfold importData. lifted.
Qed.

Lemma lifted_initTheme : respects R (initTheme E).
Proof.
  pose proof lifted_loadTheme. pose proof lifted_applyTheme.
  pose proof lifted_setScale.
  unfold initTheme, read_memory. lifted.
Qed.

Lemma lifted_deleteTheme : respects R deleteTheme.
Proof. unfold deleteTheme. lifted. Qed.

Lemma lifted_getBackupHistory : respects R getBackupHistory.
Proof.
  pose proof lifted_getAllItems. unfold getBackupHistory. lifted.
Qed.

Lemma lifted_clearBackupHistory : respects R clearBackupHistory.
Proof. unfold clearBackupHistory. lifted. Qed.

End Lifting.

(** Conclude by a lifting lemma, its premises being at hand. *)
Ltac lifting lemma :=
  apply lemma; first [solve [apply _] | assumption].

(* ===================================================================== *)
(** ** What a database operation can do to the database *)
(* ===================================================================== *)

Lemma addItem_cases (E : env) (name : string) (data : jsval) (w : world) :
  db (addItem E name data w).2 = db w
  \/ exists (s s' : store) (v : obj) (k : key),
       db w !! name = Some s
       /\ Store.add v s = inr (k, s')
       /\ db (addItem E name data w).2 = <[name := s']> (db w).
Proof.
  destruct (db w !! name) as [s|] eqn:Hdb.
  2:{ left. unfold addItem, bind, transaction. by rewrite Hdb. }
  destruct data as [|b|n|t|items|record].
  6:{ rewrite (addItem_object E w name s record Hdb).
      destruct (Store.add (stamped E w record) s) as [e|[k s']] eqn:Hadd.
      - left. by destruct (truthy_opt _).
      - right. exists s, s', (stamped E w record), k.
        split; [done|]. split; [done|].
        by destruct (truthy_opt _). }
  all: left; unfold addItem, bind, transaction; rewrite Hdb; simpl;
    repeat case_match; simplify_eq; done.
Qed.

Lemma updateItem_cases (E : env) (name : string) (id : jsval) (data : obj)
    (w : world) :
  db (updateItem E name id data w).2 = db w
  \/ exists (s s' : store) (v : obj) (k : key),
       db w !! name = Some s
       /\ Store.put v s = inr (k, s')
       /\ db (updateItem E name id data w).2 = <[name := s']> (db w).
Proof.
  unfold updateItem, bind, transaction.
  destruct (db w !! name) as [s|] eqn:Hdb; [|by left]. simpl.
  destruct (to_key id) as [k|]; [|by left].
  destruct (Store.get k s) as [existing|]; [|by left]. simpl.
  match goal with
  | |- context [Store.put ?v s] =>
      destruct (Store.put v s) as [e|[k' s']] eqn:Hput
  end.
  - by left.
  - right. eexists s, s', _, k'. split; [done|]. split; [exact Hput|done].
Qed.

Lemma deleteItem_cases (name : string) (id : jsval) (w : world) :
  db (deleteItem name id w).2 = db w
  \/ exists (s : store) (k : key),
       db w !! name = Some s
       /\ db (deleteItem name id w).2 = <[name := Store.delete k s]> (db w).
Proof.
  unfold deleteItem, bind, transaction.
  destruct (db w !! name) as [s|] eqn:Hdb; [|by left]. simpl.
  destruct (to_key id) as [k|]; [|by left].
  right. by exists s, k.
Qed.

Lemma clearStore_cases (name : string) (w : world) :
  db (clearStore name w).2 = db w
  \/ exists s : store,
       db w !! name = Some s
       /\ db (clearStore name w).2 = <[name := Store.clear s]> (db w).
Proof.
  unfold clearStore, bind, transaction.
  destruct (db w !! name) as [s|] eqn:Hdb; [|by left]. simpl.
  right. by exists s.
Qed.

(* ===================================================================== *)
(** ** The database stays in order *)
(* ===================================================================== *)

Lemma store_put_inv (v : obj) (s : store) (k : key) (s' : store) :
  Store.put v s = inr (k, s') ->
  (exists v', records s' = Records.put k v' (records s))
  /\ keyPath s' = keyPath s
  /\ autoIncrement s' = autoIncrement s.
Proof.
  unfold Store.put.
  destruct (Store.extract v s) as [e|[[k0 v'] g]]; [discriminate|].
  intros H. inversion H; subst. simpl. eauto.
Qed.

Lemma add_as_put (v : obj) (s : store) (k : key) (s' : store) :
  Store.add v s = inr (k, s') -> Store.put v s = inr (k, s').
Proof.
  unfold Store.add, Store.put.
  destruct (Store.extract v s) as [e|[[k0 v'] g]]; [discriminate|].
  by destruct (Records.get k0 (records s)).
Qed.

(** In a store with a key generator, [put] leaves the generator ahead of
    the keys. *)
Lemma ahead_put (v : obj) (s s' : store) (k : key) :
  autoIncrement s = true ->
  ahead s ->
  Store.put v s = inr (k, s') ->
  ahead s'.
Proof.
  intros Hauto Hahead Hput.
  pose proof (store_put_inv _ _ _ _ Hput) as ((v' & Hrec) & _ & _).
  assert (Hgen :
    (forall n, n < keygen s \/ MAX_GENERATED < keygen s ->
               n < keygen s' \/ MAX_GENERATED < keygen s')
    /\ forall n, k = KNum n ->
         n < keygen s' \/ MAX_GENERATED < keygen s').
  { unfold Store.put, Store.extract in Hput. rewrite Hauto in Hput.
    destruct (Obj.get (keyPath s) v) as [kv|].
    - destruct (to_key kv) as [k0|]; [|discriminate].
      inversion Hput; subst; clear Hput. simpl.
      destruct k as [n| |]; try (split; [done|intros ? [=]]).
      destruct (keygen s <=? n) eqn:Hle; simpl.
      + apply Z.leb_le in Hle. split; [lia|]. intros ? [= <-]. lia.
      + apply Z.leb_gt in Hle. split; [lia|]. intros ? [= <-]. lia.
    - destruct (MAX_GENERATED <? keygen s); [discriminate|].
      inversion Hput; subst; clear Hput. simpl.
      split; [lia|]. intros ? [= <-]. lia. }
  destruct Hgen as [Hold Hk].
  intros n Hn. unfold Store.get in Hn. rewrite Hrec in Hn.
  apply put_get_inv in Hn as [Heq|Hn].
  - apply Hk. by symmetry.
  - apply Hold, Hahead, Hn.
Qed.

Lemma get_remove_inv (k k' : key) (rs : list (key * obj)) :
  is_Some (Records.get k' (Records.remove k rs)) ->
  is_Some (Records.get k' rs).
Proof.
  destruct (decide (k = k')) as [->|Hne].
  - rewrite RecordsFacts.get_remove_same. by intros [? [=]].
  - by rewrite get_remove_other.
Qed.

Lemma ahead_delete (k : key) (s : store) : ahead s -> ahead (Store.delete k s).
Proof.
  intros Hahead n Hn. unfold Store.get in Hn. simpl in Hn.
  apply get_remove_inv in Hn. exact (Hahead n Hn).
Qed.

Lemma ahead_clear (s : store) : ahead (Store.clear s).
Proof. intros n [r Hr]. discriminate. Qed.

Lemma in_order_insert (d : gmap string store) (name : string) (s' : store) :
  in_order d ->
  well_kept s' ->
  (autoIncrement s' = true -> ahead s') ->
  in_order (<[name := s']> d).
Proof.
  intros Hd Hkept Hahead n s Hs.
  apply lookup_insert_Some in Hs as [[_ <-]|[_ Hs]]; [done|].
  exact (Hd n s Hs).
Qed.

#[export] Instance keeps_order_preorder : PreOrder keeps_order.
Proof.
  split.
  - intros w H. exact H.
  - intros w1 w2 w3 H12 H23 H. apply H23, H12, H.
Qed.

Lemma keeps_order_same_db (w w' : world) : db w' = db w -> keeps_order w w'.
Proof. intros Hdb H. by rewrite Hdb. Qed.

Lemma addItem_keeps_order E name data :
  respects keeps_order (addItem E name data).
Proof.
  intros w Hord.
  destruct (addItem_cases E name data w)
    as [->|(s & s' & v & k & Hs & Hadd & ->)]; [done|].
  destruct (Hord name s Hs) as [Hkept Hahead].
  pose proof (store_add_inv _ _ _ _ Hadd) as (_ & _ & _ & Hauto).
  apply in_order_insert; [done|exact (well_kept_add _ _ _ _ Hkept Hadd)|].
  rewrite Hauto. intros Ha. exact (ahead_add _ _ _ _ Ha (Hahead Ha) Hadd).
Qed.

Lemma updateItem_keeps_order E name id data :
  respects keeps_order (updateItem E name id data).
Proof.
  intros w Hord.
  destruct (updateItem_cases E name id data w)
    as [->|(s & s' & v & k & Hs & Hput & ->)]; [done|].
  destruct (Hord name s Hs) as [Hkept Hahead].
  pose proof (store_put_inv _ _ _ _ Hput) as (_ & _ & Hauto).
  apply in_order_insert; [done|exact (well_kept_put _ _ _ _ Hkept Hput)|].
  rewrite Hauto. intros Ha. exact (ahead_put _ _ _ _ Ha (Hahead Ha) Hput).
Qed.

Lemma deleteItem_keeps_order name id :
  respects keeps_order (deleteItem name id).
Proof.
  intros w Hord.
  destruct (deleteItem_cases name id w) as [->|(s & k & Hs & ->)]; [done|].
  destruct (Hord name s Hs) as [Hkept Hahead].
  apply in_order_insert; [done|by apply well_kept_delete|].
  intros Ha. apply ahead_delete, Hahead, Ha.
Qed.

Lemma clearStore_keeps_order name : respects keeps_order (clearStore name).
Proof.
  intros w Hord.
  destruct (clearStore_cases name w) as [->|(s & Hs & ->)]; [done|].
  apply in_order_insert; [done|apply well_kept_clear|].
  intros _. apply ahead_clear.
Qed.

Lemma initDB_in_order : in_order initDB.
Proof.
  intros name s Hs. split; [exact (well_kept_initDB name s Hs)|].
  intros _ n [r Hr].
  assert (Hrec : records s = []).
  { unfold initDB in Hs. simpl in Hs.
    repeat (apply lookup_insert_Some in Hs as [[_ <-]|[_ Hs]]; [done|]).
    by rewrite lookup_empty in Hs. }
  unfold Store.get in Hr. rewrite Hrec in Hr. discriminate.
Qed.

(** X14: the database as created is in order, and every operation of the
    database module and every script built on them leaves a database that
    is in order in order: in each store the records are in key order with
    their keys in-line, and the key generator is ahead of the keys. *)
Theorem database_stays_in_order (E : env) :
  in_order initDB
  /\ (forall name data, respects keeps_order (addItem E name data))
  /\ (forall name id data, respects keeps_order (updateItem E name id data))
  /\ (forall name id, respects keeps_order (deleteItem name id))
  /\ (forall name, respects keeps_order (clearStore name))
  /\ respects keeps_order (exportData E)
  /\ (forall f, respects keeps_order (importData E f))
  /\ respects keeps_order clearBackupHistory
  /\ respects keeps_order (saveTheme E)
  /\ respects keeps_order (loadTheme E)
  /\ respects keeps_order (initTheme E)
  /\ respects keeps_order deleteTheme.
Proof.
  assert (Hclock : respects keeps_order (Date_now E))
    by (intros w; by apply keeps_order_same_db).
  assert (Hmemory : forall m, respects keeps_order (write_memory m))
    by (intros m w; by apply keeps_order_same_db).
  assert (Hask : forall p, respects keeps_order (ask E p))
    by (intros p w; by apply keeps_order_same_db).
  assert (Hslot : forall s,
    respects keeps_order (fun w => (Ret tt, set_ods_theme s w)))
    by (intros s w; by apply keeps_order_same_db).
  assert (Hslot_backup : forall s,
    respects keeps_order (fun w => (Ret tt, set_ods_theme_backup s w)))
    by (intros s w; by apply keeps_order_same_db).
  assert (Hdownload : forall doc name,
    respects keeps_order (downloadJSON doc name))
    by (intros doc name w; by apply keeps_order_same_db).
  pose proof (addItem_keeps_order E) as Hadd.
  pose proof (updateItem_keeps_order E) as Hupdate.
  pose proof deleteItem_keeps_order as Hdelete.
  pose proof clearStore_keeps_order as Hclear.
  split; [exact initDB_in_order|].
  split; [exact Hadd|]. split; [exact Hupdate|].
  split; [exact Hdelete|]. split; [exact Hclear|].
  split; [lifting lifted_exportData|].
  split; [intros f; lifting lifted_importData|].
  split; [lifting lifted_clearBackupHistory|].
  split; [lifting lifted_saveTheme|].
  split; [lifting lifted_loadTheme|].
  split; [lifting lifted_initTheme|].
  lifting lifted_deleteTheme.
Qed.

(* ===================================================================== *)
(** ** The stores stay as they were created *)
(* ===================================================================== *)

#[export] Instance same_stores_preorder : PreOrder same_stores.
Proof.
  split.
  - by intros w name.
  - intros w1 w2 w3 H12 H23 name. by rewrite H23, H12.
Qed.

Lemma same_stores_same_db (w w' : world) : db w' = db w -> same_stores w w'.
Proof. intros Hdb name. by rewrite Hdb. Qed.

Lemma same_stores_insert (w w' : world) (name : string) (s s' : store) :
  db w !! name = Some s ->
  configuration s' = configuration s ->
  db w' = <[name := s']> (db w) ->
  same_stores w w'.
Proof.
  intros Hs Hconf Hdb n. rewrite Hdb.
  destruct (decide (name = n)) as [<-|Hne].
  - rewrite lookup_insert_eq, Hs. simpl. by rewrite Hconf.
  - by rewrite lookup_insert_ne.
Qed.

Lemma addItem_same_stores E name data :
  respects same_stores (addItem E name data).
Proof.
  intros w.
  destruct (addItem_cases E name data w)
    as [Hdb|(s & s' & v & k & Hs & Hadd & Hdb)];
    [by apply same_stores_same_db|].
  pose proof (store_add_inv _ _ _ _ Hadd) as (_ & _ & Hkp & Hauto).
  eapply same_stores_insert; [exact Hs| |exact Hdb].
  unfold configuration. by rewrite Hkp, Hauto.
Qed.

Lemma updateItem_same_stores E name id data :
  respects same_stores (updateItem E name id data).
Proof.
  intros w.
  destruct (updateItem_cases E name id data w)
    as [Hdb|(s & s' & v & k & Hs & Hput & Hdb)];
    [by apply same_stores_same_db|].
  pose proof (store_put_inv _ _ _ _ Hput) as (_ & Hkp & Hauto).
  eapply same_stores_insert; [exact Hs| |exact Hdb].
  unfold configuration. by rewrite Hkp, Hauto.
Qed.

Lemma deleteItem_same_stores name id :
  respects same_stores (deleteItem name id).
Proof.
  intros w.
  destruct (deleteItem_cases name id w) as [Hdb|(s & k & Hs & Hdb)];
    [by apply same_stores_same_db|].
  exact (same_stores_insert w _ name s (Store.delete k s) Hs eq_refl Hdb).
Qed.

Lemma clearStore_same_stores name : respects same_stores (clearStore name).
Proof.
  intros w.
  destruct (clearStore_cases name w) as [Hdb|(s & Hs & Hdb)];
    [by apply same_stores_same_db|].
  exact (same_stores_insert w _ name s (Store.clear s) Hs eq_refl Hdb).
Qed.

Lemma same_stores_has_stores (w w' : world) :
  same_stores w w' -> has_stores (db w) -> has_stores (db w').
Proof.
  intros Hsame Hhas name kp auto Hin.
  destruct (Hhas name kp auto Hin) as (s & Hs & Hkp & Hauto).
  specialize (Hsame name). rewrite Hs in Hsame.
  destruct (db w' !! name) as [s'|]; [|discriminate].
  exists s'. split; [done|].
  simpl in Hsame. inversion Hsame as [[Hkp' Hauto']].
  split; congruence.
Qed.

(** X15: no operation of the database module and no script built on them
    ever creates, drops or reconfigures an object store: the same stores
    are there afterwards, each with its key path and its autoIncrement
    flag; in particular the four declared stores, once there, stay. *)
Theorem stores_stay_as_created (E : env) :
  (forall name data, respects same_stores (addItem E name data))
  /\ (forall name id data, respects same_stores (updateItem E name id data))
  /\ (forall name id, respects same_stores (deleteItem name id))
  /\ (forall name, respects same_stores (clearStore name))
  /\ respects same_stores (exportData E)
  /\ (forall f, respects same_stores (importData E f))
  /\ respects same_stores clearBackupHistory
  /\ respects same_stores (saveTheme E)
  /\ respects same_stores (loadTheme E)
  /\ respects same_stores (initTheme E)
  /\ respects same_stores deleteTheme
  /\ (forall f w,
        has_stores (db w) -> has_stores (db (importData E f w).2)).
Proof.
  assert (Hclock : respects same_stores (Date_now E))
    by (intros w; by apply same_stores_same_db).
  assert (Hmemory : forall m, respects same_stores (write_memory m))
    by (intros m w; by apply same_stores_same_db).
  assert (Hask : forall p, respects same_stores (ask E p))
    by (intros p w; by apply same_stores_same_db).
  assert (Hslot : forall s,
    respects same_stores (fun w => (Ret tt, set_ods_theme s w)))
    by (intros s w; by apply same_stores_same_db).
  assert (Hslot_backup : forall s,
    respects same_stores (fun w => (Ret tt, set_ods_theme_backup s w)))
    by (intros s w; by apply same_stores_same_db).
  assert (Hdownload : forall doc name,
    respects same_stores (downloadJSON doc name))
    by (intros doc name w; by apply same_stores_same_db).
  pose proof (addItem_same_stores E) as Hadd.
  pose proof (updateItem_same_stores E) as Hupdate.
  pose proof deleteItem_same_stores as Hdelete.
  pose proof clearStore_same_stores as Hclear.
  assert (Himport : forall f, respects same_stores (importData E f))
    by (intros f; lifting lifted_importData).
  split; [exact Hadd|]. split; [exact Hupdate|].
  split; [exact Hdelete|]. split; [exact Hclear|].
  split; [lifting lifted_exportData|].
  split; [exact Himport|].
  split; [lifting lifted_clearBackupHistory|].
  split; [lifting lifted_saveTheme|].
  split; [lifting lifted_loadTheme|].
  split; [lifting lifted_initTheme|].
  split; [lifting lifted_deleteTheme|].
  intros f w. apply same_stores_has_stores, Himport.
Qed.

(* ===================================================================== *)
(** ** What an export leaves alone, and what an import downloads *)
(* ===================================================================== *)

(** The database operations leave alone whatever neither the clock nor a
    write to a store changes. *)
Lemma addItem_keeps {X} (field : world -> X) E name data :
  (forall w, field (Date_now E w).2 = field w) ->
  (forall d w, field (set_db d w) = field w) ->
  keeps field (addItem E name data).
Proof.
  intros Hclock Hdb. apply prim_addItem; [apply _|exact Hclock|].
  intros n s w. apply Hdb.
Qed.

Lemma updateItem_keeps {X} (field : world -> X) E name id data :
  (forall w, field (Date_now E w).2 = field w) ->
  (forall d w, field (set_db d w) = field w) ->
  keeps field (updateItem E name id data).
Proof.
  intros Hclock Hdb. apply prim_updateItem; [apply _|exact Hclock|].
  intros n s w. apply Hdb.
Qed.

Lemma deleteItem_keeps {X} (field : world -> X) name id :
  (forall d w, field (set_db d w) = field w) ->
  keeps field (deleteItem name id).
Proof.
  intros Hdb. apply prim_deleteItem; [apply _|].
  intros n s w. apply Hdb.
Qed.

Lemma clearStore_keeps {X} (field : world -> X) name :
  (forall d w, field (set_db d w) = field w) ->
  keeps field (clearStore name).
Proof.
  intros Hdb. apply prim_clearStore; [apply _|].
  intros n s w. apply Hdb.
Qed.

(** X16: [exportData] changes no collection but [backups]: the stores of
    themes, operations and workspaces, the theme in memory, the dialogs
    shown and both [localStorage] items are as before, whether the export
    succeeds or fails. *)
Theorem export_touches_only_backups (E : env) (w : world) :
  (forall n, n <> "backups" -> db (exportData E w).2 !! n = db w !! n)
  /\ mem (exportData E w).2 = mem w
  /\ prompts (exportData E w).2 = prompts w
  /\ ods_theme (exportData E w).2 = ods_theme w
  /\ ods_theme_backup (exportData E w).2 = ods_theme_backup w.
Proof.
  split; [|split; [|split; [|split]]].
  - intros n Hn.
    apply (respects_exportData (kept (fun w => db w !! n))
             (lookup_ambient n) E).
    apply lookup_apart. congruence.
  - apply (respects_exportData (kept mem) mem_ambient E), mem_apart.
  - apply (respects_exportData (kept prompts) prompts_ambient E),
      prompts_apart.
  - apply (lifted_exportData (kept ods_theme)); [done|done|].
    intros name data. by apply addItem_keeps.
  - apply (lifted_exportData (kept ods_theme_backup)); [done|done|].
    intros name data. by apply addItem_keeps.
Qed.

Lemma import_after_snapshot_keeps_downloads E f version timestamp data :
  keeps downloads (import_after_snapshot E f version timestamp data).
Proof.
  apply lifted_import_after_snapshot; try done.
  - apply _.
  - intros name d. by apply addItem_keeps.
  - intros name id d. by apply updateItem_keeps.
  - intros name. by apply clearStore_keeps.
Qed.

(** X17: an import of a valid document whose preview can be put into
    words and whose dialogs are accepted offers exactly one file for
    download, before it clears anything: the pre-import backup, which
    holds the themes, operations and workspaces as they were when the
    import began.  This is so whatever the import does afterwards, and
    whether or not it succeeds. *)
Theorem import_downloads_the_old_data
    (E : env) (f : file) (w : world) (o : obj) (v : string)
    (st so sw : store) :
  file_content f = Parsed (JObj o) ->
  validateBackup (JObj o) = inr Valid ->
  Obj.get "version" o = Some (JStr v) ->
  previewable o = true ->
  db w !! "themes" = Some st ->
  db w !! "operations" = Some so ->
  db w !! "workspaces" = Some sw ->
  (forall n p, confirm E n p = true) ->
  downloads (importData E f w).2
  = (downloads w
     ++ [ (backup_filename (toISOString E (now E (ticks w))),
           backup_document E (Store.getAll st) (Store.getAll so)
             (Store.getAll sw) (now E (ticks w))) ])%list.
Proof.
  intros Hf Hv Hversion Hprev Ht Ho Hw Hyes.
  rewrite (importData_valid E f w (JObj o) Hf Hv), try_catch_world.
  rewrite (import_validated_gate E f w o v Hv Hversion).
  cbv zeta. rewrite Hprev, !Hyes.
  assert (Hgo : forall w1,
    db w1 = db w -> ticks w1 = ticks w -> downloads w1 = downloads w ->
    downloads (import_confirmed E f (Obj.get "version" o)
                 (Obj.get "timestamp" o) (Obj.get "data" o) w1).2
    = (downloads w
       ++ [ (backup_filename (toISOString E (now E (ticks w))),
             backup_document E (Store.getAll st) (Store.getAll so)
               (Store.getAll sw) (now E (ticks w))) ])%list).
  { intros w1 Hdb Hticks Hdl.
    rewrite import_confirmed_split.
    pose proof (exportData_downloads E w1 st so sw) as Hexport.
    rewrite Hdb, Hticks, Hdl in Hexport.
    specialize (Hexport Ht Ho Hw).
    destruct (exportData_total E w1) as (r & w2 & Hrun).
    rewrite Hrun in Hexport. simpl in Hexport.
    rewrite (bind_ret_at _ _ _ _ _ Hrun).
    rewrite (import_after_snapshot_keeps_downloads E f _ _ _ w2).
    exact Hexport. }
  destruct (String.eqb (before_dot BACKUP_VERSION) (before_dot v));
    by apply Hgo.
Qed.

Lemma import_downloads_the_old_data_witness :
  downloads
    (importData Sample.platform
       (mkFile "backup.json" (Parsed (JObj Sample.empty_document)))
       Sample.in_use).2
  = [ ("ods-backup-2023-11-14T22-13-20.json", RoundTrip.document) ].
Proof.
  apply (import_downloads_the_old_data Sample.platform
           (mkFile "backup.json" (Parsed (JObj Sample.empty_document)))
           Sample.in_use Sample.empty_document "9.1"
           Sample.themes_store Sample.operations_store
           (mkStore "id" true [] 1)); reflexivity.
Defined.

(* ===================================================================== *)
(** ** An import is not all-or-nothing *)
(* ===================================================================== *)

(** X18: an import is not atomic.  When a document whose preview can be
    put into words lists two themes with the same id, the stores have been cleared and the first theme
    added by the time the second one fails with a ConstraintError: the
    import reports the failure, and the database is left with that one
    theme and no operations or workspaces, whatever it held before and
    whatever else the document holds. *)
Theorem import_stops_midway_on_duplicate
    (E : env) (f : file) (w : world) (o d : obj) (v : string)
    (t1 t2 : obj) (rest : list jsval) (k : key) :
  file_content f = Parsed (JObj o) ->
  validateBackup (JObj o) = inr Valid ->
  Obj.get "version" o = Some (JStr v) ->
  previewable o = true ->
  Obj.get "data" o = Some (JObj d) ->
  Obj.get "themes" d = Some (JArr (JObj t1 :: JObj t2 :: rest)) ->
  record_key "id" t1 = Some k ->
  record_key "id" t2 = Some k ->
  truthy_opt (Obj.get "timestamp" t1) = true ->
  truthy_opt (Obj.get "timestamp" t2) = true ->
  has_stores (db w) ->
  (forall n p, confirm E n p = true) ->
  exists w' : world,
    importData E f w = (Ret (ImportFailed ConstraintError), w')
    /\ collection "themes" w' = [t1]
    /\ collection "operations" w' = []
    /\ collection "workspaces" w' = [].
Proof.
  intros Hf Hv Hversion Hprev Hdata Hthemes Hk1 Hk2 Hs1 Hs2 Hstores Hyes.
  destruct (has_stores_themes _ Hstores) as (st & Ht & Hkp & Hauto).
  destruct (has_stores_operations _ Hstores) as (so & Ho & _ & _).
  destruct (has_stores_workspaces _ Hstores) as (sw & Hw & _ & _).
  assert (Hgo : forall w1, db w1 = db w ->
    exists w',
      import_confirmed E f (Obj.get "version" o) (Obj.get "timestamp" o)
        (Obj.get "data" o) w1 = (Throw ConstraintError, w')
      /\ collection "themes" w' = [t1]
      /\ collection "operations" w' = []
      /\ collection "workspaces" w' = []).
  { intros w1 Hdb1.
    rewrite import_confirmed_split.
    destruct (exportData_total E w1) as (r & w2 & Hexport).
    rewrite (bind_ret_at _ _ _ _ _ Hexport).
    assert (Hkeep : forall n, n <> "backups" -> db w2 !! n = db w !! n).
    { intros n Hn. rewrite <- Hdb1.
      pose proof (respects_exportData (kept (fun w => db w !! n))
                    (lookup_ambient n) E
                    (lookup_apart n "backups" ltac:(congruence)) w1) as H.
      by rewrite Hexport in H. }
    destruct (clear_all w2 st so sw)
      as (w3 & w4 & w5 & Hc1 & Hc2 & Hc3 & Ht5 & Ho5 & Hw5 & _);
      [by rewrite Hkeep..|].
    unfold import_after_snapshot.
    step Hc1. step Hc2. step Hc3.
    rewrite Hdata. cbn [defined default].
    step (section_items_array d "themes" _ w5 Hthemes).
    cbn [import_each].
    (* the first theme goes in *)
    destruct (store_add_explicit t1 (Store.clear st) k) as (g & Hadd1 & Hg).
    { simpl. by rewrite Hkp. }
    { reflexivity. }
    assert (Hrun1 : addItem E "themes" (JObj t1) w5
      = (Ret (k, JObj t1),
         set_db (<["themes" := mkStore "id" false [(k, t1)] g]> (db w5)) w5)).
    { rewrite (addItem_object E w5 "themes" _ t1 Ht5).
      rewrite (stamped_truthy E w5 t1 Hs1), Hs1, Hadd1. simpl.
      by rewrite Hkp, Hauto. }
    set (w6 := set_db (<["themes" := mkStore "id" false [(k, t1)] g]>
                         (db w5)) w5) in *.
    (* the second one is refused *)
    assert (Hrun2 : addItem E "themes" (JObj t2) w6
      = (Throw ConstraintError, w6)).
    { rewrite (addItem_object E w6 "themes"
                 (mkStore "id" false [(k, t1)] g) t2)
        by (unfold w6; simpl; apply lookup_insert_eq).
      rewrite (stamped_truthy E w6 t2 Hs2), Hs2.
      unfold Store.add, Store.extract. simpl.
      unfold record_key in Hk2.
      destruct (Obj.get "id" t2) as [kv|]; [|discriminate].
      rewrite Hk2. simpl. by rewrite KeyFacts.compare_refl. }
    exists w6. split.
    - erewrite bind_throw_at; [reflexivity|].
      erewrite bind_ret_at;
        [|erewrite bind_ret_at; [reflexivity|exact Hrun1]].
      erewrite bind_throw_at; [reflexivity|].
      erewrite bind_throw_at; [reflexivity|exact Hrun2].
    - unfold collection, w6. simpl.
      rewrite lookup_insert_eq, !lookup_insert_ne by done.
      rewrite Ho5, Hw5. done. }
  rewrite (importData_valid E f w (JObj o) Hf Hv).
  unfold try_catch.
  rewrite (import_validated_gate E f w o v Hv Hversion).
  cbv zeta. rewrite Hprev, !Hyes.
  destruct (String.eqb (before_dot BACKUP_VERSION) (before_dot v)).
  - destruct (Hgo (after_prompt (preview_of o) w) eq_refl)
      as (w' & -> & Hrest).
    by exists w'.
  - destruct (Hgo (after_prompt (preview_of o)
                     (after_prompt (VersionMismatch (JStr v)) w)) eq_refl)
      as (w' & -> & Hrest).
    by exists w'.
Qed.

Lemma import_stops_midway_on_duplicate_witness :
  exists w' : world,
    importData Sample.platform
      (mkFile "twice.json" (Parsed (JObj Cases.twice_document)))
      Sample.in_use
    = (Ret (ImportFailed ConstraintError), w')
    /\ collection "themes" w' = [Sample.default_theme]
    /\ collection "operations" w' = []
    /\ collection "workspaces" w' = [].
Proof.
  apply (import_stops_midway_on_duplicate Sample.platform
           (mkFile "twice.json" (Parsed (JObj Cases.twice_document)))
           Sample.in_use Cases.twice_document
           [ ("themes",
               JArr [JObj Sample.default_theme; JObj Sample.default_theme]);
             ("operations", JArr [JObj [ ("type", JStr "task") ]]) ]
           "9.1"
           Sample.default_theme Sample.default_theme [] (KStr "default"));
    try reflexivity.
  exact sample_has_stores.
Defined.

(* ===================================================================== *)
(** ** The backup history *)
(* ===================================================================== *)

Lemma sort_insert_perm (compare : obj -> obj -> Z) (x : obj) (l : list obj) :
  Permutation (sort_insert compare x l) (x :: l).
Proof.
  induction l as [|y l IH]; simpl; [done|].
  destruct (compare x y <=? 0); [done|].
  rewrite IH. apply perm_swap.
Qed.

Lemma Array_sort_perm (compare : obj -> obj -> Z) (l : list obj) :
  Permutation (Array_sort compare l) l.
Proof.
  induction l as [|x l IH]; simpl; [done|].
  rewrite sort_insert_perm. by constructor.
Qed.

Lemma sort_insert_newest (x : obj) (l : list obj) :
  newest_to_oldest l -> newest_to_oldest (sort_insert newest_first x l).
Proof.
  unfold newest_to_oldest.
  induction 1 as [|y l Hsorted IH Hall]; simpl; [repeat constructor|].
  unfold newest_first at 1.
  destruct (_ <=? 0) eqn:Hle.
  - apply Z.leb_le in Hle. constructor; [by constructor|].
    constructor; [lia|].
    eapply Forall_impl; [exact Hall|]. simpl. intros z Hz. lia.
  - apply Z.leb_gt in Hle. constructor; [exact IH|].
    rewrite sort_insert_perm. constructor; [lia|exact Hall].
Qed.

Lemma Array_sort_newest (l : list obj) :
  newest_to_oldest (Array_sort newest_first l).
Proof.
  induction l as [|x l IH]; simpl; [constructor|].
  by apply sort_insert_newest.
Qed.

Lemma sort_insert_last (x : obj) (l : list obj) :
  Forall (fun y => 0 < newest_first x y) l ->
  sort_insert newest_first x l = (l ++ [x])%list.
Proof.
  induction 1 as [|y l Hy _ IH]; simpl; [done|].
  destruct (newest_first x y <=? 0) eqn:Hle;
    [apply Z.leb_le in Hle; lia|].
  by rewrite IH.
Qed.

(** Records listed oldest first come out of the sort in the reverse
    order. *)
Lemma Array_sort_reverse (l : list obj) :
  StronglySorted (fun a b => 0 < newest_first a b) l ->
  Array_sort newest_first l = reverse l.
Proof.
  induction 1 as [|x l _ IH Hall]; simpl; [done|].
  rewrite IH, reverse_cons. apply sort_insert_last.
  by apply Forall_reverse.
Qed.

Lemma getBackupHistory_at (w : world) (s : store) :
  db w !! "backups" = Some s ->
  Forall (fun r => is_Some (timestamp_number r)) (Store.getAll s) ->
  getBackupHistory w
  = (Ret (Array_sort newest_first (Store.getAll s)), w).
Proof.
  intros Hdb Hnum. unfold getBackupHistory, try_catch.
  rewrite (bind_ret_at _ _ _ _ _ (getAllItems_at w "backups" s Hdb)).
  assert (Hall : forallb (fun r => bool_decide (is_Some (timestamp_number r)))
                   (Store.getAll s) = true).
  { induction Hnum as [|r l Hr _ IH]; simpl; [done|].
    by rewrite (bool_decide_true _ Hr). }
  by rewrite Hall, orb_true_r.
Qed.

(** The listing of a well-kept store that is keyed by a numeric
    [timestamp] has the oldest record first. *)
Lemma backups_oldest_first (s : store) :
  keyPath s = "timestamp" ->
  well_kept s ->
  Forall (fun r => is_Some (timestamp_number r)) (Store.getAll s) ->
  StronglySorted (fun a b => 0 < newest_first a b) (Store.getAll s).
Proof.
  intros Hkp [Hsorted Hkeyed] Hnum. unfold Store.getAll in *.
  rewrite Hkp in Hkeyed.
  assert (Hts : Forall (fun kr => kr.1 = KNum (default 0 (timestamp_number kr.2)))
                  (records s)).
  { rewrite Forall_fmap in Hnum.
    assert (Hboth : Forall (fun kr : key * obj =>
              Obj.get "timestamp" kr.2 = Some (key_to_js kr.1)
              /\ is_Some (timestamp_number kr.2)) (records s))
      by (apply Forall_and; split; assumption).
    eapply Forall_impl; [exact Hboth|].
    intros [k r] [Hkey [n Hn]]. simpl in *.
    unfold timestamp_number in *. rewrite Hkey in Hn.
    destruct k as [m| |]; simpl in Hn; try discriminate.
    rewrite Hkey. simpl. done. }
  clear Hkeyed Hnum.
  induction Hsorted as [|[k r] rs Hs IH Hall]; simpl; [constructor|].
  apply Forall_cons in Hts as [Hk Hts]. simpl in Hk.
  constructor; [by apply IH|].
  apply Forall_fmap.
  assert (Hboth : Forall (fun kr : key * obj =>
            key_lt k kr.1
            /\ kr.1 = KNum (default 0 (timestamp_number kr.2))) rs)
    by (apply Forall_and; split; assumption).
  eapply Forall_impl; [exact Hboth|].
  intros [k' r'] [Hlt Hk']. cbn [fst snd compose] in *. subst k k'.
  unfold key_lt in Hlt. cbn [key_compare] in Hlt.
  rewrite Z.compare_lt_iff in Hlt. unfold newest_first. lia.
Qed.

(** X19: when every backup record carries a numeric timestamp,
    [getBackupHistory] resolves with the records of [backups], each
    exactly once, the newest first, and changes nothing; for a store in
    key order, which [backups] keyed by [timestamp] is, that is the
    listing of the store reversed. *)
Theorem history_lists_newest_first (w : world) (s : store) :
  db w !! "backups" = Some s ->
  Forall (fun r => is_Some (timestamp_number r)) (Store.getAll s) ->
  exists l : list obj,
    getBackupHistory w = (Ret l, w)
    /\ Permutation l (Store.getAll s)
    /\ newest_to_oldest l
    /\ (keyPath s = "timestamp" -> well_kept s ->
        l = reverse (Store.getAll s)).
Proof.
  intros Hdb Hnum. eexists. split; [by apply getBackupHistory_at|].
  split; [apply Array_sort_perm|]. split; [apply Array_sort_newest|].
  intros Hkp Hkept. apply Array_sort_reverse.
  by apply backups_oldest_first.
Qed.

Lemma history_lists_newest_first_witness :
  getBackupHistory Cases.two_backups
  = (Ret [Cases.newer_backup; Cases.older_backup], Cases.two_backups).
Proof.
  destruct (history_lists_newest_first Cases.two_backups Cases.backups_store)
    as (l & Hrun & _ & _ & Hrev).
  - reflexivity.
  - repeat constructor; by eexists.
  - rewrite Hrun, Hrev; [reflexivity|reflexivity|].
    split; repeat constructor.
Defined.

(** X20: [clearBackupHistory] resolves with [true] and empties the history:
    [getBackupHistory] then resolves with no record; the other stores are
    as before. *)
Theorem clear_history_empties_history (w : world) (s : store) :
  db w !! "backups" = Some s ->
  exists w' : world,
    clearBackupHistory w = (Ret true, w')
    /\ getBackupHistory w' = (Ret [], w')
    /\ forall n, n <> "backups" -> db w' !! n = db w !! n.
Proof.
  intros Hdb. eexists. split.
  { unfold clearBackupHistory, try_catch.
    by rewrite (bind_ret_at _ _ _ _ _ (clearStore_at "backups" s w Hdb)). }
  split.
  - rewrite (getBackupHistory_at _ (Store.clear s));
      [reflexivity|simpl; apply lookup_insert_eq|constructor].
  - intros n Hn. simpl. by rewrite lookup_insert_ne.
Qed.

Lemma clear_history_empties_history_witness :
  exists w' : world,
    clearBackupHistory Cases.two_backups = (Ret true, w')
    /\ getBackupHistory w' = (Ret [], w').
Proof.
  destruct (clear_history_empties_history Cases.two_backups
              Cases.backups_store eq_refl) as (w' & Hclear & Hlist & _).
  exists w'. split; [exact Hclear|exact Hlist].
Defined.

Lemma newest_to_oldest_head (h : obj) (l : list obj) (x : obj) :
  newest_to_oldest (h :: l) -> x ∈ h :: l ->
  default 0 (timestamp_number x) <= default 0 (timestamp_number h).
Proof.
  intros Hsorted Hin. apply StronglySorted_inv in Hsorted as [_ Hall].
  apply elem_of_cons in Hin as [->|Hin]; [lia|].
  rewrite Forall_forall in Hall. by apply Hall.
Qed.

(** X21: an export that succeeds at a time later than every backup on
    record shows first in the history: [getBackupHistory] then resolves
    with the record of that export, followed by the earlier records. *)
Theorem export_heads_the_history
    (E : env) (w : world) (st so sw sb : store) :
  db w !! "themes" = Some st ->
  db w !! "operations" = Some so ->
  db w !! "workspaces" = Some sw ->
  db w !! "backups" = Some sb ->
  keyPath sb = "timestamp" ->
  now E (ticks w) <> 0 ->
  Store.get (KNum (now E (ticks w))) sb = None ->
  Forall (fun r => exists n, timestamp_number r = Some n
                             /\ n < now E (ticks w)) (Store.getAll sb) ->
  exists (w' : world) (earlier : list obj),
    exportData E w
    = (Ret (ExportOk (backup_filename (toISOString E (now E (ticks w))))),
       w')
    /\ getBackupHistory w'
       = (Ret (export_record E (Store.getAll st) (Store.getAll so)
                 (Store.getAll sw) (now E (ticks w)) :: earlier), w')
    /\ Permutation earlier (Store.getAll sb).
Proof.
  intros Ht Ho Hw Hb Hkp Hnow Hfree Hold.
  destruct (exportData_ok E w st so sw sb Ht Ho Hw Hb Hkp Hnow Hfree)
    as (g & Hrun).
  set (record := export_record E (Store.getAll st) (Store.getAll so)
                   (Store.getAll sw) (now E (ticks w))) in *.
  set (s' := mkStore (keyPath sb) (autoIncrement sb)
               (Records.put (KNum (now E (ticks w))) record (records sb)) g)
    in *.
  assert (Hperm : Permutation (Store.getAll s') (record :: Store.getAll sb)).
  { unfold Store.getAll, s'. simpl.
    by rewrite (put_absent_perm _ _ _ Hfree). }
  assert (Hts : timestamp_number record = Some (now E (ticks w)))
    by reflexivity.
  assert (Hnum : Forall (fun r => is_Some (timestamp_number r))
                   (Store.getAll s')).
  { rewrite Hperm. constructor; [by eexists|].
    eapply Forall_impl; [exact Hold|]. intros r (n & -> & _). by eexists. }
  set (w' := set_db (<["backups" := s']> (db w)) (after_download E w)) in *.
  assert (Hhistory : getBackupHistory w'
    = (Ret (Array_sort newest_first (Store.getAll s')), w')).
  { apply getBackupHistory_at; [|exact Hnum].
    unfold w'. simpl. apply lookup_insert_eq. }
  pose proof (Array_sort_perm newest_first (Store.getAll s')) as Hsort.
  pose proof (Array_sort_newest (Store.getAll s')) as Hsorted.
  destruct (Array_sort newest_first (Store.getAll s')) as [|h l] eqn:Hl.
  { rewrite Hperm in Hsort. by apply Permutation_nil_cons in Hsort. }
  assert (Hin : record ∈ h :: l).
  { rewrite Hsort, Hperm. apply list_elem_of_here. }
  assert (Hh : h = record).
  { assert (Hh : h ∈ record :: Store.getAll sb).
    { rewrite <- Hperm, <- Hsort. apply list_elem_of_here. }
    apply elem_of_cons in Hh as [Hh|Hh]; [done|].
    rewrite Forall_forall in Hold.
    destruct (Hold h Hh) as (n & Hn & Hlt).
    pose proof (newest_to_oldest_head h l record Hsorted Hin) as Hle.
    rewrite Hts, Hn in Hle. simpl in Hle. lia. }
  subst h. exists w', l. split; [exact Hrun|]. split; [exact Hhistory|].
  rewrite Hperm in Hsort. by apply Permutation_cons_inv in Hsort.
Qed.

Lemma export_heads_the_history_witness :
  exists (w' : world) (earlier : list obj),
    exportData Sample.platform Cases.two_backups
    = (Ret (ExportOk "ods-backup-2023-11-14T22-13-20.json"), w')
    /\ getBackupHistory w'
       = (Ret (export_record Sample.platform
                 (Store.getAll Sample.themes_store)
                 (Store.getAll Sample.operations_store) []
                 1700000000000 :: earlier), w')
    /\ Permutation earlier [Cases.older_backup; Cases.newer_backup].
Proof.
  apply (export_heads_the_history Sample.platform Cases.two_backups
           Sample.themes_store Sample.operations_store
           (mkStore "id" true [] 1) Cases.backups_store);
    try reflexivity.
  - vm_compute. discriminate.
  - repeat constructor; eexists; (split; [reflexivity|]); vm_compute;
      reflexivity.
Defined.

(* ===================================================================== *)
(** ** Importing what was exported *)
(* ===================================================================== *)

(** X22: a document written by [exportData] at a time other than 0
    passes [validateBackup] and the version check: importing it shows one
    dialog only, the preview, with the time of the export and the numbers
    of themes, operations and workspaces that the document holds. *)
Theorem own_export_needs_only_the_preview
    (E : env) (f : file) (w : world) (themes operations workspaces : list obj)
    (t : Z) :
  file_content f
  = Parsed (backup_document E themes operations workspaces t) ->
  t <> 0 ->
  validateBackup (backup_document E themes operations workspaces t)
  = inr Valid
  /\ prompts (importData E f w).2
     = (prompts w
        ++ [ ImportPreview (JNum t) (Some (count themes))
               (Some (count operations)) (Some (count workspaces)) ])%list.
Proof.
  intros Hf Ht.
  pose proof (backup_document_valid E themes operations workspaces t Ht)
    as Hv.
  split; [exact Hv|].
  unfold backup_document in *.
  match type of Hf with
  | _ = Parsed (JObj ?doc) => set (o := doc) in *
  end.
  rewrite (importData_valid E f w (JObj o) Hf Hv), try_catch_world.
  rewrite (import_validated_gate E f w o BACKUP_VERSION Hv eq_refl).
  cbv zeta.
  change (String.eqb (before_dot BACKUP_VERSION) (before_dot BACKUP_VERSION))
    with true.
  assert (Hprev : previewable o = true) by reflexivity.
  rewrite Hprev. cbv iota.
  change (preview_of o)
    with (ImportPreview (JNum t) (Some (count themes))
            (Some (count operations)) (Some (count workspaces))).
  destruct (confirm E _ _); [|reflexivity].
  by rewrite import_confirmed_keeps_prompts.
Qed.

Lemma own_export_needs_only_the_preview_witness :
  prompts (importData Sample.platform RoundTrip.exported
             RoundTrip.after_export).2
  = [ ImportPreview (JNum 1700000000000) (Some (JNum 1)) (Some (JNum 1))
        (Some (JNum 0)) ].
Proof.
  destruct (own_export_needs_only_the_preview Sample.platform
              RoundTrip.exported RoundTrip.after_export
              (Store.getAll Sample.themes_store)
              (Store.getAll Sample.operations_store) [] 1700000000000)
    as [_ Hprompts].
  - reflexivity.
  - discriminate.
  - exact Hprompts.
Defined.

(* ===================================================================== *)
(** ** The name of a backup file *)
(* ===================================================================== *)

Lemma has_char_append (c : Ascii.ascii) (s1 s2 : string) :
  has_char c (s1 +:+ s2) = has_char c s1 || has_char c s2.
Proof.
  induction s1 as [|c' s1 IH]; simpl; [done|].
  by rewrite IH, orb_assoc.
Qed.

Lemma dashes_no_colon (s : string) : has_char ":"%char (dashes s) = false.
Proof.
  induction s as [|c s IH]; simpl; [done|]. rewrite IH, orb_false_r.
  destruct (Ascii.eqb c ":"%char) eqn:Hc; [done|exact Hc].
Qed.

Lemma dashes_length (s : string) : String.length (dashes s) = String.length s.
Proof. induction s as [|c s IH]; simpl; [done|]. by rewrite IH. Qed.

Lemma append_length (s1 s2 : string) :
  String.length (s1 +:+ s2) = (String.length s1 + String.length s2)%nat.
Proof. induction s1 as [|c s1 IH]; simpl; [done|]. by rewrite IH. Qed.

Lemma substring_length (n m : nat) (s : string) :
  String.length (String.substring n m s)
  = Nat.min m (String.length s - n).
Proof.
  revert n m. induction s as [|c s IH]; intros n m; simpl.
  - destruct n, m; reflexivity.
  - destruct n as [|n]; simpl.
    + destruct m as [|m]; simpl; [done|]. rewrite IH. lia.
    + apply IH.
Qed.

(** X23: whatever text the platform gives for the date, the name of the
    backup file holds no colon, and is as long as ["ods-backup-"], the
    first 19 characters of that text and [".json"] together. *)
Theorem backup_filename_has_no_colon (iso : string) :
  has_char ":"%char (backup_filename iso) = false
  /\ String.length (backup_filename iso)
     = (16 + Nat.min 19 (String.length iso))%nat.
Proof.
  unfold backup_filename. split.
  - by rewrite !has_char_append, dashes_no_colon.
  - rewrite !append_length, dashes_length, substring_length.
    cbn [String.length]. lia.
Qed.

(* ===================================================================== *)
(** ** Saving and loading the theme *)
(* ===================================================================== *)

Lemma getItem_default (w : world) (s : store) :
  db w !! "themes" = Some s ->
  getItem "themes" (JStr "default") w
  = (Ret (Store.get (KStr "default") s), w).
Proof. intros Hdb. exact (getItem_at w "themes" s (KStr "default") Hdb). Qed.

Lemma getItem_missing_store (w : world) (name : string) (id : jsval) :
  db w !! name = None -> getItem name id w = (Throw NotFoundError, w).
Proof. intros Hdb. unfold getItem, bind, transaction. by rewrite Hdb. Qed.

Lemma updateItem_at (E : env) (w : world) (name : string) (s : store)
    (k : key) (existing patch : obj) :
  db w !! name = Some s ->
  keyPath s <> "" ->
  Store.get k s = Some existing ->
  exists g : Z,
    updateItem E name (key_to_js k) patch w
    = (Ret (updated_record s k existing patch (now E (ticks w))),
       set_db
         (<[name := mkStore (keyPath s) (autoIncrement s)
                      (Records.put k
                         (updated_record s k existing patch
                            (now E (ticks w))) (records s)) g]> (db w))
         (Date_now E w).2).
Proof.
  intros Hdb Hkp Hget.
  destruct (store_put_forced s k
              (Obj.set "modified" (JNum (now E (ticks w)))
                 (Obj.assign existing patch)) Hkp) as (g & Hput).
  exists g. unfold updateItem, bind, transaction.
  rewrite Hdb, KeyFacts.to_key_to_js, Hget. simpl.
  unfold updated_record. cbv zeta. by rewrite Hput.
Qed.

Lemma updated_record_key (s : store) (k : key) (existing patch : obj)
    (t : Z) :
  keyPath s <> "" ->
  Obj.get (keyPath s) (updated_record s k existing patch t)
  = Some (key_to_js k).
Proof. intros Hkp. unfold updated_record. by apply forced_key. Qed.

Lemma updated_record_field (s : store) (k : key) (existing patch : obj)
    (t : Z) (p : string) (v : jsval) :
  NoDup patch.*1 ->
  p <> keyPath s -> p <> "modified" ->
  Obj.get p patch = Some v ->
  Obj.get p (updated_record s k existing patch t) = Some v.
Proof.
  intros Hnd Hp Hp' Hv. unfold updated_record. cbv zeta.
  rewrite forced_key_other by done.
  rewrite ObjFacts.get_set_other by congruence.
  by rewrite ObjFacts.get_assign, Hv.
Qed.

(** [saveTheme] with a [themes] store keyed by [id]: the theme in memory
    goes under ['default'], and into the [localStorage] backup. *)
Lemma saveTheme_at (E : env) (w : world) (s : store) :
  db w !! "themes" = Some s ->
  keyPath s = "id" ->
  exists (r d : obj) (g : Z) (w' : world),
    saveTheme E w = (Ret true, w')
    /\ shows_theme (mem w) r
    /\ db w'
       = <["themes" := mkStore "id" (autoIncrement s)
                         (Records.put (KStr "default") r (records s)) g]>
           (db w)
    /\ mem w' = mem w
    /\ ods_theme w' = ods_theme w
    /\ ods_theme_backup w' = Text (Some (JObj d))
    /\ shows_theme (mem w) d.
Proof.
  intros Hdb Hkp. unfold saveTheme, try_catch.
  unfold bind at 1. unfold read_memory at 1.
  unfold bind at 1. unfold Date_now at 1.
  set (w1 := mkWorld (db w) (S (ticks w)) (prompts w) (downloads w) (mem w)
               (ods_theme w) (ods_theme_backup w)).
  set (themeData := [ ("id", JStr "default");
                      ("colors", theme_colors (mem w));
                      ("typography", theme_typography (mem w));
                      ("scale", scale_to_save (mem w));
                      ("timestamp", JNum (now E (ticks w)));
                      ("version", JStr "9.1") ]).
  assert (Hshows : shows_theme (mem w) themeData) by by repeat split.
  assert (Hdb1 : db w1 !! "themes" = Some s) by exact Hdb.
  rewrite (bind_ret_at _ _ _ _ _ (getItem_default w1 s Hdb1)).
  destruct (Store.get (KStr "default") s) as [existing|] eqn:Hget;
    cbv beta iota.
  - (* the theme is there: update *)
    destruct (updateItem_at E w1 "themes" s (KStr "default") existing
                themeData Hdb1 ltac:(by rewrite Hkp) Hget) as (g & Hrun).
    set (r := updated_record s (KStr "default") existing themeData
                (now E (ticks w1))) in *.
    assert (Hnd : NoDup themeData.*1)
      by (apply (bool_decide_unpack _); vm_compute; exact I).
    exists r, themeData, g. eexists. split.
    { rewrite (bind_ret_at _ _ _ _ _ (bind_ret_at _ _ _ _ _ Hrun)).
      reflexivity. }
    split.
    { split.
      - unfold r. rewrite <- Hkp at 1. apply updated_record_key.
        by rewrite Hkp.
      - repeat split; apply updated_record_field;
          rewrite ?Hkp; done. }
    simpl. by rewrite Hkp.
  - (* no theme yet: add *)
    set (r := stamped E w1 themeData).
    destruct (store_add_explicit r s (KStr "default")) as (g & Hadd & _).
    { unfold record_key. rewrite Hkp. unfold r.
      by rewrite stamped_other. }
    { exact Hget. }
    assert (Hshows' : shows_theme (mem w) r).
    { unfold r. repeat split; by rewrite stamped_other. }
    assert (Hrun : addItem E "themes" (JObj themeData) w1
      = (Ret (KStr "default", JObj r),
         set_db (<["themes" := mkStore (keyPath s) (autoIncrement s)
                      (Records.put (KStr "default") r (records s)) g]>
                   (db w1))
           (if truthy_opt (Obj.get "timestamp" themeData) then w1
            else (Date_now E w1).2))).
    { rewrite (addItem_object E w1 "themes" s themeData Hdb1).
      fold r. by rewrite Hadd. }
    exists r, r, g. eexists. split.
    { rewrite (bind_ret_at _ _ _ _ _ (bind_ret_at _ _ _ _ _ Hrun)).
      reflexivity. }
    split; [exact Hshows'|].
    simpl. rewrite Hkp.
    by destruct (negb (now E (ticks w) =? 0)).
Qed.

Lemma adopt_at (t : jsval) (w : world) :
  t <> JNull -> adopt t w = (Ret tt, set_mem (adopted t (mem w)) w).
Proof.
  intros Hnull. unfold adopt, adopted.
  rewrite !(prop_not_null t) by done. cbn [lift].
  rewrite !bind_ret_l. unfold bind at 1. unfold read_memory at 1.
  cbv zeta.
  destruct (truthy_opt (shown t "scale")) eqn:Hscale.
  - pose proof (truthy_not_null _ Hscale) as Hscale'.
    rewrite (defined_truthy _ Hscale). cbn [prop_opt].
    rewrite (prop_not_null _ "current" Hscale'). cbn [lift].
    by rewrite bind_ret_l.
  - reflexivity.
Qed.

Lemma adopt_null (w : world) : adopt JNull w = (Throw TypeError, w).
Proof. reflexivity. Qed.

(** Reading back a record that shows the theme of [m] into a memory with
    the colours and the typography of [m]. *)
Lemma adopted_shown (m m' : memory) (r : obj) :
  shows_theme m r ->
  theme_colors m' = theme_colors m ->
  theme_typography m' = theme_typography m ->
  adopted (JObj r) m' = reloaded m.
Proof.
  intros (_ & Hc & Ht & Hs) Hc' Ht'.
  destruct m as [c t s cs], m' as [c' t' s' cs'].
  cbn [theme_colors theme_typography theme_scale currentScale] in *.
  subst c' t'.
  unfold adopted, shown, reloaded, scale_to_save in *.
  cbn [prop theme_colors theme_typography theme_scale currentScale] in *.
  rewrite Hc, Ht, Hs.
  cbn [truthy_opt truthy defined default id prop theme_colors
       theme_typography theme_scale currentScale].
  rewrite ObjFacts.get_set_same.
  cbn [truthy_opt truthy defined default id].
  by destruct (truthy c), (truthy t).
Qed.

Lemma saveTheme_fallback (E : env) (w : world) :
  db w !! "themes" = None ->
  saveTheme E w
  = (Ret true,
     set_ods_theme
       (Text (Some (JObj [ ("id", JStr "default");
                           ("colors", theme_colors (mem w));
                           ("typography", theme_typography (mem w));
                           ("scale", scale_to_save (mem w));
                           ("timestamp", JNum (now E (S (ticks w)))) ])))
       (Date_now E (Date_now E w).2).2).
Proof.
  intros Hdb. unfold saveTheme, try_catch.
  unfold bind at 1. unfold read_memory at 1.
  unfold bind at 1. unfold Date_now at 1.
  set (w1 := mkWorld (db w) (S (ticks w)) (prompts w) (downloads w) (mem w)
               (ods_theme w) (ods_theme_backup w)).
  assert (Hdb1 : db w1 !! "themes" = None) by exact Hdb.
  by rewrite (bind_throw_at _ _ _ _ _ (getItem_missing_store w1 _ _ Hdb1)).
Qed.

Lemma loadTheme_from_database (E : env) (w : world) (s : store) (r : obj) :
  db w !! "themes" = Some s ->
  Store.get (KStr "default") s = Some r ->
  loadTheme E w = (Ret tt, set_mem (adopted (JObj r) (mem w)) w).
Proof.
  intros Hdb Hget. unfold loadTheme, try_catch.
  rewrite (bind_ret_at _ _ _ _ _ (getItem_default w s Hdb)), Hget.
  by rewrite adopt_at.
Qed.

Lemma loadTheme_without_store (E : env) (w : world) (t : jsval) :
  db w !! "themes" = None ->
  ods_theme w = Text (Some t) ->
  t <> JNull ->
  loadTheme E w = (Ret tt, set_mem (adopted t (mem w)) w).
Proof.
  intros Hdb Hslot Hnull. unfold loadTheme, try_catch at 1.
  rewrite (bind_throw_at _ _ _ _ _ (getItem_missing_store w _ _ Hdb)).
  unfold try_catch, bind at 1. rewrite Hslot.
  unfold bind at 1, parse_slot, ret at 1.
  by rewrite adopt_at.
Qed.

(** X24: what [saveTheme] saves, [loadTheme] reads back, whether the
    database takes the theme or, for want of a [themes] store, the
    [localStorage] fallback does: the colours and the typography in memory
    are as before, the scale object carries the current scale, and the
    current scale is as before unless it was falsy, which reads back
    as 1. *)
Theorem save_then_load_restores (E : env) (w : world) :
  db w !! "themes" = None
  \/ (exists s, db w !! "themes" = Some s /\ keyPath s = "id") ->
  exists w1 w2 : world,
    saveTheme E w = (Ret true, w1)
    /\ loadTheme E w1 = (Ret tt, w2)
    /\ mem w2 = reloaded (mem w)
    /\ db w2 = db w1.
Proof.
  intros [Hnone|(s & Hdb & Hkp)].
  - rewrite (saveTheme_fallback E w Hnone).
    match goal with
    | |- context [(Ret true, ?w')] => set (w1 := w')
    end.
    assert (Hnone1 : db w1 !! "themes" = None) by exact Hnone.
    exists w1. eexists. split; [reflexivity|].
    rewrite (loadTheme_without_store E w1 _ Hnone1 eq_refl
               ltac:(discriminate)).
    split; [reflexivity|]. split; [|reflexivity].
    apply adopted_shown; by repeat split.
  - destruct (saveTheme_at E w s Hdb Hkp)
      as (r & d & g & w1 & Hsave & Hshows & Hdb1 & Hmem1 & _).
    exists w1. eexists. split; [exact Hsave|].
    erewrite (loadTheme_from_database E w1 _ r).
    + split; [reflexivity|]. split; [|reflexivity].
      simpl. rewrite Hmem1. by apply adopted_shown.
    + rewrite Hdb1. apply lookup_insert_eq.
    + unfold Store.get. simpl. apply RecordsFacts.get_put_same.
Qed.

Lemma save_then_load_restores_witness :
  exists w1 w2 : world,
    saveTheme Sample.platform Sample.in_use = (Ret true, w1)
    /\ loadTheme Sample.platform w1 = (Ret tt, w2)
    /\ mem w2 = reloaded Sample.theme_defaults.
Proof.
  destruct (save_then_load_restores Sample.platform Sample.in_use)
    as (w1 & w2 & Hsave & Hload & Hmem & _).
  - right. exists Sample.themes_store. split; reflexivity.
  - exists w1, w2. split; [exact Hsave|]. split; [exact Hload|exact Hmem].
Defined.

(** X25: without a [themes] store [saveTheme] still resolves with [true]:
    the failure of the database is caught and the theme is written to the
    [localStorage] item ['ods_theme'] instead, without a version; the
    database, the memory and the item ['ods_theme_backup'] are as
    before. *)
Theorem save_falls_back_to_localStorage (E : env) (w : world) :
  db w !! "themes" = None ->
  exists (d : obj) (w' : world),
    saveTheme E w = (Ret true, w')
    /\ ods_theme w' = Text (Some (JObj d))
    /\ shows_theme (mem w) d
    /\ Obj.get "version" d = None
    /\ db w' = db w
    /\ mem w' = mem w
    /\ ods_theme_backup w' = ods_theme_backup w.
Proof.
  intros Hnone. rewrite (saveTheme_fallback E w Hnone).
  eexists _, _. split; [reflexivity|]. by repeat split.
Qed.

Lemma save_falls_back_to_localStorage_witness :
  exists (d : obj) (w' : world),
    saveTheme Sample.platform
      (set_db (delete "themes" (db Sample.in_use)) Sample.in_use)
    = (Ret true, w')
    /\ ods_theme w' = Text (Some (JObj d))
    /\ shows_theme Sample.theme_defaults d.
Proof.
  destruct (save_falls_back_to_localStorage Sample.platform
              (set_db (delete "themes" (db Sample.in_use)) Sample.in_use))
    as (d & w' & Hsave & Hslot & Hshows & _).
  - reflexivity.
  - exists d, w'. split; [exact Hsave|]. split; [exact Hslot|exact Hshows].
Defined.

(** X26: when the database holds the default theme, [loadTheme] reads it
    and nothing else: the parts of the stored theme that are truthy
    replace those in memory, and the database and both [localStorage]
    items are as before, whatever those items hold. *)
Theorem load_prefers_the_database
    (E : env) (w : world) (s : store) (r : obj) :
  db w !! "themes" = Some s ->
  Store.get (KStr "default") s = Some r ->
  exists w' : world,
    loadTheme E w = (Ret tt, w')
    /\ mem w' = adopted (JObj r) (mem w)
    /\ db w' = db w
    /\ ods_theme w' = ods_theme w
    /\ ods_theme_backup w' = ods_theme_backup w
    /\ ticks w' = ticks w.
Proof.
  intros Hdb Hget. rewrite (loadTheme_from_database E w s r Hdb Hget).
  eexists. split; [reflexivity|]. by repeat split.
Qed.

Lemma load_prefers_the_database_witness :
  exists w' : world,
    loadTheme Sample.platform Sample.in_use = (Ret tt, w')
    /\ mem w' = Sample.theme_defaults
    /\ db w' = db Sample.in_use.
Proof.
  destruct (load_prefers_the_database Sample.platform Sample.in_use
              Sample.themes_store Sample.default_theme eq_refl eq_refl)
    as (w' & Hload & Hmem & Hdb & _).
  exists w'. split; [exact Hload|]. split; [exact Hmem|exact Hdb].
Defined.

(** The migration of a theme from [localStorage] to the database. *)
Lemma loadTheme_migration
    (E : env) (w : world) (s : store) (t : jsval) :
  db w !! "themes" = Some s ->
  keyPath s = "id" ->
  Store.get (KStr "default") s = None ->
  ods_theme w = Text (Some t) ->
  t <> JNull ->
  exists (r : obj) (w' : world),
    loadTheme E w = (Ret tt, w')
    /\ mem w' = adopted t (mem w)
    /\ ods_theme w' = Absent
    /\ getItem "themes" (JStr "default") w' = (Ret (Some r), w')
    /\ shows_theme (mem w') r.
Proof.
  intros Hdb Hkp Hget Hslot Hnull.
  set (w1 := set_mem (adopted t (mem w)) w).
  destruct (saveTheme_at E w1 s Hdb Hkp)
    as (r & d & g & w2 & Hsave & Hshows & Hdb2 & Hmem2 & _).
  exists r, (set_ods_theme Absent w2). split.
  { unfold loadTheme, try_catch.
    rewrite (bind_ret_at _ _ _ _ _ (getItem_default w s Hdb)), Hget.
    unfold bind at 1. rewrite Hslot.
    unfold bind at 1, parse_slot, ret at 1.
    rewrite (bind_ret_at _ _ _ _ _ (adopt_at t w Hnull)).
    fold w1. by rewrite (bind_ret_at _ _ _ _ _ Hsave). }
  simpl. rewrite Hmem2. split; [reflexivity|]. split; [reflexivity|].
  split; [|exact Hshows].
  erewrite getItem_default by (simpl; rewrite Hdb2; apply lookup_insert_eq).
  unfold Store.get. simpl. by rewrite RecordsFacts.get_put_same.
Qed.

(** X27: a theme left in the [localStorage] item ['ods_theme'] is
    migrated by [loadTheme] when the database holds no default theme: its
    truthy parts replace those in memory, the theme in memory is then
    stored in the database under ['default'], and the item is removed. *)
Theorem load_migrates_from_localStorage
    (E : env) (w : world) (s : store) (t : jsval) :
  db w !! "themes" = Some s ->
  keyPath s = "id" ->
  Store.get (KStr "default") s = None ->
  ods_theme w = Text (Some t) ->
  t <> JNull ->
  exists (r : obj) (w' : world),
    loadTheme E w = (Ret tt, w')
    /\ mem w' = adopted t (mem w)
    /\ ods_theme w' = Absent
    /\ getItem "themes" (JStr "default") w' = (Ret (Some r), w')
    /\ shows_theme (mem w') r.
Proof. exact (loadTheme_migration E w s t). Qed.

Lemma load_migrates_from_localStorage_witness :
  exists (r : obj) (w' : world),
    loadTheme Sample.platform Cases.legacy = (Ret tt, w')
    /\ theme_colors (mem w') = Cases.amber
    /\ ods_theme w' = Absent
    /\ getItem "themes" (JStr "default") w' = (Ret (Some r), w')
    /\ Obj.get "colors" r = Some Cases.amber.
Proof.
  destruct (load_migrates_from_localStorage Sample.platform Cases.legacy
              (mkStore "id" false [] 1) (JObj [ ("colors", Cases.amber) ]))
    as (r & w' & Hload & Hmem & Hslot & Hget & Hshows).
  - reflexivity.
  - reflexivity.
  - reflexivity.
  - reflexivity.
  - discriminate.
  - exists r, w'. split; [exact Hload|].
    split; [by rewrite Hmem|]. split; [exact Hslot|]. split; [exact Hget|].
    destruct Hshows as (_ & Hcolors & _). by rewrite Hcolors, Hmem.
Defined.

(* ===================================================================== *)
(** ** Removing the theme, and starting up *)
(* ===================================================================== *)

(** X28: [deleteTheme] removes the default theme from the database and
    both [localStorage] items, and leaves the theme in memory; the next
    [loadTheme] therefore finds nothing saved, keeps the memory as it is
    and stores the theme in memory under ['default'] again. *)
Theorem delete_then_load_saves_the_theme_again
    (E : env) (w : world) (s : store) :
  db w !! "themes" = Some s ->
  keyPath s = "id" ->
  exists (w1 w2 : world) (r : obj),
    deleteTheme w = (Ret true, w1)
    /\ getItem "themes" (JStr "default") w1 = (Ret None, w1)
    /\ ods_theme w1 = Absent
    /\ ods_theme_backup w1 = Absent
    /\ mem w1 = mem w
    /\ loadTheme E w1 = (Ret tt, w2)
    /\ mem w2 = mem w
    /\ getItem "themes" (JStr "default") w2 = (Ret (Some r), w2)
    /\ shows_theme (mem w) r.
Proof.
  intros Hdb Hkp.
  set (s1 := Store.delete (KStr "default") s).
  set (w1 := set_ods_theme_backup Absent
               (set_ods_theme Absent (set_db (<["themes" := s1]> (db w)) w))).
  assert (Hdb1 : db w1 !! "themes" = Some s1)
    by (simpl; apply lookup_insert_eq).
  assert (Hget1 : Store.get (KStr "default") s1 = None)
    by apply RecordsFacts.get_remove_same.
  destruct (saveTheme_at E w1 s1 Hdb1 Hkp)
    as (r & d & g & w2 & Hsave & Hshows & Hdb2 & Hmem2 & _).
  exists w1, w2, r. split.
  { unfold deleteTheme, try_catch.
    by rewrite (bind_ret_at _ _ _ _ _
                  (deleteItem_at w "themes" s (KStr "default") Hdb)). }
  split; [by rewrite (getItem_default w1 s1 Hdb1), Hget1|].
  split; [reflexivity|]. split; [reflexivity|]. split; [reflexivity|].
  split.
  { unfold loadTheme, try_catch.
    rewrite (bind_ret_at _ _ _ _ _ (getItem_default w1 s1 Hdb1)), Hget1.
    unfold bind at 1. cbn [ods_theme w1 set_ods_theme_backup set_ods_theme].
    by rewrite (bind_ret_at _ _ _ _ _ Hsave). }
  split; [exact Hmem2|]. split; [|exact Hshows].
  erewrite getItem_default by (rewrite Hdb2; apply lookup_insert_eq).
  unfold Store.get. simpl. by rewrite RecordsFacts.get_put_same.
Qed.

Lemma delete_then_load_saves_the_theme_again_witness :
  exists (w1 w2 : world) (r : obj),
    deleteTheme Sample.in_use = (Ret true, w1)
    /\ getItem "themes" (JStr "default") w1 = (Ret None, w1)
    /\ loadTheme Sample.platform w1 = (Ret tt, w2)
    /\ getItem "themes" (JStr "default") w2 = (Ret (Some r), w2)
    /\ shows_theme Sample.theme_defaults r.
Proof.
  destruct (delete_then_load_saves_the_theme_again Sample.platform
              Sample.in_use Sample.themes_store eq_refl eq_refl)
    as (w1 & w2 & r & Hdel & Hgone & _ & _ & _ & Hload & _ & Hget & Hshows).
  exists w1, w2, r. split; [exact Hdel|]. split; [exact Hgone|].
  split; [exact Hload|]. split; [exact Hget|exact Hshows].
Defined.

(** X29: [initTheme] first loads the theme, which always resolves.  It
    then resolves itself exactly when the theme left in memory can be
    applied: with the current scale when that converts to a number, and
    with the scale 1 of its catch block when it does not.  When the
    colours or the typography cannot be converted to text, or a bound or
    the step of the scale to a number, the catch block meets the same
    TypeError again and [initTheme] rejects. *)
Theorem init_theme_applies_what_it_loads (E : env) (w : world) :
  exists w1 : world,
    loadTheme E w = (Ret tt, w1)
    /\ if appliable (mem w1)
       then exists w' : world,
              initTheme E w = (Ret tt, w')
              /\ db w' = db w1
              /\ currentScale (mem w')
                 = round_to_step E (shown (theme_scale (mem w1)) "min")
                     (shown (theme_scale (mem w1)) "max")
                     (shown (theme_scale (mem w1)) "step")
                     (if converts (currentScale (mem w1))
                      then currentScale (mem w1) else JNum 1)
       else initTheme E w = (Throw TypeError, w1).
Proof.
  destruct (loadTheme_total E w) as ([] & w1 & Hload).
  exists w1. split; [exact Hload|].
  assert (Hrun : initTheme E w
    = match (applyTheme ;; m <- read_memory ;;
             setScale E (currentScale m) ;; ret tt)%js w1 with
      | (Throw _, w2) => (applyTheme ;; setScale E (JNum 1) ;; ret tt)%js w2
      | r => r
      end).
  { unfold initTheme, try_catch. by rewrite (bind_ret_at _ _ _ _ _ Hload). }
  rewrite Hrun. clear Hrun.
  unfold appliable.
  destruct (can_show (theme_colors (mem w1)) _
            && can_show (theme_typography (mem w1)) _) eqn:Hshow;
    cbn [andb].
  2:{ unfold bind at 1. rewrite applyTheme_at, Hshow.
      unfold bind at 1. by rewrite applyTheme_at, Hshow. }
  destruct (can_show (theme_scale (mem w1)) _) eqn:Hscale.
  2:{ unfold bind at 1. rewrite applyTheme_at, Hshow.
      unfold bind at 1, read_memory at 1.
      unfold bind at 1. rewrite setScale_at, Hscale. cbn [andb].
      unfold bind at 1. rewrite applyTheme_at, Hshow.
      unfold bind at 1. by rewrite setScale_at, Hscale. }
  unfold bind at 1. rewrite applyTheme_at, Hshow.
  unfold bind at 1, read_memory at 1.
  unfold bind at 1. rewrite setScale_at, Hscale.
  destruct (converts (currentScale (mem w1))); cbn [andb]; cbv zeta.
  - eexists. split; [reflexivity|]. by split.
  - unfold bind at 1. rewrite applyTheme_at, Hshow.
    unfold bind at 1. rewrite setScale_at, Hscale. cbn [converts andb].
    cbv zeta. eexists. split; [reflexivity|]. by split.
Qed.

(* ===================================================================== *)
(** ** From the earlier theme module to the database *)
(* ===================================================================== *)

(** X30: a theme saved by the earlier module, which writes it to the
    [localStorage] item ['ods_theme'] only, reads back as it was saved (a
    falsy current scale as 1) through the [loadTheme] of that module, and
    is taken over by the database-backed [loadTheme] when the database
    holds no default theme yet: the theme reads back in the same way, is
    stored in the database under ['default'], and the [localStorage] item
    is removed. *)
Theorem legacy_theme_is_migrated (E : env) (w : world) (s : store) :
  db w !! "themes" = Some s ->
  keyPath s = "id" ->
  Store.get (KStr "default") s = None ->
  exists (w1 w2 : world) (r : obj),
    Legacy.saveTheme E w = (Ret true, w1)
    /\ db w1 = db w
    /\ Legacy.loadTheme w1 = (Ret tt, set_mem (reloaded (mem w)) w1)
    /\ loadTheme E w1 = (Ret tt, w2)
    /\ mem w2 = reloaded (mem w)
    /\ ods_theme w2 = Absent
    /\ getItem "themes" (JStr "default") w2 = (Ret (Some r), w2)
    /\ shows_theme (mem w2) r.
Proof.
  intros Hdb Hkp Hget.
  set (d := [ ("id", JStr "default");
              ("colors", theme_colors (mem w));
              ("typography", theme_typography (mem w));
              ("scale", scale_to_save (mem w));
              ("timestamp", JNum (now E (ticks w))) ]).
  set (w1 := set_ods_theme (Text (Some (JObj d))) (Date_now E w).2).
  destruct (loadTheme_migration E w1 s (JObj d) Hdb Hkp Hget eq_refl
              ltac:(discriminate))
    as (r & w2 & Hload & Hmem & Hslot & Hitem & Hshows).
  assert (Hback : adopted (JObj d) (mem w1) = reloaded (mem w))
    by (apply adopted_shown; by repeat split).
  exists w1, w2, r. split; [reflexivity|]. split; [reflexivity|].
  split.
  { unfold Legacy.loadTheme, try_catch, bind at 1.
    cbn [ods_theme w1 set_ods_theme].
    unfold bind at 1, parse_slot, ret at 1.
    by rewrite adopt_at, Hback. }
  split; [exact Hload|].
  split; [|split; [exact Hslot|split; [exact Hitem|exact Hshows]]].
  by rewrite Hmem.
Qed.

Lemma legacy_theme_is_migrated_witness :
  exists (w1 w2 : world) (r : obj),
    Legacy.saveTheme Sample.platform Sample.fresh = (Ret true, w1)
    /\ loadTheme Sample.platform w1 = (Ret tt, w2)
    /\ mem w2 = reloaded Sample.theme_defaults
    /\ ods_theme w2 = Absent
    /\ getItem "themes" (JStr "default") w2 = (Ret (Some r), w2).
Proof.
  destruct (legacy_theme_is_migrated Sample.platform Sample.fresh
              (mkStore "id" false [] 1) eq_refl eq_refl eq_refl)
    as (w1 & w2 & r & Hsave & _ & _ & Hload & Hmem & Hslot & Hitem & _).
  exists w1, w2, r. split; [exact Hsave|]. split; [exact Hload|].
  split; [exact Hmem|]. split; [exact Hslot|exact Hitem].
Defined.

(* ===================================================================== *)
(** ** The import of a document that lacks a section *)
(* ===================================================================== *)

(** The database operations and the export leave [localStorage] alone. *)
Lemma addItem_keeps_item E name data : keeps ods_theme (addItem E name data).
Proof. apply prim_addItem; [apply _|by intros w|by intros n s w]. Qed.

Lemma clearStore_keeps_item name : keeps ods_theme (clearStore name).
Proof. apply prim_clearStore; [apply _|by intros n s w]. Qed.

Lemma exportData_keeps_item E : keeps ods_theme (exportData E).
Proof.
  apply lifted_exportData; [apply _|by intros w|by intros doc name w|].
  apply addItem_keeps_item.
Qed.

Lemma import_themes_keeps_item E items n :
  keeps ods_theme
    (import_each (fun theme => addItem E "themes" theme ;; ret tt)%js items n).
Proof.
  apply lifted_import_each; [apply _|]. intros item.
  apply respects_bind; [apply _|apply addItem_keeps_item|].
  intros _. apply respects_ret, _.
Qed.

Lemma import_generated_keeps_item E name items n :
  keeps ods_theme (import_each (add_without_id E name) items n).
Proof.
  apply lifted_import_each; [apply _|]. intros item.
  apply lifted_add_without_id; [apply _|]. apply addItem_keeps_item.
Qed.

(** A saved theme is read by its colours, its typography and its scale. *)
Lemma adopted_same_parts (r t : obj) (m : memory) :
  Obj.get "colors" r = Obj.get "colors" t ->
  Obj.get "typography" r = Obj.get "typography" t ->
  Obj.get "scale" r = Obj.get "scale" t ->
  adopted (JObj r) m = adopted (JObj t) m.
Proof.
  intros Hc Ht Hs. unfold adopted, shown. cbn [prop].
  by rewrite Hc, Ht, Hs.
Qed.

(** The themes of a document go in when each carries a valid key of its
    own that the store does not hold yet; what the store holds afterwards
    under a key is what it held, or a theme of the document as
    [addItem] has stamped it. *)
Lemma import_themes_stored (E : env) (ts : list obj) :
  forall (w : world) (n : Z) (s : store),
    db w !! "themes" = Some s ->
    keyPath s = "id" ->
    Forall (fun t => exists k, record_key "id" t = Some k
                               /\ Store.get k s = None) ts ->
    NoDup (record_key "id" <$> ts) ->
    exists w' s',
      import_each (fun theme => addItem E "themes" theme ;; ret tt)%js
        (JObj <$> ts) n w
      = (Ret (n + Z.of_nat (length ts)), w')
      /\ db w' !! "themes" = Some s'
      /\ keyPath s' = "id"
      /\ forall k0 r, Store.get k0 s' = Some r ->
           Store.get k0 s = Some r
           \/ exists t, t ∈ ts /\ record_key "id" t = Some k0
                /\ forall p, p <> "timestamp" -> Obj.get p r = Obj.get p t.
Proof.
  induction ts as [|t ts IH]; intros w n s Hdb Hkp Hkeys Hnd.
  - exists w, s. simpl. unfold ret. split; [f_equal; f_equal; lia|].
    split; [done|]. split; [done|]. auto.
  - apply Forall_cons in Hkeys as [(k & Hk & Hfree) Hkeys].
    rewrite fmap_cons in Hnd. apply NoDup_cons in Hnd as [Hnotin Hnd].
    assert (Hk' : record_key (keyPath s) (stamped E w t) = Some k).
    { rewrite Hkp. unfold record_key. by rewrite stamped_other. }
    destruct (store_add_explicit _ s k Hk' Hfree) as (g & Hadd & _).
    pose proof (addItem_object E w "themes" s t Hdb) as Hrun.
    rewrite Hadd in Hrun.
    match type of Hrun with _ = (_, ?x) => set (w1 := x) in * end.
    set (s1 := mkStore (keyPath s) (autoIncrement s)
                 (Records.put k (stamped E w t) (records s)) g) in *.
    destruct (IH w1 (n + 1) s1) as (w' & s' & Hrest & Hdb' & Hkp' & Hstored).
    + unfold w1. simpl. apply lookup_insert_eq.
    + done.
    + apply Forall_forall. intros t' Ht'.
      rewrite Forall_forall in Hkeys.
      destruct (Hkeys t' Ht') as (k' & Hk'' & Hfree').
      exists k'. split; [done|].
      unfold Store.get. simpl. rewrite RecordsFacts.get_put_other; [done|].
      intros Heq. subst k'. apply Hnotin. rewrite Hk, <- Hk''.
      by apply list_elem_of_fmap_2.
    + done.
    + exists w', s'.
      assert (Hstep : (addItem E "themes" (JObj t) ;; ret tt)%js w
                      = (Ret tt, w1)).
      { unfold bind. by rewrite Hrun. }
      split.
      { rewrite fmap_cons. simpl.
        rewrite (bind_ret_at _ _ _ _ _ Hstep), Hrest.
        f_equal. f_equal. lia. }
      split; [done|]. split; [done|].
      intros k0 r Hr.
      destruct (Hstored k0 r Hr) as [Hold|(t' & Ht' & Hk0 & Hsame)].
      * unfold Store.get, s1 in Hold. simpl in Hold.
        destruct (decide (k0 = k)) as [->|Hne].
        -- rewrite RecordsFacts.get_put_same in Hold. inversion Hold. subst r.
           right. exists t. split; [apply list_elem_of_here|].
           split; [done|]. intros p Hp. by apply stamped_other.
        -- rewrite RecordsFacts.get_put_other in Hold by done. by left.
      * right. exists t'. split; [by apply list_elem_of_further|done].
Qed.

(** The theme reload that ends an import, with no item ['ods_theme'] in
    [localStorage]: a stored default theme is read, and without one the
    theme in memory is stored. *)
Lemma loadTheme_reload (E : env) (w : world) (s : store) (m : memory) :
  db w !! "themes" = Some s ->
  keyPath s = "id" ->
  ods_theme w = Absent ->
  mem w = m ->
  displayable m = true ->
  (forall r, Store.get (KStr "default") s = Some r ->
             displayable (adopted (JObj r) m) = true) ->
  exists w',
    loadTheme E w = (Ret tt, w')
    /\ displayable (mem w') = true
    /\ (forall n, n <> "themes" -> db w' !! n = db w !! n)
    /\ (records s = [] ->
        exists r, collection "themes" w' = [r] /\ shows_theme m r).
Proof.
  intros Hdb Hkp Hslot Hmem Hdisp Hstored. subst m.
  destruct (Store.get (KStr "default") s) as [r|] eqn:Hget.
  - rewrite (loadTheme_from_database E w s r Hdb Hget).
    eexists. split; [reflexivity|]. simpl.
    split; [by apply Hstored|]. split; [done|].
    intros Hnil. unfold Store.get in Hget. rewrite Hnil in Hget.
    discriminate.
  - destruct (saveTheme_at E w s Hdb Hkp)
      as (r & d & g & w1 & Hsave & Hshows & Hdb1 & Hmem1 & _).
    exists w1. split.
    { unfold loadTheme, try_catch.
      rewrite (bind_ret_at _ _ _ _ _ (getItem_default w s Hdb)), Hget.
      unfold bind at 1. rewrite Hslot.
      by rewrite (bind_ret_at _ _ _ _ _ Hsave). }
    split; [by rewrite Hmem1|].
    split.
    { intros n Hn. rewrite Hdb1. by rewrite lookup_insert_ne. }
    intros Hnil. exists r. split; [|done].
    unfold collection. rewrite Hdb1, lookup_insert_eq.
    unfold Store.getAll. simpl. by rewrite Hnil.
Qed.

Lemma default_key (t : obj) :
  record_key "id" t = Some (KStr "default") ->
  Obj.get "id" t = Some (JStr "default").
Proof.
  unfold record_key. destruct (Obj.get "id" t) as [v|]; [|done].
  intros Hk. apply KeyFacts.to_key_inv in Hk. by subst.
Qed.

(** An import whose dialogs have been accepted runs to its end when the
    world is ready for it, the records of the document can go in and its
    default theme, if it has one, can be applied; the counts are the
    lengths of the three sections; a section without records leaves
    [operations] or [workspaces] empty, and leaves [themes] with the
    theme in memory, which the theme reload stores under ['default']. *)
Lemma import_confirmed_succeeds (E : env) (f : file) (w : world)
    (version timestamp : option jsval) (d : obj) (ts : list obj)
    (operations workspaces : list jsval) (m : memory) :
  has_stores (db w) ->
  (forall s n, db w !! "backups" = Some s -> (ticks w <= n)%nat ->
               Store.get (KNum (now E n)) s = None) ->
  (forall n m, (ticks w <= n < m)%nat -> now E n <> now E m) ->
  mem w = m ->
  displayable m = true ->
  ods_theme w = Absent ->
  importable (db w) d ts operations workspaces ->
  (forall t, t ∈ ts -> Obj.get "id" t = Some (JStr "default") ->
             displayable (adopted (JObj t) m) = true) ->
  exists msg w',
    import_confirmed E f version timestamp (Some (JObj d)) w
    = (Ret (ImportOk (mkCounts (Z.of_nat (length ts))
                        (Z.of_nat (length operations))
                        (Z.of_nat (length workspaces))) msg), w')
    /\ (operations = [] -> collection "operations" w' = [])
    /\ (workspaces = [] -> collection "workspaces" w' = [])
    /\ (ts = [] ->
        exists r, collection "themes" w' = [r] /\ shows_theme m r).
Proof.
  intros Hstores Hfresh Hdistinct Hmem Hdisp Hslot Himp Hshown.
  destruct Himp as [Hts Htkeys Htnd Hops Hopsitems Hopsroom
                    Hwss Hwssitems Hwssroom].
  destruct (has_stores_themes _ Hstores) as (st & Hst & Hst_kp & _).
  destruct (has_stores_operations _ Hstores) as (so & Hso & Hso_kp & Hso_auto).
  destruct (has_stores_workspaces _ Hstores) as (sw & Hsw & Hsw_kp & Hsw_auto).
  destruct (has_stores_backups _ Hstores) as (sb & Hsb & Hsb_kp & _).
  (* the pre-import backup *)
  destruct (exportData_total E w) as (r1 & w1 & Hexport).
  assert (O1 : only "backups" w w1).
  { eapply respects_run; [|exact Hexport].
    apply respects_exportData; eauto with frame. }
  assert (G1 : grows E w w1).
  { eapply respects_run; [apply exportData_grows|exact Hexport]. }
  assert (I1 : ods_theme w1 = ods_theme w).
  { eapply (respects_run (kept ods_theme));
      [apply exportData_keeps_item|exact Hexport]. }
  destruct O1 as (Hdb1 & Hmem1 & Ht1).
  (* the three stores are cleared *)
  destruct (clear_all w1 st so sw)
    as (w2 & w3 & w4 & Hclear1 & Hclear2 & Hclear3 & Hst4 & Hso4 & Hsw4
        & Hsb4 & Hmem4 & Ht4).
  { by rewrite Hdb1. } { by rewrite Hdb1. } { by rewrite Hdb1. }
  assert (I4 : ods_theme w4 = ods_theme w1).
  { pose proof (respects_run (kept ods_theme) _ _ _ _
                  (clearStore_keeps_item "themes") Hclear1) as H2.
    pose proof (respects_run (kept ods_theme) _ _ _ _
                  (clearStore_keeps_item "operations") Hclear2) as H3.
    pose proof (respects_run (kept ods_theme) _ _ _ _
                  (clearStore_keeps_item "workspaces") Hclear3) as H4.
    unfold kept in *. congruence. }
  assert (G4 : grows E w w4).
  { etrans; [exact G1|]. apply grows_same_backups; [done|lia]. }
  (* the themes *)
  destruct (import_themes_stored E ts w4 0 (Store.clear st))
    as (w5 & s5 & Hthemes & Hs5 & Hs5_kp & Hstored); [done|done| |done|].
  { eapply Forall_impl; [exact Htkeys|]. intros t [k Hk]. by exists k. }
  assert (O5 : only "themes" w4 w5).
  { eapply respects_run; [|exact Hthemes].
    apply respects_import_each; [apply _|]. intros item.
    pose proof (only_ambient "themes"). frame. }
  assert (I5 : ods_theme w5 = ods_theme w4).
  { eapply (respects_run (kept ods_theme));
      [apply import_themes_keeps_item|exact Hthemes]. }
  destruct O5 as (Hdb5 & Hmem5 & Ht5).
  (* the operations *)
  destruct (import_generated_succeeds E "operations" operations w5 0
              (Store.clear so)) as (w6 & Hoperations);
    [by rewrite Hdb5|done|done|done|exact (Hopsroom so Hso)| |].
  { intros k Hk. by destruct Hk. }
  assert (O6 : only "operations" w5 w6).
  { eapply respects_run; [|exact Hoperations].
    apply respects_import_each; [apply _|]. intros item.
    apply respects_add_without_id; eauto with frame. }
  assert (I6 : ods_theme w6 = ods_theme w5).
  { eapply (respects_run (kept ods_theme));
      [apply import_generated_keeps_item|exact Hoperations]. }
  destruct O6 as (Hdb6 & Hmem6 & Ht6).
  (* the workspaces *)
  destruct (import_generated_succeeds E "workspaces" workspaces w6 0
              (Store.clear sw)) as (w7 & Hworkspaces);
    [by rewrite Hdb6, Hdb5|done|done|done|exact (Hwssroom sw Hsw)| |].
  { intros k Hk. by destruct Hk. }
  assert (O7 : only "workspaces" w6 w7).
  { eapply respects_run; [|exact Hworkspaces].
    apply respects_import_each; [apply _|]. intros item.
    apply respects_add_without_id; eauto with frame. }
  assert (I7 : ods_theme w7 = ods_theme w6).
  { eapply (respects_run (kept ods_theme));
      [apply import_generated_keeps_item|exact Hworkspaces]. }
  destruct O7 as (Hdb7 & Hmem7 & Ht7).
  (* the import record *)
  assert (G7 : grows E w w7).
  { etrans; [exact G4|]. apply grows_same_backups; [|lia].
    by rewrite Hdb7, Hdb6, Hdb5. }
  destruct G7 as (_ & G7).
  destruct (G7 sb Hsb Hsb_kp) as (sb7 & Hsb7 & Hsb7_kp & Hkeys7).
  assert (Hfresh7 : forall n, (ticks w7 <= n)%nat ->
                              Store.get (KNum (now E n)) sb7 = None).
  { intros n Hn.
    destruct (Store.get (KNum (now E n)) sb7) eqn:Hget; [|done].
    destruct (Hkeys7 (KNum (now E n))) as [Hold|(n' & Hn' & Heq)].
    - by rewrite Hget.
    - rewrite (Hfresh sb n Hsb) in Hold by lia. done.
    - inversion Heq as [Heq']. symmetry in Heq'.
      by apply (Hdistinct n' n) in Heq'; [|lia]. }
  rewrite Z.add_0_l in Hthemes, Hoperations, Hworkspaces.
  set (wa := (Date_now E w7).2).
  set (rest := [ ("version", defined version);
                 ("type", JStr "import");
                 ("filename", JStr (file_name f));
                 ("imported",
                   JObj [ ("themes", JNum (Z.of_nat (length ts)));
                          ("operations", JNum (Z.of_nat (length operations)));
                          ("workspaces", JNum (Z.of_nat (length workspaces))) ]);
                 ("originalTimestamp", defined timestamp) ]).
  destruct (import_record_added E w7 sb7 rest Hsb7 Hsb7_kp Hfresh7)
    as (r9 & w9 & Hrecord).
  fold wa in Hrecord.
  assert (O9 : only "backups" wa w9).
  { eapply respects_run; [|exact Hrecord].
    apply respects_addItem; eauto with frame. }
  assert (I9 : ods_theme w9 = ods_theme wa).
  { eapply (respects_run (kept ods_theme));
      [apply addItem_keeps_item|exact Hrecord]. }
  destruct O9 as (Hdb9 & Hmem9 & Ht9).
  (* the theme is loaded again and applied *)
  assert (Hs9 : db w9 !! "themes" = Some s5).
  { rewrite Hdb9 by done. unfold wa. simpl.
    rewrite Hdb7 by done. by rewrite Hdb6 by done. }
  assert (Hmem9' : mem w9 = m).
  { rewrite Hmem9. unfold wa. simpl.
    by rewrite Hmem7, Hmem6, Hmem5, Hmem4, Hmem1. }
  destruct (loadTheme_reload E w9 s5 m Hs9 Hs5_kp)
    as (w10 & Hload & Hdisp10 & L10 & Hsaved); [|done|done| |].
  { rewrite I9. unfold wa. simpl. by rewrite I7, I6, I5, I4, I1. }
  { intros r Hr.
    destruct (Hstored _ _ Hr) as [Hold|(t & Ht & Hk & Hsame)];
      [discriminate|].
    rewrite (adopted_same_parts r t) by (apply Hsame; done).
    apply Hshown; [done|]. by apply default_key. }
  apply andb_true_iff in Hdisp10 as [Happ10 Hcur10].
  destruct (setScale_ok E (currentScale (mem w10)) w10 Happ10 Hcur10)
    as (r11 & w11 & Hscale & Hdb11).
  eexists _, w11. split.
  { unfold import_confirmed.
    step Hexport. step Hclear1. step Hclear2. step Hclear3.
    step (section_items_of d "themes" _ w4 Hts). step Hthemes.
    step (section_items_of d "operations" _ w5 Hops). step Hoperations.
    step (section_items_of d "workspaces" _ w6 Hwss). step Hworkspaces.
    unfold bind at 1. unfold Date_now at 1. fold wa.
    step Hrecord. step Hload. step (applyTheme_ok w10 Happ10).
    unfold bind at 1. unfold read_memory at 1.
    step Hscale. reflexivity. }
  split; [|split].
  - intros ->. apply import_each_nil in Hoperations. subst w6.
    unfold collection. rewrite Hdb11, L10 by done.
    rewrite Hdb9 by done. unfold wa. simpl.
    rewrite Hdb7 by done. by rewrite Hdb5, Hso4 by done.
  - intros ->. apply import_each_nil in Hworkspaces. subst w7.
    unfold collection. rewrite Hdb11, L10 by done.
    rewrite Hdb9 by done. unfold wa. simpl.
    rewrite Hdb6 by done. by rewrite Hdb5, Hsw4 by done.
  - intros ->. apply import_each_nil in Hthemes. subst w5.
    rewrite Hst4 in Hs5. inversion Hs5. subst s5.
    destruct (Hsaved eq_refl) as (r & Hr & Hshows).
    exists r. split; [|done].
    unfold collection in *. by rewrite Hdb11.
Qed.

Lemma missing_section_empty (d : obj) (name : string) (items : list jsval) :
  Obj.get name d = None -> section_of d name = Some items -> items = [].
Proof. unfold section_of. intros ->. by inversion 1. Qed.

Lemma missing_theme_section_empty (d : obj) (ts : list obj) :
  Obj.get "themes" d = None ->
  section_of d "themes" = Some (JObj <$> ts) -> ts = [].
Proof.
  intros Hget Hsec. apply (missing_section_empty d _ _ Hget) in Hsec.
  by destruct ts.
Qed.

(** C8 (as amended): take a valid document with a string version whose
    preview can be put into words and whose data section holds records
    that can go in, a world that is ready for an import, and let the
    default theme of the document, if it has one, be a theme that can be
    applied.  The import succeeds and counts the records of each section.
    A missing [operations] or [workspaces] section counts 0 and leaves
    that collection empty.  A missing [themes] section counts 0 as well,
    and leaves [themes] with exactly one record: the theme in memory,
    which the theme reload that ends the import stores under
    ['default']. *)
Theorem missing_section_imports_nothing
    (E : env) (f : file) (w : world) (o d : obj) (v : string)
    (ts : list obj) (operations workspaces : list jsval) :
  file_content f = Parsed (JObj o) ->
  validateBackup (JObj o) = inr Valid ->
  Obj.get "version" o = Some (JStr v) ->
  previewable o = true ->
  Obj.get "data" o = Some (JObj d) ->
  ready E w ->
  importable (db w) d ts operations workspaces ->
  (forall t, t ∈ ts -> Obj.get "id" t = Some (JStr "default") ->
             displayable (adopted (JObj t) (mem w)) = true) ->
  exists (c : counts) (msg : string) (w' : world),
    importData E f w = (Ret (ImportOk c msg), w')
    /\ c = mkCounts (Z.of_nat (length ts)) (Z.of_nat (length operations))
             (Z.of_nat (length workspaces))
    /\ (Obj.get "operations" d = None ->
        imported_operations c = 0 /\ collection "operations" w' = [])
    /\ (Obj.get "workspaces" d = None ->
        imported_workspaces c = 0 /\ collection "workspaces" w' = [])
    /\ (Obj.get "themes" d = None ->
        imported_themes c = 0
        /\ exists r, collection "themes" w' = [r] /\ shows_theme (mem w) r).
Proof.
  intros Hf Hv Hversion Hprev Hdata Hready Himp Hshown.
  destruct Hready as [Hstores Haccepts Hfresh Hdistinct Hmem Hslot].
  assert (Hrun : exists w1,
    import_validated E f (JObj o) w
    = import_confirmed E f (Obj.get "version" o) (Obj.get "timestamp" o)
        (Some (JObj d)) w1
    /\ db w1 = db w /\ ticks w1 = ticks w /\ mem w1 = mem w
    /\ ods_theme w1 = ods_theme w).
  { rewrite (import_validated_gate E f w o v Hv Hversion).
    rewrite Hprev, !Haccepts, Hdata.
    destruct (String.eqb (before_dot BACKUP_VERSION) (before_dot v));
      eexists; split; try reflexivity; done. }
  destruct Hrun as (w1 & Hrun & Hdb1 & Ht1 & Hmem1 & Hslot1).
  destruct (import_confirmed_succeeds E f w1 (Obj.get "version" o)
              (Obj.get "timestamp" o) d ts operations workspaces (mem w))
    as (msg & w' & Hok & Hops & Hwss & Hts).
  { by rewrite Hdb1. }
  { intros s n. rewrite Hdb1, Ht1. apply Hfresh. }
  { intros n m. rewrite Ht1. apply Hdistinct. }
  { done. }
  { done. }
  { by rewrite Hslot1. }
  { by rewrite Hdb1. }
  { done. }
  exists (mkCounts (Z.of_nat (length ts)) (Z.of_nat (length operations))
            (Z.of_nat (length workspaces))), msg, w'.
  split.
  { rewrite (importData_valid E f w (JObj o) Hf Hv).
    unfold try_catch. by rewrite Hrun, Hok. }
  split; [done|].
  destruct Himp as [Hsec_t _ _ Hsec_o _ _ Hsec_w _ _].
  split; [|split].
  - intros Hnone.
    pose proof (missing_section_empty d _ _ Hnone Hsec_o) as ->. auto.
  - intros Hnone.
    pose proof (missing_section_empty d _ _ Hnone Hsec_w) as ->. auto.
  - intros Hnone.
    pose proof (missing_theme_section_empty d _ Hnone Hsec_t) as ->. auto.
Qed.

Lemma sample_ready : ready Sample.platform Sample.in_use.
Proof.
  split.
  - exact sample_has_stores.
  - done.
  - intros s n Hs _. vm_compute in Hs. inversion Hs. reflexivity.
  - intros n m Hnm. simpl. lia.
  - reflexivity.
  - reflexivity.
Defined.

Lemma sample_importable :
  importable (db Sample.in_use)
    [ ("themes", JArr [JObj Sample.default_theme]);
      ("workspaces", JArr [JObj [ ("name", JStr "home") ]]) ]
    [Sample.default_theme] [] [JObj [ ("name", JStr "home") ]].
Proof.
  split.
  - reflexivity.
  - repeat constructor. by eexists.
  - apply (bool_decide_unpack _). vm_compute. exact I.
  - reflexivity.
  - constructor.
  - intros s Hs. vm_compute in Hs. inversion Hs. subst.
    vm_compute. discriminate.
  - reflexivity.
  - repeat constructor. discriminate.
  - intros s Hs. vm_compute in Hs. inversion Hs. subst.
    vm_compute. discriminate.
Defined.

Lemma missing_section_imports_nothing_witness :
  exists (c : counts) (msg : string) (w' : world),
    importData Sample.platform
      (mkFile "partial.json" (Parsed (JObj Sample.no_operations_document)))
      Sample.in_use
    = (Ret (ImportOk c msg), w')
    /\ imported_operations c = 0
    /\ collection "operations" w' = [].
Proof.
  destruct (missing_section_imports_nothing Sample.platform
              (mkFile "partial.json"
                 (Parsed (JObj Sample.no_operations_document)))
              Sample.in_use Sample.no_operations_document
              [ ("themes", JArr [JObj Sample.default_theme]);
                ("workspaces", JArr [JObj [ ("name", JStr "home") ]]) ]
              "9.1"
              [Sample.default_theme] [] [JObj [ ("name", JStr "home") ]])
    as (c & msg & w' & Hrun & _ & Hops & _).
  - reflexivity.
  - reflexivity.
  - reflexivity.
  - reflexivity.
  - reflexivity.
  - exact sample_ready.
  - exact sample_importable.
  - intros t Ht _. apply list_elem_of_singleton in Ht. subst t. reflexivity.
  - exists c, msg, w'. split; [exact Hrun|]. exact (Hops eq_refl).
Defined.

(** C8 as worded fails for [themes]: a document without a themes
    section is imported with a themes count of 0, and the collection then
    holds the default theme that the reload has stored. *)
Lemma missing_themes_section_not_left_empty :
  Obj.get "themes"
    [ ("operations", JArr []); ("workspaces", JArr []) ] = None
  /\ Obj.get "data" Sample.no_themes_document
     = Some (JObj [ ("operations", JArr []); ("workspaces", JArr []) ])
  /\ (importData Sample.platform
        (mkFile "partial.json" (Parsed (JObj Sample.no_themes_document)))
        Sample.in_use).1
     = Ret (ImportOk (mkCounts 0 0 0)
              "Successfully imported 0 themes, 0 operations, 0 workspaces")
  /\ collection "themes"
       (importData Sample.platform
          (mkFile "partial.json" (Parsed (JObj Sample.no_themes_document)))
          Sample.in_use).2
     <> [].
Proof. vm_compute. repeat split. discriminate. Qed.
